(** * Combo chart extension: scale, sort, geometry and configuration merge

    A shallow embedding of the rendering core of the Tableau combo chart
    extension ([src/js/comboChart.js]) and of the configuration deep merge
    ([deepMerge] in [src/js/dataHandler.js], [Config.merge] in the
    configuration module).

    Conventions of the embedding:
    - JavaScript numbers are exact rationals ([Q]); [NaN] (which is also what
      [undefined] becomes in arithmetic) is a separate value.  Rounding of
      IEEE doubles is modelled only where a property turns on it
      ([Ieee.round64]: the synchronised axes in [SyncDoubles], the amount
      of [darkenColor]); elsewhere arithmetic is exact.
    - strings are [string]s over 8-bit code units;
    - objects used as dictionaries are finite maps ([gmap string _]); the
      prototype chain is not modelled;
    - arrays and d3 scales live in a store and are named by references,
      since the engine tells a re-render from a fresh render by comparing
      array references, and aliases the right scale to the left one;
    - the operations of the d3 library and of the JavaScript engine that the
      repository only calls ([Date] parsing, [localeCompare], the band
      scale) are parameters; the rounding done by [scale.nice()] is left
      open in the engine model, where a scale records the pair handed to
      it, and is worked out in [D3Nice] for the synchronised axes. *)

From stdpp Require Import gmap strings list fin_maps pretty.
From Stdlib Require Import Ascii QArith Qminmax Qabs Qround Qpower Lqa ZArith
  Permutation Sorted.
From Stdlib Require Import OrderedTypeEx.
From Corelib Require SpecFloat.
Close Scope Q_scope.
Set Warnings "-register-all".

(** ** Rows delivered by the data adapter *)

Record Row := mkRow {
  dimension : string;
  bar1Value : Q;
  bar2Value : Q;
  lineValue : Q;
  bar1Formatted : string;
  bar2Formatted : string;
  lineFormatted : string
}.

(** ** Sort resolution ([createScales], first part) *)

Module DimSort.

(** Character classes of the regular expression [/^(\w+)\s+(\d{4})$/]. *)
Definition is_digit (c : ascii) : bool :=
  let n := nat_of_ascii c in (48 <=? n)%nat && (n <=? 57)%nat.

Definition is_word (c : ascii) : bool :=
  let n := nat_of_ascii c in
  is_digit c
  || ((65 <=? n)%nat && (n <=? 90)%nat)
  || ((97 <=? n)%nat && (n <=? 122)%nat)
  || (n =? 95)%nat.

Definition is_space (c : ascii) : bool :=
  let n := nat_of_ascii c in
  ((9 <=? n)%nat && (n <=? 13)%nat) || (n =? 32)%nat || (n =? 160)%nat.

Fixpoint all_chars (p : ascii -> bool) (s : string) : bool :=
  match s with
  | EmptyString => true
  | String c s' => p c && all_chars p s'
  end.

(** Longest prefix of [s] made of characters in class [p], and the rest. *)
Fixpoint span (p : ascii -> bool) (s : string) : string * string :=
  match s with
  | EmptyString => (EmptyString, EmptyString)
  | String c s' =>
      if p c then let '(a, b) := span p s' in (String c a, b)
      else (EmptyString, s)
  end.

(** [str.match(/^(\w+)\s+(\d{4})$/)]: the two capture groups, if the whole
    string is a word, white space and four digits. *)
Definition monthYear (str : string) : option (string * string) :=
  let '(w, r1) := span is_word str in
  match w with
  | EmptyString => None
  | _ =>
      let '(sp, r2) := span is_space r1 in
      match sp with
      | EmptyString => None
      | _ =>
          if (String.length r2 =? 4)%nat && all_chars is_digit r2
          then Some (w, r2) else None
      end
  end.

(** The comparator protocol of [Array.prototype.sort]: a negative result
    keeps [a] before [b], a positive one puts [b] first, zero keeps the
    original order (the sort is stable).  [x] is inserted in front of a list
    of elements that all came after it in the input. *)
Fixpoint insert_by {A} (cmp : A -> A -> Z) (x : A) (l : list A) : list A :=
  match l with
  | [] => [x]
  | y :: l' => if (cmp x y <=? 0)%Z then x :: l else y :: insert_by cmp x l'
  end.

Definition js_sort {A} (cmp : A -> A -> Z) (l : list A) : list A :=
  foldr (insert_by cmp) [] l.

Section WithEngine.

  (** [new Date(str).getTime()], [None] for an invalid date. *)
Variable dateParse : string -> option Z.
  (** [a.localeCompare(b)] *)
Variable localeCompare : string -> string -> Z.

Definition parseDate (str : string) : option Z :=
    match str with
    | EmptyString => None
    | _ =>
        match dateParse str with
        | Some t => Some t
        | None =>
            match monthYear str with
            | Some (m, y) => dateParse (m +:+ " 1, " +:+ y)
            | None => None
            end
        end
    end.

  (** [parseDate(a.dimension) || 0] *)
Definition dateKey (r : Row) : Z := default 0%Z (parseDate (dimension r)).

Definition sampleDates (rows : list Row) : list (option Z) :=
    map (fun d => parseDate (dimension d)) (take 3 rows).

Definition isDateData (rows : list Row) : bool :=
    (2 <=? length (filter (fun d => is_Some d) (sampleDates rows)))%nat.

Definition dateCompare (sortOrder : string) (a b : Row) : Z :=
    if String.eqb sortOrder "asc" then (dateKey a - dateKey b)%Z
    else (dateKey b - dateKey a)%Z.

Definition alphaCompare (sortOrder : string) (a b : Row) : Z :=
    let cmp := localeCompare (dimension a) (dimension b) in
    if String.eqb sortOrder "asc" then cmp else (- cmp)%Z.

  (** The value of [sortedData] once the sort order has been applied to a
      copy of the data source. *)
Definition sortRows (sortOrder : string) (rows : list Row) : list Row :=
    if String.eqb sortOrder "asc" || String.eqb sortOrder "desc" then
      if isDateData rows then js_sort (dateCompare sortOrder) rows
      else js_sort (alphaCompare sortOrder) rows
    else if String.eqb sortOrder "reverse" then rev rows
    else rows.

End WithEngine.

End DimSort.

(** ** Configuration trees and the deep merge with the defaults *)

Module ConfigTree.

(** Values a configuration tree holds in memory.  [VNaN] stands for the
    non-finite numbers ([parseInt] of an empty field gives [NaN]). *)
Inductive jsval :=
| VUndef
| VNull
| VBool (b : bool)
| VNum (q : Q)
| VNaN
| VStr (s : string)
| VArr (l : list jsval)
| VObj (m : gmap string jsval).

(** A property of an object on its way through JSON: one that holds
    [undefined] is dropped; [rec] is the conversion of the value. *)
Definition json_property (rec : jsval -> jsval) (x : jsval) : option jsval :=
  match x with
  | VUndef => None
  | _ => Some (rec x)
  end.

(** [JSON.parse(JSON.stringify(v))] for a value that is not [undefined]:
    properties holding [undefined] are dropped, [undefined] inside an array
    and non-finite numbers come back as [null]. *)
Fixpoint jsonValue (v : jsval) : jsval :=
  match v with
  | VUndef | VNaN => VNull
  | VArr l => VArr (map jsonValue l)
  | VObj m => VObj (omap (json_property jsonValue) m)
  | _ => v
  end.

(** [JSON.parse(JSON.stringify(v))]; [JSON.stringify(undefined)] is
    [undefined], which [JSON.parse] rejects with a [SyntaxError]. *)
Definition jsonClone (v : jsval) : option jsval :=
  match v with
  | VUndef => None
  | _ => Some (jsonValue v)
  end.

Definition truthy (v : jsval) : bool :=
  match v with
  | VUndef | VNull | VNaN | VBool false => false
  | VNum q => negb (Qeq_bool q 0)
  | VStr s => negb (String.eqb s "")
  | _ => true
  end.

(** [result[key] || {}] *)
Definition or_empty (o : option jsval) : jsval :=
  match o with
  | Some v => if truthy v then v else VObj ∅
  | None => VObj ∅
  end.

(** The body of the loop of [deepMerge] for one own key of [overrides];
    [rec] is [deepMerge] itself and [acc] the result so far. *)
Definition merge_key (rec : jsval -> jsval -> option jsval)
    (key : string) (v : jsval) (acc : option (gmap string jsval))
    : option (gmap string jsval) :=
  result ← acc;
  match v with
  | VObj _ => r ← rec (or_empty (result !! key)) v; Some (<[key := r]> result)
  | _ => Some (<[key := v]> result)
  end.

(** [deepMerge(defaults, overrides)] of [dataHandler.js], which is also
    [Config.merge].  The loop visits every own key of [overrides] once.
    [None] is returned when JavaScript raises an exception ([defaults] is
    [undefined], or [null] that should take a property) and in the cases
    this model does not describe: properties assigned on a primitive or on
    an array, and [overrides] being a string or an array. *)
Fixpoint deepMerge (defaults overrides : jsval) {struct overrides} : option jsval :=
  match jsonClone defaults with
  | None => None
  | Some result =>
      match overrides with
      | VObj mo =>
          match result with
          | VObj md => VObj <$> map_fold (merge_key deepMerge) (Some md) mo
          | _ => if decide (mo = ∅) then Some result else None
          end
      | VStr _ | VArr _ => None
      | _ => Some result
      end
  end.



(** Leaves of a configuration tree: scalars and arrays. *)
Definition is_leaf (v : jsval) : bool :=
  match v with
  | VObj _ => false
  | _ => true
  end.



(** Number of nodes of a tree. *)
Fixpoint size_of (v : jsval) : nat :=
  match v with
  | VArr l => S (foldr (fun x n => size_of x + n)%nat 0%nat l)
  | VObj m => S (map_fold (fun _ x n => size_of x + n)%nat 0%nat m)
  | _ => 1%nat
  end.

(** What the loop of [deepMerge] stores under a key whose value in
    [overrides] is [v], the target holding [dv] there. *)
Definition merged_entry (dv : option jsval) (v : jsval) : option jsval :=
  match v with
  | VObj _ => deepMerge (or_empty dv) v
  | _ => Some v
  end.


(** An excerpt of [Config.defaults]. *)
Definition defaults_excerpt : jsval :=
  VObj (list_to_map [
    ("barStyle", VStr "grouped");
    ("barPadding", VNum (2 # 10));
    ("axisMode", VStr "dual");
    ("syncDualAxis", VBool false);
    ("line", VObj (list_to_map [
       ("color", VStr "#e15759"); ("opacity", VNum 1); ("width", VNum 2);
       ("style", VStr "solid"); ("curve", VStr "linear")]));
    ("yAxisLeft", VObj (list_to_map [
       ("show", VBool true); ("title", VStr ""); ("showTitle", VBool true);
       ("min", VNull); ("max", VNull); ("format", VStr "auto")]));
    ("legend", VObj (list_to_map [
       ("show", VBool true); ("position", VStr "bottom");
       ("bgColor", VStr "transparent"); ("padding", VNum 14)]))
  ]).

(** Three configurations: one of the shape of the defaults, one where an
    emptied number field left [NaN], one where a sub-object was replaced by
    [null]. *)
Definition config_dashed : jsval :=
  VObj (list_to_map [
    ("line", VObj (list_to_map [("width", VNum 3); ("style", VStr "dashed")]));
    ("yAxisLeft", VObj (list_to_map [("min", VNum 0)]));
    ("barWidth", VNum 80)
  ]).



End ConfigTree.

(** ** Numbers of the engine *)

(** A JavaScript number: a finite value or [NaN].  [undefined], which
    [d3.max] and [d3.min] return on an empty array, turns into [NaN] in every
    arithmetic operation the engine applies to it and is identified with it. *)
Inductive num := NaN | Fin (q : Q).

Definition num_lift2 (f : Q -> Q -> Q) (a b : num) : num :=
  match a, b with
  | Fin x, Fin y => Fin (f x y)
  | _, _ => NaN
  end.

Definition nadd := num_lift2 Qplus.
Definition nsub := num_lift2 Qminus.
Definition nmul := num_lift2 Qmult.
Definition ndiv := num_lift2 Qdiv.
(** [Math.max] and [Math.min] *)
Definition nmax := num_lift2 Qmax.
Definition nmin := num_lift2 Qmin.

(** Equality of two numbers as [==] sees it: [NaN] equals nothing. *)
Definition num_eq (a b : num) : Prop :=
  match a, b with
  | Fin x, Fin y => (x == y)%Q
  | _, _ => False
  end.

(** [a <= b] on two numbers: false when either is [NaN]. *)
Definition num_le (a b : num) : Prop :=
  match a, b with
  | Fin x, Fin y => (x <= y)%Q
  | _, _ => False
  end.

(** [d3.max(values)] and [d3.min(values)] *)
Definition d3_max (l : list Q) : num :=
  match l with
  | [] => NaN
  | x :: l' => Fin (foldl Qmax x l')
  end.

Definition d3_min (l : list Q) : num :=
  match l with
  | [] => NaN
  | x :: l' => Fin (foldl Qmin x l')
  end.

Definition Qgtb (a b : Q) : bool := negb (Qle_bool a b).

(** ** The chart engine *)

Module Chart.

(** *** Configuration, as far as the modelled methods read it *)

Record TitleConfig := { title_show : bool }.

Record XAxisConfig := {
  x_rotation : Q;
  x_showTitle : bool;
  x_title : string;
  x_sort : string
}.

Record YAxisConfig := {
  y_showTitle : bool;
  (** absent from the defaults: [None] is [undefined] *)
  y_includeZero : option bool;
  (** [null] or a number *)
  y_min : option Q;
  y_max : option Q
}.

Record LineConfig := { verticalPosition : option string }.

Record AnimationConfig := {
  anim_enabled : bool;
  anim_duration : Q
}.

Record BarLabelsConfig := {
  bl_show : bool;
  bl_position : string;
  bl_offsetX : Q;
  bl_offsetY : Q
}.

Record LabelFont := {
  lf_offsetX : option Q;
  lf_offsetY : option Q
}.

Record LegendConfig := {
  legend_show : bool;
  legend_position : string
}.

Record Config := {
  barStyle : string;
  barPadding : Q;
  (** [barGap] and [barWidth] are absent from the defaults *)
  barGap : option Q;
  barWidth : option Q;
  axisMode : string;
  syncDualAxis : bool;
  title : TitleConfig;
  xAxis : XAxisConfig;
  yAxisLeft : YAxisConfig;
  yAxisRight : YAxisConfig;
  line : LineConfig;
  animation : option AnimationConfig;
  forceAnimationPreview : bool;
  barLabels : BarLabelsConfig;
  barLabelFont : option LabelFont;
  bar1LabelFont : option LabelFont;
  bar2LabelFont : option LabelFont;
  legend : LegendConfig
}.

Record FieldNames := {
  fn_dimension : string;
  fn_bar1 : string;
  fn_bar2 : string;
  fn_line : string
}.

(** *** Objects of the d3 library *)

(** A linear scale.  [domain] is the pair last handed to [.domain([...])],
    [niced] tells that [.nice()] was called on it since, which lets the
    library widen the domain to round tick values; the engine never reads the
    domain back. *)
Record LinearScale := {
  domain : num * num;
  niced : bool;
  range : Q * Q
}.

(** [d3.scaleLinear()] *)
Definition scaleLinear : LinearScale :=
  {| domain := (Fin 0, Fin 1); niced := false; range := (0, 1)%Q |}.

Definition set_domain (d : num * num) (s : LinearScale) : LinearScale :=
  {| domain := d; niced := false; range := range s |}.
Definition set_range (r : Q * Q) (s : LinearScale) : LinearScale :=
  {| domain := domain s; niced := niced s; range := r |}.
Definition nice (s : LinearScale) : LinearScale :=
  {| domain := domain s; niced := true; range := range s |}.

Record BandScale := {
  band_domain : list string;
  band_range : Q * Q;
  band_padding : Q
}.

(** What the library computes from its scales. *)
Class D3 := {
  (** [scale(v)] of a linear scale *)
  linear_call : LinearScale -> Q -> num;
  (** [xScale.bandwidth()] *)
  bandwidth : BandScale -> Q;
  (** [xScale(dimension)], [undefined] for a value outside the domain *)
  band_call : BandScale -> string -> num
}.

(** What the JavaScript engine computes. *)
Class Engine := {
  dateParse : string -> option Z;
  localeCompare : string -> string -> Z
}.

(** *** State of the [ComboChart] object *)

(** A JavaScript reference to an array. *)
Inductive ref := RNull | RUndef | RAddr (a : nat).

Definition ref_eqb (r1 r2 : ref) : bool :=
  match r1, r2 with
  | RNull, RNull | RUndef, RUndef => true
  | RAddr a, RAddr b => (a =? b)%nat
  | _, _ => false
  end.

Record Margin := { m_top : Q; m_right : Q; m_bottom : Q; m_left : Q }.

(** Geometry of a drawn bar: attributes at creation and at the end of the
    transition (the same when animation is off). *)
Record Rect := {
  rect_x : num;
  rect_width : Q;
  rect_y_start : num;
  rect_height_start : num;
  rect_y : num;
  rect_height : num
}.

Record LabelPos := { label_x : num; label_y : num }.

Record Drawing := {
  bars1 : list Rect;
  bars2 : list Rect;
  barLabels1 : list LabelPos;
  barLabels2 : list LabelPos
}.

(** A callback registered with [setTimeout]; it captures [position]. *)
Record Timer := { timer_delay : Z; timer_position : string }.

Record ComboChart := {
  margin : Margin;
  width : Q;
  height : Q;
  xScale : option BandScale;
  yScaleLeft : option nat;
  yScaleRight : option nat;
  data : ref;
  originalData : ref;
  fieldNames : option FieldNames;
  config : option Config;
  isFirstRender : bool;
  _lastLegendPosition : option string;
  (** the arrays and the linear scales allocated so far *)
  arrays : list (list Row);
  scales : list LinearScale;
  (** pending [setTimeout] callbacks *)
  timers : list Timer;
  drawing : Drawing
}.

(** The object literal of [comboChart.js]. *)
Definition initial : ComboChart := {|
  margin := {| m_top := 30; m_right := 60; m_bottom := 80; m_left := 60 |};
  width := 0; height := 0;
  xScale := None; yScaleLeft := None; yScaleRight := None;
  data := RNull; originalData := RNull;
  fieldNames := None; config := None;
  isFirstRender := true;
  _lastLegendPosition := None;
  arrays := []; scales := []; timers := [];
  drawing := {| bars1 := []; bars2 := []; barLabels1 := []; barLabels2 := [] |}
|}.

(** *** Methods.  A method either completes or throws; the writes it made to
    the object before throwing stay. *)

Inductive outcome :=
| Done (st : ComboChart)
| Thrown (e : string) (st : ComboChart).

Definition method := ComboChart -> outcome.

Definition and_then (m k : method) : method :=
  fun st => match m st with
            | Done st' => k st'
            | Thrown e st' => Thrown e st'
            end.
Notation "m >>> k" := (and_then m k) (at level 62, right associativity).

Definition state_of (o : outcome) : ComboChart :=
  match o with Done st | Thrown _ st => st end.

Definition completes (o : outcome) : Prop :=
  match o with Done _ => True | Thrown _ _ => False end.

Definition deref (st : ComboChart) (r : ref) : option (list Row) :=
  match r with
  | RAddr a => arrays st !! a
  | _ => None
  end.

Definition scale_at (st : ComboChart) (r : option nat) : option LinearScale :=
  i ← r; scales st !! i.

(** [x !== false] for a field that may be absent *)
Definition not_false (o : option bool) : bool :=
  match o with Some false => false | _ => true end.

(** [a || b] on a number that may be absent *)
Definition q_or (a : option Q) (b : Q) : Q :=
  match a with
  | Some q => if Qeq_bool q 0 then b else q
  | None => b
  end.

Definition str_or (a b : string) : string :=
  if String.eqb a "" then b else a.

Definition with_dimensions (m : Margin) (w h : Q) (st : ComboChart) : ComboChart :=
  {| margin := m; width := w; height := h;
     xScale := xScale st; yScaleLeft := yScaleLeft st;
     yScaleRight := yScaleRight st;
     data := data st; originalData := originalData st;
     fieldNames := fieldNames st; config := config st;
     isFirstRender := isFirstRender st;
     _lastLegendPosition := _lastLegendPosition st;
     arrays := arrays st; scales := scales st; timers := timers st;
     drawing := drawing st |}.

(** The margins [updateDimensions] computes; [rect] is the bounding
    rectangle of the container (width, height). *)
Definition margins (cfg : Config) (fn : option FieldNames) (rect : Q * Q) : Margin :=
  let baseMargin := (Qmin (fst rect) (snd rect) * (8 # 100))%Q in
  let xRotation := Qabs (x_rotation (xAxis cfg)) in
  let bottomBase :=
    if Qeq_bool xRotation 0 then 45%Q
    else if Qle_bool xRotation 45 then 60%Q else 80%Q in
  let hasXTitle :=
    x_showTitle (xAxis cfg)
    && negb (String.eqb
               (str_or (x_title (xAxis cfg)) (from_option fn_dimension "" fn)) "") in
  let bottomExtra := if hasXTitle then 20%Q else 0%Q in
  let leftBase := Qmax 70 (Qmin 110 (baseMargin * (14 # 10)))%Q in
  let leftExtra := if y_showTitle (yAxisLeft cfg) then 25%Q else 0%Q in
  {| m_top :=
       if title_show (title cfg)
       then Qmax 25 (Qmin 45 (baseMargin * (8 # 10)))%Q else 20%Q;
     m_bottom := Qmax 40 (Qmin 110 (bottomBase + bottomExtra))%Q;
     m_left := (leftBase + leftExtra)%Q;
     m_right :=
       if String.eqb (axisMode cfg) "dual" then
         let rightBase := Qmax 50 (Qmin 80 (baseMargin * (11 # 10)))%Q in
         let rightExtra := if y_showTitle (yAxisRight cfg) then 20%Q else 0%Q in
         (rightBase + rightExtra)%Q
       else 20%Q |}.

(** [updateDimensions] *)
Definition updateDimensions (rect : Q * Q) : method := fun st =>
  match config st with
  | None => Thrown "TypeError" st
  | Some cfg =>
      let m := margins cfg (fieldNames st) rect in
      Done (with_dimensions m
              (Qmax 0 (fst rect - m_left m - m_right m)%Q)
              (Qmax 0 (snd rect - m_top m - m_bottom m)%Q) st)
  end.

(** [getAnimation]: whether transitions run, and their duration. *)
Definition getAnimation (cfg : Config) (st : ComboChart) : bool * Q :=
  let anim := default {| anim_enabled := true; anim_duration := 500 |}
                      (animation cfg) in
  let useFullDuration := isFirstRender st || forceAnimationPreview cfg in
  (anim_enabled anim,
   if useFullDuration then anim_duration anim
   else (anim_duration anim * (5 # 10))%Q).

(** **** [createScales]: the domains *)

Definition stackedValue (d : Row) : Q := (bar1Value d + bar2Value d)%Q.

Definition barMax (cfg : Config) (rows : list Row) : num :=
  if String.eqb (barStyle cfg) "stacked"
  then d3_max (map stackedValue rows)
  else d3_max (map (fun d => Qmax (bar1Value d) (bar2Value d)) rows).

Definition lineMax (rows : list Row) : num := d3_max (map lineValue rows).

Definition barMin (rows : list Row) : num :=
  d3_min (map (fun d => Qmin (bar1Value d) (bar2Value d)) rows).

Definition lineMin (rows : list Row) : num := d3_min (map lineValue rows).

(** [axis.includeZero !== false ? 0 : m * 0.9] *)
Definition autoMin (axis : YAxisConfig) (m : num) : num :=
  if not_false (y_includeZero axis) then Fin 0 else nmul m (Fin (9 # 10)).

(** [configured !== null ? configured : auto] *)
Definition or_auto (configured : option Q) (auto : num) : num :=
  match configured with
  | Some q => Fin q
  | None => auto
  end.

(** [configured || auto] *)
Definition or_auto_truthy (configured : option Q) (auto : num) : num :=
  match configured with
  | Some q => if Qeq_bool q 0 then auto else Fin q
  | None => auto
  end.

Definition yLeftMin (cfg : Config) (rows : list Row) : num :=
  or_auto (y_min (yAxisLeft cfg)) (autoMin (yAxisLeft cfg) (barMin rows)).

Definition yLeftMax (cfg : Config) (rows : list Row) : num :=
  or_auto (y_max (yAxisLeft cfg)) (nmul (barMax cfg rows) (Fin (11 # 10))).

Definition combinedMax (cfg : Config) (rows : list Row) : num :=
  nmul (nmax (barMax cfg rows) (lineMax rows)) (Fin (11 # 10)).

Definition syncMin (cfg : Config) (rows : list Row) : num :=
  nmin (or_auto (y_min (yAxisLeft cfg)) (autoMin (yAxisLeft cfg) (barMin rows)))
       (or_auto (y_min (yAxisRight cfg)) (autoMin (yAxisRight cfg) (lineMin rows))).

Definition syncMax (cfg : Config) (rows : list Row) : num :=
  nmax (or_auto (y_max (yAxisLeft cfg)) (combinedMax cfg rows))
       (or_auto (y_max (yAxisRight cfg)) (combinedMax cfg rows)).

Definition yRightMin (cfg : Config) (rows : list Row) : num :=
  or_auto (y_min (yAxisRight cfg)) (autoMin (yAxisRight cfg) (lineMin rows)).

Definition yRightMax (cfg : Config) (rows : list Row) : num :=
  or_auto (y_max (yAxisRight cfg)) (nmul (lineMax rows) (Fin (11 # 10))).

Definition sharedMin (cfg : Config) (rows : list Row) : num :=
  if not_false (y_includeZero (yAxisLeft cfg)) then Fin 0
  else nmul (nmin (barMin rows) (lineMin rows)) (Fin (9 # 10)).

Definition sharedDomain (cfg : Config) (rows : list Row) : num * num :=
  (or_auto (y_min (yAxisLeft cfg)) (sharedMin cfg rows),
   or_auto_truthy (y_max (yAxisLeft cfg)) (combinedMax cfg rows)).

(** [{upper: 0.15, middle: 0.35, lower: 0.55, bottom: 0.75}[vertPos] || 0] *)
Definition rangeTopFraction (vertPos : string) : Q :=
  if String.eqb vertPos "upper" then 15 # 100
  else if String.eqb vertPos "middle" then 35 # 100
  else if String.eqb vertPos "lower" then 55 # 100
  else if String.eqb vertPos "bottom" then 75 # 100
  else 0.

(** The left scale when [createScales] returns.  It is created with the bar
    domain; the sync and the shared branch then replace its domain. *)
Definition leftScale (cfg : Config) (rows : list Row) (h : Q) : LinearScale :=
  let s := nice (set_range (h, 0%Q)
                   (set_domain (yLeftMin cfg rows, yLeftMax cfg rows) scaleLinear)) in
  if String.eqb (axisMode cfg) "dual" then
    if syncDualAxis cfg
    then nice (set_domain (syncMin cfg rows, syncMax cfg rows) s)
    else s
  else nice (set_domain (sharedDomain cfg rows) s).

(** The scale created for the right axis in dual mode. *)
Definition rightScale (cfg : Config) (rows : list Row) (h : Q) : LinearScale :=
  let s :=
    if syncDualAxis cfg then
      nice (set_range (h, 0%Q)
              (set_domain (syncMin cfg rows, syncMax cfg rows) scaleLinear))
    else
      nice (set_range (h, 0%Q)
              (set_domain (yRightMin cfg rows, yRightMax cfg rows) scaleLinear)) in
  let vertPos := str_or (default "" (verticalPosition (line cfg))) "auto" in
  if negb (String.eqb vertPos "auto") && negb (String.eqb vertPos "top")
  then set_range (h, (h * rangeTopFraction vertPos)%Q) s
  else s.

Section Methods.

Context {d3 : D3} {engine : Engine}.

  (** The writes of [createScales]: the sorted copy is a new array; the left
    scale is a new object, and so is the right one in dual mode, while in
    shared mode [yScaleRight] is made to point to the left scale. *)
Definition with_scales (xs : BandScale) (sortedData : list Row)
    (l : LinearScale) (r : option LinearScale) (st : ComboChart) : ComboChart :=
  {| margin := margin st; width := width st; height := height st;
     xScale := Some xs;
     yScaleLeft := Some (length (scales st));
     yScaleRight :=
       Some (match r with
             | Some _ => S (length (scales st))
             | None => length (scales st)
             end);
     data := RAddr (length (arrays st));
     originalData := originalData st;
     fieldNames := fieldNames st; config := config st;
     isFirstRender := isFirstRender st;
     _lastLegendPosition := _lastLegendPosition st;
     arrays := arrays st ++ [sortedData];
     scales := scales st ++ l :: match r with Some s => [s] | None => [] end;
     timers := timers st;
     drawing := drawing st |}.

(** [this.originalData || this.data] *)
Definition dataSource (st : ComboChart) : ref :=
  match originalData st with
  | RAddr a => RAddr a
  | _ => data st
  end.

(** [createScales] *)
Definition createScales : method := fun st =>
  match config st with
  | None => Thrown "TypeError" st
  | Some cfg =>
      match deref st (dataSource st) with
      | None => Thrown "TypeError" st
      | Some source =>
          let sortOrder := str_or (x_sort (xAxis cfg)) "default" in
          let sortedData :=
            DimSort.sortRows dateParse localeCompare sortOrder source in
          Done (with_scales
                  {| band_domain := map dimension sortedData;
                     band_range := (0%Q, width st);
                     band_padding := barPadding cfg |}
                  sortedData
                  (leftScale cfg sortedData (height st))
                  (if String.eqb (axisMode cfg) "dual"
                   then Some (rightScale cfg sortedData (height st))
                   else None)
                  st)
      end
  end.

(** **** [renderBars]: geometry of the bars *)

  (** Grouped bars: [autoBarWidth], [barWidth], [groupWidth], [groupOffset]. *)
Definition autoBarWidth (bandWidth gap : Q) : Q := ((bandWidth - gap) / 2)%Q.

Definition groupedBarWidth (bandWidth gap barWidthPercent : Q) : Q :=
    (autoBarWidth bandWidth gap * (barWidthPercent / 100))%Q.

Definition groupWidth (bandWidth gap barWidthPercent : Q) : Q :=
    Qmin (groupedBarWidth bandWidth gap barWidthPercent * 2 + gap)%Q bandWidth.

Definition groupOffset (bandWidth gap barWidthPercent : Q) : Q :=
    ((bandWidth - groupWidth bandWidth gap barWidthPercent) / 2)%Q.

  (** Stacked bars: [barWidth] and [stackOffset]. *)
Definition stackedBarWidth (bandWidth barWidthPercent : Q) : Q :=
    ((bandWidth - 4) * (barWidthPercent / 100))%Q.

Definition stackOffset (bandWidth barWidthPercent : Q) : Q :=
    ((bandWidth - stackedBarWidth bandWidth barWidthPercent) / 2)%Q.

  (** A bar that grows from the given start to its final place when
      animation is on, and is drawn in place otherwise. *)
Definition bar (animated : bool) (x : num) (w : Q)
      (y_start height_start y h : num) : Rect :=
    {| rect_x := x; rect_width := w;
       rect_y_start := if animated then y_start else y;
       rect_height_start := if animated then height_start else h;
       rect_y := y; rect_height := h |}.

Definition groupedBars1 (animated : bool) (xs : BandScale) (ys : LinearScale)
      (h gap pct : Q) (rows : list Row) : list Rect :=
    let bandWidth := bandwidth xs in
    map (fun d =>
           bar animated
             (nadd (band_call xs (dimension d)) (Fin (groupOffset bandWidth gap pct)))
             (groupedBarWidth bandWidth gap pct)
             (Fin h) (Fin 0)
             (linear_call ys (bar1Value d))
             (nsub (Fin h) (linear_call ys (bar1Value d)))) rows.

Definition groupedBars2 (animated : bool) (xs : BandScale) (ys : LinearScale)
      (h gap pct : Q) (rows : list Row) : list Rect :=
    let bandWidth := bandwidth xs in
    map (fun d =>
           bar animated
             (nadd (band_call xs (dimension d))
                   (Fin (groupOffset bandWidth gap pct
                         + groupedBarWidth bandWidth gap pct + gap)%Q))
             (groupedBarWidth bandWidth gap pct)
             (Fin h) (Fin 0)
             (linear_call ys (bar2Value d))
             (nsub (Fin h) (linear_call ys (bar2Value d)))) rows.

Definition stackedBars1 (animated : bool) (xs : BandScale) (ys : LinearScale)
      (h pct : Q) (rows : list Row) : list Rect :=
    let bandWidth := bandwidth xs in
    map (fun d =>
           bar animated
             (nadd (band_call xs (dimension d)) (Fin (stackOffset bandWidth pct)))
             (stackedBarWidth bandWidth pct)
             (Fin h) (Fin 0)
             (linear_call ys (bar1Value d))
             (nsub (Fin h) (linear_call ys (bar1Value d)))) rows.

Definition stackedBars2 (animated : bool) (xs : BandScale) (ys : LinearScale)
      (h pct : Q) (rows : list Row) : list Rect :=
    let bandWidth := bandwidth xs in
    map (fun d =>
           bar animated
             (nadd (band_call xs (dimension d)) (Fin (stackOffset bandWidth pct)))
             (stackedBarWidth bandWidth pct)
             (linear_call ys (bar1Value d)) (Fin 0)
             (linear_call ys (bar1Value d + bar2Value d)%Q)
             (nsub (linear_call ys (bar1Value d))
                   (linear_call ys (bar1Value d + bar2Value d)%Q))) rows.

Definition with_drawing (dr : Drawing) (st : ComboChart) : ComboChart :=
    {| margin := margin st; width := width st; height := height st;
       xScale := xScale st; yScaleLeft := yScaleLeft st;
       yScaleRight := yScaleRight st;
       data := data st; originalData := originalData st;
       fieldNames := fieldNames st; config := config st;
       isFirstRender := isFirstRender st;
       _lastLegendPosition := _lastLegendPosition st;
       arrays := arrays st; scales := scales st; timers := timers st;
       drawing := dr |}.

(** The two series of rectangles [renderBars] draws. *)
Definition drawBars (cfg : Config) (animated : bool) (xs : BandScale)
    (ys : LinearScale) (h : Q) (rows : list Row) : list Rect * list Rect :=
  let gap := default 4%Q (barGap cfg) in
  let barWidthPercent := default 100%Q (barWidth cfg) in
  if String.eqb (barStyle cfg) "grouped" then
    (groupedBars1 animated xs ys h gap barWidthPercent rows,
     groupedBars2 animated xs ys h gap barWidthPercent rows)
  else
    (stackedBars1 animated xs ys h barWidthPercent rows,
     stackedBars2 animated xs ys h barWidthPercent rows).

Definition renderBars : method := fun st =>
  match config st, xScale st, scale_at st (yScaleLeft st), deref st (data st) with
  | Some cfg, Some xs, Some ys, Some rows =>
      let b := drawBars cfg (fst (getAnimation cfg st)) xs ys (height st) rows in
      Done (with_drawing
              {| bars1 := fst b; bars2 := snd b;
                 barLabels1 := barLabels1 (drawing st);
                 barLabels2 := barLabels2 (drawing st) |} st)
  | _, _, _, _ => Thrown "TypeError" st
  end.

(** **** [renderLabels]: the bar labels *)

  (** [barWidth] as [renderLabels] computes it. *)
Definition labelBarWidth (configBarWidth autoW : Q) : Q :=
    if Qgtb configBarWidth 0 then Qmin configBarWidth autoW else autoW.

Definition labelGroupOffset (bandWidth gap configBarWidth : Q) : Q :=
    let w := labelBarWidth configBarWidth (autoBarWidth bandWidth gap) in
    ((bandWidth - (w * 2 + gap)) / 2)%Q.

Definition bar1LabelX (cfg : Config) (xs : BandScale) (d : Row) : num :=
    let bandWidth := bandwidth xs in
    let gap := default 4%Q (barGap cfg) in
    let configBarWidth := q_or (barWidth cfg) 0 in
    if String.eqb (barStyle cfg) "grouped" then
      let w := labelBarWidth configBarWidth (autoBarWidth bandWidth gap) in
      nadd (band_call xs (dimension d))
           (Fin (labelGroupOffset bandWidth gap configBarWidth + w / 2)%Q)
    else nadd (band_call xs (dimension d)) (Fin (bandWidth / 2)%Q).

Definition bar2LabelX (cfg : Config) (xs : BandScale) (d : Row) : num :=
    let bandWidth := bandwidth xs in
    let gap := default 4%Q (barGap cfg) in
    let configBarWidth := q_or (barWidth cfg) 0 in
    if String.eqb (barStyle cfg) "grouped" then
      let w := labelBarWidth configBarWidth (autoBarWidth bandWidth gap) in
      nadd (band_call xs (dimension d))
           (Fin (labelGroupOffset bandWidth gap configBarWidth + w + gap + w / 2)%Q)
    else nadd (band_call xs (dimension d)) (Fin (bandWidth / 2)%Q).

  (** [font.offsetX || barLabels.offsetX || 0], where [font] is the font of
      the series, else the shared one, else an empty object. *)
Definition labelFont (own shared : option LabelFont) : LabelFont :=
    match own, shared with
    | Some f, _ => f
    | None, Some f => f
    | None, None => {| lf_offsetX := None; lf_offsetY := None |}
    end.

Definition labelBaseY (position : string) (h : Q) (y : num) : num :=
    if String.eqb position "top" then nsub y (Fin 5)
    else if String.eqb position "inside" then nadd y (Fin 15)
    else nadd y (ndiv (nsub (Fin h) y) (Fin 2)).

(** The two series of bar labels [renderLabels] draws. *)
Definition drawLabels (cfg : Config) (xs : BandScale) (ys : LinearScale)
    (h : Q) (rows : list Row) : list LabelPos * list LabelPos :=
  if bl_show (barLabels cfg) then
    let f1 := labelFont (bar1LabelFont cfg) (barLabelFont cfg) in
    let f2 := labelFont (bar2LabelFont cfg) (barLabelFont cfg) in
    let bar1OffsetX := q_or (lf_offsetX f1) (bl_offsetX (barLabels cfg)) in
    let bar1OffsetY := q_or (lf_offsetY f1) (bl_offsetY (barLabels cfg)) in
    let bar2OffsetX := q_or (lf_offsetX f2) (bl_offsetX (barLabels cfg)) in
    let bar2OffsetY := q_or (lf_offsetY f2) (bl_offsetY (barLabels cfg)) in
    (map (fun d =>
            {| label_x := nadd (bar1LabelX cfg xs d) (Fin bar1OffsetX);
               label_y :=
                 nadd (labelBaseY (bl_position (barLabels cfg)) h
                         (linear_call ys (bar1Value d)))
                      (Fin bar1OffsetY) |}) rows,
     map (fun d =>
            {| label_x := nadd (bar2LabelX cfg xs d) (Fin bar2OffsetX);
               label_y :=
                 nadd (labelBaseY (bl_position (barLabels cfg)) h
                         (if String.eqb (barStyle cfg) "grouped"
                          then linear_call ys (bar2Value d)
                          else linear_call ys (bar1Value d + bar2Value d)%Q))
                      (Fin bar2OffsetY) |}) rows)
  else ([], []).

Definition renderLabels : method := fun st =>
  match config st, xScale st, scale_at st (yScaleLeft st), deref st (data st) with
  | Some cfg, Some xs, Some ys, Some rows =>
      let l := drawLabels cfg xs ys (height st) rows in
      Done (with_drawing
              {| bars1 := bars1 (drawing st); bars2 := bars2 (drawing st);
                 barLabels1 := fst l; barLabels2 := snd l |} st)
  | _, _, _, _ => Thrown "TypeError" st
  end.

(** **** [renderLegend]: the part that writes to the object.  A change of
    position since the previous render registers a callback 50 ms later. *)
Definition with_legend (position : string) (ts : list Timer)
    (st : ComboChart) : ComboChart :=
  {| margin := margin st; width := width st; height := height st;
     xScale := xScale st; yScaleLeft := yScaleLeft st;
     yScaleRight := yScaleRight st;
     data := data st; originalData := originalData st;
     fieldNames := fieldNames st; config := config st;
     isFirstRender := isFirstRender st;
     _lastLegendPosition := Some position;
     arrays := arrays st; scales := scales st;
     timers := ts;
     drawing := drawing st |}.

(** [prevPosition && prevPosition !== position] *)
Definition position_changed (prevPosition : option string) (position : string) : bool :=
  match prevPosition with
  | Some prev => negb (String.eqb prev "") && negb (String.eqb prev position)
  | None => false
  end.

Definition renderLegend : method := fun st =>
  match config st with
  | None => Thrown "TypeError" st
  | Some cfg =>
      if negb (legend_show (legend cfg)) then Done st
      else
        let position := str_or (legend_position (legend cfg)) "bottom" in
        Done (with_legend position
                (if position_changed (_lastLegendPosition st) position
                 then timers st ++ [{| timer_delay := 50; timer_position := position |}]
                 else timers st)
                st)
  end.

(** **** [render] *)

  (** The first statements of [render]: the arguments are stored; the
    original data is replaced only when the array passed is not the cached
    one. *)
Definition stored (d : ref) (fn : option FieldNames) (cfg : option Config)
    (st : ComboChart) : ComboChart :=
  {| margin := margin st; width := width st; height := height st;
     xScale := xScale st; yScaleLeft := yScaleLeft st;
     yScaleRight := yScaleRight st;
     data := d;
     originalData := if negb (ref_eqb d (data st)) then d else originalData st;
     fieldNames := fn; config := cfg;
     isFirstRender := isFirstRender st;
     _lastLegendPosition := _lastLegendPosition st;
     arrays := arrays st; scales := scales st; timers := timers st;
     drawing := drawing st |}.

Definition store_arguments (d : ref) (fn : option FieldNames)
    (cfg : option Config) : method := fun st => Done (stored d fn cfg st).

Definition set_isFirstRender (b : bool) (st : ComboChart) : ComboChart :=
    {| margin := margin st; width := width st; height := height st;
       xScale := xScale st; yScaleLeft := yScaleLeft st;
       yScaleRight := yScaleRight st;
       data := data st; originalData := originalData st;
       fieldNames := fieldNames st; config := config st;
       isFirstRender := b;
       _lastLegendPosition := _lastLegendPosition st;
       arrays := arrays st; scales := scales st; timers := timers st;
       drawing := drawing st |}.

  (** [if (config.forceAnimationPreview) this.isFirstRender = true;] reads a
      property of the argument [config]. *)
Definition check_preview (cfg : option Config) : method := fun st =>
    match cfg with
    | None => Thrown "TypeError" st
    | Some c =>
        Done (if forceAnimationPreview c then set_isFirstRender true st else st)
    end.

  (** [render(data, fieldNames, config)]; an argument left out is
      [undefined].  [applyFontSettings], [renderGrid], [renderAxes],
      [renderLine], [updateTitle] and [applySeparators] write to the page
      only and are left out. *)
Definition render (d : ref) (fn : option FieldNames) (cfg : option Config)
      (rect : Q * Q) : method :=
    store_arguments d fn cfg >>>
    check_preview cfg >>>
    updateDimensions rect >>>
    createScales >>>
    renderBars >>>
    renderLabels >>>
    renderLegend >>>
    (fun st => Done (set_isFirstRender false st)).

  (** The caller builds a new array of rows and hands it to [render]. *)
Definition new_array (rows : list Row) (st : ComboChart) : ComboChart :=
  {| margin := margin st; width := width st; height := height st;
     xScale := xScale st; yScaleLeft := yScaleLeft st;
     yScaleRight := yScaleRight st;
     data := data st; originalData := originalData st;
     fieldNames := fieldNames st; config := config st;
     isFirstRender := isFirstRender st;
     _lastLegendPosition := _lastLegendPosition st;
     arrays := arrays st ++ [rows]; scales := scales st;
     timers := timers st; drawing := drawing st |}.

Definition render_rows (rows : list Row) (fn : FieldNames) (cfg : Config)
    (rect : Q * Q) : method := fun st =>
  render (RAddr (length (arrays st))) (Some fn) (Some cfg) rect
    (new_array rows st).

(** The callback of the resize observer:
      [if (this.data) this.render(this.data, this.fieldNames, this.config)]. *)
Definition on_resize (rect : Q * Q) : method := fun st =>
    match data st with
    | RAddr _ => render (data st) (fieldNames st) (config st) rect st
    | _ => Done st
    end.

  (** The callback registered by [renderLegend]:
      [if (this._lastLegendPosition === position) this.render()]. *)
Definition legend_callback (t : Timer) (rect : Q * Q) : method := fun st =>
    if bool_decide (_lastLegendPosition st = Some (timer_position t))
    then render RUndef None None rect st
    else Done st.

  (** A burst of resize callbacks, one per container rectangle. *)
Fixpoint on_resizes (rects : list (Q * Q)) : method :=
  match rects with
  | [] => fun st => Done st
  | rect :: rects' => on_resize rect >>> on_resizes rects'
  end.

(** The dimension order on the x axis after a render. *)
Definition dimension_order (st : ComboChart) : option (list string) :=
    map dimension <$> deref st (data st).

End Methods.

End Chart.

(** ** Instances used to run the model on examples *)

Module Samples.

Import Chart.

(** A [Date] parser of an engine set to UTC, on the handful of strings the
    examples use; anything else is an invalid date.  The ISO form
    [YYYY-MM-DD] is read as midnight UTC; this engine does not accept
    ["Jan 2024"], so that [parseDate] takes its second route. *)
Definition utcDateParse (s : string) : option Z :=
  if String.eqb s "1960-01-01" then Some (-315619200000)%Z
  else if String.eqb s "1965-05-05" then Some (-147052800000)%Z
  else if String.eqb s "2024-03-15" then Some 1710460800000%Z
  else if String.eqb s "Jan 1, 2024" then Some 1704067200000%Z
  else if String.eqb s "Feb 1, 2024" then Some 1706745600000%Z
  else if String.eqb s "Mar 1, 2024" then Some 1709251200000%Z
  else None.

(** Comparison of strings by code units. *)
Definition codeUnitCompare (a b : string) : Z :=
  match String_as_OT.cmp a b with
  | Lt => (-1)%Z
  | Eq => 0%Z
  | Gt => 1%Z
  end.

#[export] Instance utcEngine : Engine :=
  {| dateParse := utcDateParse; localeCompare := codeUnitCompare |}.

(** Position of a key in the domain of a band scale. *)
Fixpoint index_of (k : string) (l : list string) : option nat :=
  match l with
  | [] => None
  | x :: l' => if String.eqb x k then Some 0%nat else S <$> index_of k l'
  end.

Definition bandStep (xs : BandScale) : Q :=
  let n := inject_Z (Z.of_nat (length (remove_dups (band_domain xs)))) in
  let p := Qmin 1 (band_padding xs) in
  ((snd (band_range xs) - fst (band_range xs)) / Qmax 1 (n - p + p * 2))%Q.

Definition bandStart (xs : BandScale) : Q :=
  let n := inject_Z (Z.of_nat (length (remove_dups (band_domain xs)))) in
  let p := Qmin 1 (band_padding xs) in
  (fst (band_range xs)
   + (snd (band_range xs) - fst (band_range xs) - bandStep xs * (n - p)) * (1 # 2))%Q.

(** The formulas of d3's continuous linear scale and of its band scale,
    with [nice()] leaving the domain as it is. *)
#[export] Instance plainD3 : D3 := {|
  linear_call s v :=
    match domain s with
    | (Fin d0, Fin d1) =>
        let t := if Qeq_bool d1 d0 then (1 # 2)%Q else ((v - d0) / (d1 - d0))%Q in
        Fin (fst (range s) * (1 - t) + snd (range s) * t)%Q
    | _ => NaN
    end;
  bandwidth xs := (bandStep xs * (1 - Qmin 1 (band_padding xs)))%Q;
  band_call xs k :=
    match index_of k (remove_dups (band_domain xs)) with
    | Some i => Fin (bandStart xs + bandStep xs * inject_Z (Z.of_nat i))%Q
    | None => NaN
    end
|}.

Definition sampleFieldNames : FieldNames :=
  {| fn_dimension := "Month"; fn_bar1 := "SUM(Sales)";
     fn_bar2 := "SUM(Cost)"; fn_line := "AVG(Margin)" |}.

(** [Config.defaults], as far as the engine model reads it. *)
Definition defaultYAxis : YAxisConfig :=
  {| y_showTitle := true; y_includeZero := None; y_min := None; y_max := None |}.

Definition defaultConfig : Config := {|
  barStyle := "grouped"; barPadding := 2 # 10;
  barGap := None; barWidth := None;
  axisMode := "dual"; syncDualAxis := false;
  title := {| title_show := true |};
  xAxis := {| x_rotation := 0; x_showTitle := true; x_title := "";
              x_sort := "default" |};
  yAxisLeft := defaultYAxis; yAxisRight := defaultYAxis;
  line := {| verticalPosition := None |};
  animation := Some {| anim_enabled := true; anim_duration := 500 |};
  forceAnimationPreview := false;
  barLabels := {| bl_show := false; bl_position := "top";
                  bl_offsetX := 0; bl_offsetY := 0 |};
  barLabelFont := Some {| lf_offsetX := None; lf_offsetY := None |};
  bar1LabelFont := Some {| lf_offsetX := None; lf_offsetY := None |};
  bar2LabelFont := Some {| lf_offsetX := None; lf_offsetY := None |};
  legend := {| legend_show := true; legend_position := "bottom" |}
|}.

Definition with_axes (mode : string) (sync : bool) (l r : YAxisConfig)
    (cfg : Config) : Config :=
  {| barStyle := barStyle cfg; barPadding := barPadding cfg;
     barGap := barGap cfg; barWidth := barWidth cfg;
     axisMode := mode; syncDualAxis := sync;
     title := title cfg; xAxis := xAxis cfg;
     yAxisLeft := l; yAxisRight := r;
     line := line cfg; animation := animation cfg;
     forceAnimationPreview := forceAnimationPreview cfg;
     barLabels := barLabels cfg; barLabelFont := barLabelFont cfg;
     bar1LabelFont := bar1LabelFont cfg; bar2LabelFont := bar2LabelFont cfg;
     legend := legend cfg |}.

Definition with_bars (style : string) (gap w : option Q) (labels : bool)
    (cfg : Config) : Config :=
  {| barStyle := style; barPadding := barPadding cfg;
     barGap := gap; barWidth := w;
     axisMode := axisMode cfg; syncDualAxis := syncDualAxis cfg;
     title := title cfg; xAxis := xAxis cfg;
     yAxisLeft := yAxisLeft cfg; yAxisRight := yAxisRight cfg;
     line := line cfg; animation := animation cfg;
     forceAnimationPreview := forceAnimationPreview cfg;
     barLabels := {| bl_show := labels;
                     bl_position := bl_position (barLabels cfg);
                     bl_offsetX := bl_offsetX (barLabels cfg);
                     bl_offsetY := bl_offsetY (barLabels cfg) |};
     barLabelFont := barLabelFont cfg;
     bar1LabelFont := bar1LabelFont cfg; bar2LabelFont := bar2LabelFont cfg;
     legend := legend cfg |}.

Definition with_sort (order : string) (cfg : Config) : Config :=
  {| barStyle := barStyle cfg; barPadding := barPadding cfg;
     barGap := barGap cfg; barWidth := barWidth cfg;
     axisMode := axisMode cfg; syncDualAxis := syncDualAxis cfg;
     title := title cfg;
     xAxis := {| x_rotation := x_rotation (xAxis cfg);
                 x_showTitle := x_showTitle (xAxis cfg);
                 x_title := x_title (xAxis cfg); x_sort := order |};
     yAxisLeft := yAxisLeft cfg; yAxisRight := yAxisRight cfg;
     line := line cfg; animation := animation cfg;
     forceAnimationPreview := forceAnimationPreview cfg;
     barLabels := barLabels cfg; barLabelFont := barLabelFont cfg;
     bar1LabelFont := bar1LabelFont cfg; bar2LabelFont := bar2LabelFont cfg;
     legend := legend cfg |}.

Definition with_legend_position (pos : string) (cfg : Config) : Config :=
  {| barStyle := barStyle cfg; barPadding := barPadding cfg;
     barGap := barGap cfg; barWidth := barWidth cfg;
     axisMode := axisMode cfg; syncDualAxis := syncDualAxis cfg;
     title := title cfg; xAxis := xAxis cfg;
     yAxisLeft := yAxisLeft cfg; yAxisRight := yAxisRight cfg;
     line := line cfg; animation := animation cfg;
     forceAnimationPreview := forceAnimationPreview cfg;
     barLabels := barLabels cfg; barLabelFont := barLabelFont cfg;
     bar1LabelFont := bar1LabelFont cfg; bar2LabelFont := bar2LabelFont cfg;
     legend := {| legend_show := legend_show (legend cfg);
                  legend_position := pos |} |}.

Definition row (dim : string) (b1 b2 l : Q) : Row :=
  {| dimension := dim; bar1Value := b1; bar2Value := b2; lineValue := l;
     bar1Formatted := ""; bar2Formatted := ""; lineFormatted := "" |}.

(** The rows of the scenario of the specification and a few more. *)
Definition rowsAB : list Row := [row "A" 10 20 5; row "B" 30 5 15].

Definition rows100 : list Row := [row "A" 100 40 50; row "B" 60 80 20].

Definition rowsMonths : list Row :=
  [row "Mar 2024" 3 1 1; row "Jan 2024" 1 1 1; row "Feb 2024" 2 1 1].

Definition rowsOld : list Row :=
  [row "n/a" 1 1 1; row "1965-05-05" 2 1 1; row "1960-01-01" 3 1 1].

(** The object after [render] has stored its arguments, the rows being a
    new array: the state in which [createScales] runs (margins aside). *)
Definition loaded (rows : list Row) (cfg : Config) : ComboChart :=
  stored (RAddr 0) (Some sampleFieldNames) (Some cfg) (new_array rows initial).

Definition sharedConfig : Config :=
  with_axes "shared" false defaultYAxis defaultYAxis defaultConfig.

Definition syncConfig : Config :=
  with_axes "dual" true defaultYAxis defaultYAxis defaultConfig.

Definition stackedConfig : Config :=
  with_bars "stacked" None None false defaultConfig.

(** Grouped bars at 150 % of the automatic width. *)
Definition wideBarsConfig : Config :=
  with_bars "grouped" None (Some 150%Q) false defaultConfig.

(** Grouped bars with [barWidth] 50 and labels shown. *)
Definition labelledConfig : Config :=
  with_bars "grouped" None (Some 50%Q) true defaultConfig.

Definition rightLegendConfig : Config :=
  with_legend_position "right" defaultConfig.

(** Synchronised axes, the left maximum set to 50. *)
Definition syncMax50Config : Config :=
  with_axes "dual" true
    {| y_showTitle := true; y_includeZero := None; y_min := None;
       y_max := Some 50%Q |}
    defaultYAxis defaultConfig.

(** Independent axes with every bound set, the left minimum to 0. *)
Definition boundedConfig : Config :=
  with_axes "dual" false
    {| y_showTitle := true; y_includeZero := None; y_min := Some 0%Q;
       y_max := Some 50%Q |}
    {| y_showTitle := true; y_includeZero := None; y_min := Some 1%Q;
       y_max := Some 20%Q |}
    defaultConfig.

End Samples.

(** ** Notions used to state the properties *)

Module Notions.

Import DimSort.

(** An engine reads the first day of a month of 2024 from ["Mon 2024"], or
    rejects that and reads it from ["Mon 1, 2024"]. *)
Definition month_first (dateParse : string -> option Z) (m : string) (t : Z) : Prop :=
  dateParse (m +:+ " 2024") = Some t \/
  (dateParse (m +:+ " 2024") = None /\ dateParse (m +:+ " 1, 2024") = Some t).

(** A string that is empty or starts outside the class [p]. *)
Definition stops (p : ascii -> bool) (s : string) : Prop :=
  match s with
  | EmptyString => True
  | String c _ => p c = false
  end.

(** The shape matched by [/^(\w+)\s+(\d{4})$/]. *)
Definition month_year_shape (s m y : string) : Prop :=
  exists ws,
    s = m +:+ ws +:+ y /\
    m <> "" /\ all_chars is_word m = true /\
    ws <> "" /\ all_chars is_space ws = true /\
    String.length y = 4%nat /\ all_chars is_digit y = true.

(** Rows that failed to parse come before all the rows that parsed. *)
Definition unparseable_first (dateParse : string -> option Z) (out : list Row) : Prop :=
  forall i j a b,
    out !! i = Some a -> out !! j = Some b ->
    parseDate dateParse (dimension a) = None ->
    is_Some (parseDate dateParse (dimension b)) ->
    (i < j)%nat.

(** The references of the object point into the store. *)
Definition ref_valid (st : Chart.ComboChart) (r : Chart.ref) : Prop :=
  match r with
  | Chart.RAddr a => (a < length (Chart.arrays st))%nat
  | _ => True
  end.

Definition wf_state (st : Chart.ComboChart) : Prop :=
  ref_valid st (Chart.data st) /\ ref_valid st (Chart.originalData st).

(** What is assumed of the library: a linear scale whose domain was given
    as two numbers maps numbers to numbers. *)
Class D3Laws (d3 : Chart.D3) : Prop := {
  linear_call_finite :
    forall s v a b, Chart.domain s = (Fin a, Fin b) ->
                    exists y, Chart.linear_call s v = Fin y
}.

(** What a completed [render] leaves in the object: [st] is the object
    before the call, [d], [fn] and [cfg] the arguments, [source] the rows of
    the array [createScales] sorts, [st'] the object after the call. *)
Definition sortedData {engine : Chart.Engine} (cfg : Chart.Config)
    (source : list Row) : list Row :=
  DimSort.sortRows Chart.dateParse Chart.localeCompare
    (Chart.str_or (Chart.x_sort (Chart.xAxis cfg)) "default") source.

Definition animation_enabled (cfg : Chart.Config) : bool :=
  Chart.anim_enabled
    (default {| Chart.anim_enabled := true; Chart.anim_duration := 500 |}
       (Chart.animation cfg)).

Definition legendPosition (cfg : Chart.Config) : string :=
  Chart.str_or (Chart.legend_position (Chart.legend cfg)) "bottom".

Record rendered {d3 : Chart.D3} {engine : Chart.Engine}
    (st : Chart.ComboChart) (d : Chart.ref) (fn : option Chart.FieldNames)
    (cfg : Chart.Config) (source : list Row) (st' : Chart.ComboChart) : Prop := {
  rendered_arrays :
    Chart.arrays st' = Chart.arrays st ++ [sortedData cfg source];
  rendered_data : Chart.data st' = Chart.RAddr (length (Chart.arrays st));
  rendered_original :
    Chart.originalData st' =
    if negb (Chart.ref_eqb d (Chart.data st)) then d else Chart.originalData st;
  rendered_config : Chart.config st' = Some cfg;
  rendered_fieldNames : Chart.fieldNames st' = fn;
  rendered_xScale :
    Chart.xScale st' =
    Some {| Chart.band_domain := map dimension (sortedData cfg source);
            Chart.band_range := (0%Q, Chart.width st');
            Chart.band_padding := Chart.barPadding cfg |};
  rendered_left :
    Chart.scale_at st' (Chart.yScaleLeft st') =
    Some (Chart.leftScale cfg (sortedData cfg source) (Chart.height st'));
  rendered_bars :
    forall xs ys, Chart.xScale st' = Some xs ->
      Chart.scale_at st' (Chart.yScaleLeft st') = Some ys ->
      (Chart.bars1 (Chart.drawing st'), Chart.bars2 (Chart.drawing st')) =
      Chart.drawBars cfg (animation_enabled cfg) xs ys (Chart.height st')
        (sortedData cfg source);
  rendered_labels :
    forall xs ys, Chart.xScale st' = Some xs ->
      Chart.scale_at st' (Chart.yScaleLeft st') = Some ys ->
      (Chart.barLabels1 (Chart.drawing st'), Chart.barLabels2 (Chart.drawing st')) =
      Chart.drawLabels cfg xs ys (Chart.height st') (sortedData cfg source);
  rendered_legend :
    Chart.legend_show (Chart.legend cfg) = true ->
    Chart._lastLegendPosition st' = Some (legendPosition cfg) /\
    Chart.timers st' =
    if Chart.position_changed (Chart._lastLegendPosition st) (legendPosition cfg)
    then Chart.timers st ++
           [{| Chart.timer_delay := 50;
               Chart.timer_position := legendPosition cfg |}]
    else Chart.timers st
}.

(** The state between renders: the original rows are still in the store,
    under the reference the object keeps. *)
Definition keeps {engine : Chart.Engine} (rows : list Row) (cfg : Chart.Config)
    (st : Chart.ComboChart) : Prop :=
  exists a0 a,
    Chart.originalData st = Chart.RAddr a0 /\
    Chart.arrays st !! a0 = Some rows /\
    Chart.data st = Chart.RAddr a /\ Chart.config st = Some cfg /\
    Chart.dimension_order st = Some (map dimension (sortedData cfg rows)).

(** The claim that no grouped bar is wider than half the band less the gap. *)
Definition bars_within_half_band {d3 : Chart.D3} (st' : Chart.ComboChart) : Prop :=
  forall cfg xs r,
    Chart.config st' = Some cfg -> Chart.xScale st' = Some xs ->
    r ∈ Chart.bars1 (Chart.drawing st') ->
    (Chart.rect_width r <=
     Chart.autoBarWidth (Chart.bandwidth xs) (default 4%Q (Chart.barGap cfg)))%Q.

(** The claim that a bar label sits at the horizontal centre of its bar. *)
Definition label_centred (r : Chart.Rect) (l : Chart.LabelPos) : Prop :=
  num_eq (Chart.label_x l)
         (nadd (Chart.rect_x r) (Fin (Chart.rect_width r / 2)%Q)).

(** The claim that a configured bound is the bound of the domain on its
    side, whatever the axis mode; in shared mode the right axis is drawn
    from the left scale. *)
Definition configured_bounds_win (cfg : Chart.Config) (rows : list Row) (h : Q) : Prop :=
  let l := Chart.leftScale cfg rows h in
  let r := if String.eqb (Chart.axisMode cfg) "dual"
           then Chart.rightScale cfg rows h else l in
  (forall q, Chart.y_min (Chart.yAxisLeft cfg) = Some q -> fst (Chart.domain l) = Fin q) /\
  (forall q, Chart.y_max (Chart.yAxisLeft cfg) = Some q -> snd (Chart.domain l) = Fin q) /\
  (forall q, Chart.y_min (Chart.yAxisRight cfg) = Some q -> fst (Chart.domain r) = Fin q) /\
  (forall q, Chart.y_max (Chart.yAxisRight cfg) = Some q -> snd (Chart.domain r) = Fin q).

End Notions.

(** * Double arithmetic and [nice()]

    Where a claim turns on the rounding of IEEE doubles, the operation is
    read with its result rounded to the nearest double; the numbers stay
    rationals, every double being one. *)

(** ** Rounding to a double *)

Module Ieee.

(** The [e] with [2^e <= q < 2^(e+1)], for a positive [q]. *)
Definition exponent (q : Q) : Z :=
  let e := (Z.log2 (Qnum q) - Z.log2 (Zpos (Qden q)))%Z in
  if Qle_bool (2 ^ e) q then e else (e - 1)%Z.

(** The nearest integer, the even one of two that are equally near. *)
Definition nearest_even (q : Q) : Z :=
  let f := Qfloor q in
  match (q - inject_Z f ?= 1 # 2)%Q with
  | Lt => f
  | Gt => (f + 1)%Z
  | Eq => if Z.even f then f else (f + 1)%Z
  end.

(** The double nearest to [q], in canonical form: a significand of 53
    bits, ties going to the even significand (the rounding of IEEE 754
    that JavaScript arithmetic uses).  The exponent is not bounded:
    overflow to an infinity and the subnormal numbers are not modelled. *)
Definition round64 (q : Q) : Q :=
  let q := Qred q in
  if Qeq_bool q 0 then 0%Q
  else
    let a := Qabs q in
    let ulp := (2 ^ (exponent a - 52))%Q in
    let m := inject_Z (nearest_even (a / ulp)) in
    Qred (if Qle_bool 0 q then m * ulp else - (m * ulp))%Q.

(** [a * b], [a / b], [a + b] and [a - b] on doubles *)
Definition times (a b : Q) : Q := round64 (a * b).
Definition over (a b : Q) : Q := round64 (a / b).
Definition plus (a b : Q) : Q := round64 (a + b).
Definition minus (a b : Q) : Q := round64 (a - b).

(** A decimal literal of the source is the double nearest to it. *)
Definition literal (q : Q) : Q := round64 q.

(** The same product computed by the Standard Library's specification of
    IEEE 754 arithmetic, for binary64. *)
Definition binary64 (z : Z) : SpecFloat.spec_float :=
  SpecFloat.binary_normalize 53 1024 z 0 false.

Definition rational (x : SpecFloat.spec_float) : option Q :=
  match x with
  | SpecFloat.S754_zero _ => Some 0%Q
  | SpecFloat.S754_finite s m e =>
      Some (Qred ((if s then -1 else 1) * inject_Z (Zpos m) * 2 ^ e))%Q
  | _ => None
  end.

End Ieee.

(** ** [nice()] of d3's linear scale *)

Module D3Nice.

Import Chart Ieee.

(** [Math.sqrt(50)], [Math.sqrt(10)] and [Math.sqrt(2)] *)
Definition e10 : Q := literal (70710678118654755 # 10000000000000000).
Definition e5 : Q := literal (31622776601683795 # 10000000000000000).
Definition e2 : Q := literal (14142135623730951 # 10000000000000000).

(** The number of decimal digits of a positive integer. *)
Fixpoint digits10 (fuel : nat) (n : Z) : Z :=
  match fuel with
  | O => 0%Z
  | S fuel' => if (n <? 10)%Z then 1%Z else (1 + digits10 fuel' (n / 10))%Z
  end.

(** [Math.floor(Math.log10(x))] for a positive [x], the logarithm taken
    as exact: the [p] with [10^p <= x < 10^(p+1)]. *)
Definition floorLog10 (x : Q) : Z :=
  let digits n := digits10 (S (Z.to_nat (Z.log2 n))) n in
  let p := (digits (Qnum x) - digits (Zpos (Qden x)))%Z in
  if Qle_bool (10 ^ p) x then p else (p - 1)%Z.

(** [Math.pow(10, p)], taken as the double nearest to the power *)
Definition pow10 (p : Z) : Q := round64 (10 ^ p).

(** [tickIncrement(start, stop, count)] of d3-array for [start < stop];
    [None] when the step is not positive, where the library computes an
    infinity or [NaN]. *)
Definition tickIncrement (start stop count : Q) : option Q :=
  let step := over (minus stop start) (Qmax 0 count) in
  if Qle_bool step 0 then None
  else
    let power := floorLog10 step in
    let error := over step (pow10 power) in
    let factor :=
      if Qle_bool e10 error then 10%Q
      else if Qle_bool e5 error then 5%Q
      else if Qle_bool e2 error then 2%Q else 1%Q in
    if (0 <=? power)%Z then Some (times factor (pow10 power))
    else Some (- over (pow10 (- power)) factor)%Q.

(** The loop of [scale.nice()], with [count] 10: the bounds are moved
    outward to multiples of the increment until the increment stays the
    same.  [None]: the loop ended without that, and the domain stays as it
    was. *)
Fixpoint niceLoop (maxIter : nat) (start stop : Q) (prestep : option Q)
    : option (Q * Q) :=
  match maxIter with
  | O => None
  | S maxIter' =>
      match tickIncrement start stop 10 with
      | None => None
      | Some step =>
          if match prestep with
             | Some previous => Qeq_bool step previous
             | None => false
             end
          then Some (start, stop)
          else if Qle_bool step 0 then
            niceLoop maxIter'
              (over (inject_Z (Qceiling (times start step))) step)
              (over (inject_Z (Qfloor (times stop step))) step)
              (Some step)
          else
            niceLoop maxIter'
              (times (inject_Z (Qfloor (over start step))) step)
              (times (inject_Z (Qceiling (over stop step))) step)
              (Some step)
      end
  end.

(** The domain of a linear scale after [.nice()], from the domain it had.
    A domain with [NaN] or with equal bounds stays as it is; a descending
    one is treated from its lower end. *)
Definition niceDomain (d : num * num) : num * num :=
  match d with
  | (Fin a, Fin b) =>
      if Qeq_bool a b then d
      else if Qle_bool a b then
        match niceLoop 10 a b None with
        | Some (start, stop) => (Fin start, Fin stop)
        | None => d
        end
      else
        match niceLoop 10 b a None with
        | Some (start, stop) => (Fin stop, Fin start)
        | None => d
        end
  | _ => d
  end.

End D3Nice.

(** ** The synchronised axes in double arithmetic

    The sync branch of [createScales] once more, every product and sum
    rounded to a double and [nice()] applied; the row values and the
    configured bounds are doubles.  The names carry a [64]. *)

Module SyncDoubles.

Import Chart Ieee D3Nice.

(** [a * b] on numbers *)
Definition ntimes : num -> num -> num := num_lift2 times.

(** [barMax] of [createScales]; the sum of a stack is rounded. *)
Definition barMax64 (cfg : Config) (rows : list Row) : num :=
  if String.eqb (barStyle cfg) "stacked"
  then d3_max (map (fun d => plus (bar1Value d) (bar2Value d)) rows)
  else d3_max (map (fun d => Qmax (bar1Value d) (bar2Value d)) rows).

(** [axis.includeZero !== false ? 0 : m * 0.9] *)
Definition autoMin64 (axis : YAxisConfig) (m : num) : num :=
  if not_false (y_includeZero axis) then Fin 0
  else ntimes m (Fin (literal (9 # 10))).

(** [Math.max(barMax, lineMax) * 1.1] *)
Definition combinedMax64 (cfg : Config) (rows : list Row) : num :=
  ntimes (nmax (barMax64 cfg rows) (lineMax rows)) (Fin (literal (11 # 10))).

Definition syncMin64 (cfg : Config) (rows : list Row) : num :=
  nmin (or_auto (y_min (yAxisLeft cfg))
          (autoMin64 (yAxisLeft cfg) (barMin rows)))
       (or_auto (y_min (yAxisRight cfg))
          (autoMin64 (yAxisRight cfg) (lineMin rows))).

Definition syncMax64 (cfg : Config) (rows : list Row) : num :=
  nmax (or_auto (y_max (yAxisLeft cfg)) (combinedMax64 cfg rows))
       (or_auto (y_max (yAxisRight cfg)) (combinedMax64 cfg rows)).

(** The pair that the sync branch hands to [.domain()] of both scales. *)
Definition handed (cfg : Config) (rows : list Row) : num * num :=
  (syncMin64 cfg rows, syncMax64 cfg rows).

(** The domain of [yScaleLeft] and of [yScaleRight] when the sync branch
    is done: both are handed the same pair and both are rounded by
    [.nice()]. *)
Definition syncDomain (cfg : Config) (rows : list Row) : num * num :=
  niceDomain (handed cfg rows).

End SyncDoubles.

(** * Further parts of the extension

    Around the rendering core: the line and its labels, the display names
    and the tooltip ([src/js/comboChart.js]); [Config.set], [Config.get],
    [Config.isValid], [ensureFontObjects] and [darkenColor] of the
    configuration module; the field detection and [parseNumber] of the data
    adapter, [validate] and [swapBars] of the dialog
    ([src/js/dataHandler.js]); [debounce] ([src/js/main.js]). *)

(** ** The line and its labels *)

Module LineMark.

Import Chart.

(** [renderLine] and [renderLabels]:
    [axisMode === 'dual' ? this.yScaleRight : this.yScaleLeft] *)
Definition lineScale (cfg : Config) (st : ComboChart) : option LinearScale :=
  if String.eqb (axisMode cfg) "dual" then scale_at st (yScaleRight st)
  else scale_at st (yScaleLeft st).

Record Point := { point_x : num; point_y : num }.

(** [this.config.lineLabels], as far as [renderLabels] places the labels
    with it; an offset left out is [None]. *)
Record LineLabelsConfig := {
  ll_show : bool;
  ll_position : string;
  ll_offsetX : option Q;
  ll_offsetY : option Q
}.

Section Marks.

Context {d3 : D3}.

(** The point of a row on the line: the [x] and [y] accessors of the line
    generator, which are also the translation of the point marker. *)
Definition linePoint (xs : BandScale) (yScale : LinearScale) (d : Row) : Point :=
  {| point_x := nadd (band_call xs (dimension d)) (Fin (bandwidth xs / 2)%Q);
     point_y := linear_call yScale (lineValue d) |}.

(** The [x] and [y] attributes of a line label. *)
Definition lineLabel (ll : LineLabelsConfig) (xs : BandScale)
    (yScaleLine : LinearScale) (d : Row) : LabelPos :=
  let lineOffsetX := q_or (ll_offsetX ll) 0 in
  let lineOffsetY := q_or (ll_offsetY ll) 0 in
  let position := str_or (ll_position ll) "top" in
  let xCenter := nadd (band_call xs (dimension d)) (Fin (bandwidth xs / 2)%Q) in
  let yCenter := linear_call yScaleLine (lineValue d) in
  {| label_x :=
       nadd (if String.eqb position "left" then nsub xCenter (Fin 10)
             else if String.eqb position "right" then nadd xCenter (Fin 10)
             else xCenter)
            (Fin lineOffsetX);
     label_y :=
       nadd (if String.eqb position "top" then nsub yCenter (Fin 10)
             else if String.eqb position "bottom" then nadd yCenter (Fin 18)
             else nadd yCenter (Fin 4))
            (Fin lineOffsetY) |}.

(** The points [renderLine] puts the line through, [None] when it throws
    for want of a configuration, a scale or the data. *)
Definition drawLine (st : ComboChart) : option (list Point) :=
  cfg ← config st; xs ← xScale st; yScale ← lineScale cfg st;
  rows ← deref st (data st);
  Some (map (linePoint xs yScale) rows).

(** The line labels [renderLabels] draws. *)
Definition drawLineLabels (ll : LineLabelsConfig) (st : ComboChart)
    : option (list LabelPos) :=
  cfg ← config st; xs ← xScale st; yScaleLine ← lineScale cfg st;
  rows ← deref st (data st);
  Some (if ll_show ll then map (lineLabel ll xs yScaleLine) rows else []).

End Marks.

(** The shift of a line label against its point, offsets aside. *)
Definition labelShift (position : string) : Q * Q :=
  (if String.eqb position "left" then (-10)%Q
   else if String.eqb position "right" then 10%Q else 0%Q,
   if String.eqb position "top" then (-10)%Q
   else if String.eqb position "bottom" then 18%Q else 4%Q).

End LineMark.

(** ** Display names and the tooltip *)

Module Naming.

Import DimSort.

(** Upper case of an ASCII letter; other code units are left alone, as the
    case-insensitive match of a pattern of ASCII letters leaves them. *)
Definition upper (c : ascii) : ascii :=
  let n := nat_of_ascii c in
  if (97 <=? n)%nat && (n <=? 122)%nat then ascii_of_nat (n - 32) else c.

Fixpoint upper_string (s : string) : string :=
  match s with
  | EmptyString => EmptyString
  | String c s' => String (upper c) (upper_string s')
  end.

(** The rest of [s] after the prefix [p], letter case ignored; [p] is in
    upper case. *)
Fixpoint ci_prefix (p s : string) : option string :=
  match p, s with
  | EmptyString, _ => Some s
  | String a p', String c s' =>
      if Ascii.eqb (upper c) a then ci_prefix p' s' else None
  | String _ _, EmptyString => None
  end.

(** The string without its last code unit, and that code unit. *)
Fixpoint unsnoc (s : string) : option (string * ascii) :=
  match s with
  | EmptyString => None
  | String c EmptyString => Some (EmptyString, c)
  | String c s' =>
      match unsnoc s' with
      | Some (r, z) => Some (String c r, z)
      | None => None
      end
  end.

(** [.] of a regular expression matches all but the line terminators. *)
Definition is_dot (c : ascii) : bool :=
  let n := nat_of_ascii c in negb ((n =? 10)%nat || (n =? 13)%nat).

Definition aggregates : list string :=
  ["SUM"; "AVG"; "MIN"; "MAX"; "COUNT"; "AGG"; "MEDIAN"; "STDEV"; "VAR"].

(** The second group of [/^(NAME)\((.+)\)$/i] on [s], for one name. *)
Definition match_call (name s : string) : option string :=
  match ci_prefix name s with
  | Some (String "(" rest) =>
      match unsnoc rest with
      | Some (inner, ")"%char) =>
          if negb (String.eqb inner "") && all_chars is_dot inner
          then Some inner else None
      | _ => None
      end
  | _ => None
  end.

(** [s.replace(/^(SUM|AVG|...)\((.+)\)$/i, '$2')]: the alternatives are
    tried in order. *)
Fixpoint replace_call (names : list string) (s : string) : string :=
  match names with
  | [] => s
  | name :: names' =>
      match match_call name s with
      | Some inner => inner
      | None => replace_call names' s
      end
  end.

Fixpoint trimStart (s : string) : string :=
  match s with
  | String c s' => if is_space c then trimStart s' else s
  | EmptyString => EmptyString
  end.

Fixpoint trimEnd (s : string) : string :=
  match s with
  | EmptyString => EmptyString
  | String c s' =>
      match trimEnd s' with
      | EmptyString => if is_space c then EmptyString else String c EmptyString
      | r => String c r
      end
  end.

(** [s.trim()] *)
Definition trim (s : string) : string := trimEnd (trimStart s).

(** The custom labels of [config.legend]; one left out or empty is [""]. *)
Record LegendLabels := {
  bar1Label : string;
  bar2Label : string;
  lineLabel : string
}.

(** [getDisplayName(type)]; a field name that is missing is [""]. *)
Definition getDisplayName (legend : LegendLabels)
    (fieldNames : option Chart.FieldNames) (type : string) : string :=
  let fieldName :=
    if String.eqb type "bar1" then from_option Chart.fn_bar1 "" fieldNames
    else if String.eqb type "bar2" then from_option Chart.fn_bar2 "" fieldNames
    else from_option Chart.fn_line "" fieldNames in
  let customLabel :=
    if String.eqb type "bar1" then bar1Label legend
    else if String.eqb type "bar2" then bar2Label legend
    else lineLabel legend in
  if negb (String.eqb customLabel "") then customLabel
  else if String.eqb fieldName "" then "Unknown"
  else trim (replace_call aggregates fieldName).

End Naming.

Module Tooltip.

(** [moveTooltip]: the left and top of the tooltip for a pointer at
    [(clientX, clientY)], a tooltip of size [(w, h)] and a window of inner
    size [(innerWidth, innerHeight)]. *)
Definition moveTooltip (clientX clientY w h innerWidth innerHeight : Q) : Q * Q :=
  let left := (clientX + 15)%Q in
  let top := (clientY - 10)%Q in
  (if Qgtb (left + w) innerWidth then (clientX - w - 15)%Q else left,
   if Qgtb (top + h) innerHeight then (clientY - h - 10)%Q else top).

End Tooltip.

(** ** The configuration object: paths, validity, colours and fonts *)

Module Settings.

Import DimSort ConfigTree.

(** [path.split('.')] *)
Fixpoint split_dots (path : string) : list string :=
  match path with
  | EmptyString => [EmptyString]
  | String c path' =>
      if Ascii.eqb c "."%char then EmptyString :: split_dots path'
      else match split_dots path' with
           | key :: keys => String c key :: keys
           | [] => [String c EmptyString]
           end
  end.

(** [keys.join('.')] *)
Fixpoint join_dots (keys : list string) : string :=
  match keys with
  | [] => EmptyString
  | [key] => key
  | key :: keys' => key +:+ String "."%char (join_dots keys')
  end.

Fixpoint digits_to_nat (s : string) (acc : nat) : nat :=
  match s with
  | EmptyString => acc
  | String c s' => digits_to_nat s' (10 * acc + (nat_of_ascii c - 48))
  end.

(** The array index a property key denotes, if it is one: decimal digits
    with no leading zero. *)
Definition index_of_key (key : string) : option nat :=
  match key with
  | EmptyString => None
  | String c rest =>
      if all_chars is_digit key
         && (negb (Ascii.eqb c "0"%char) || String.eqb rest EmptyString)
      then Some (digits_to_nat key 0)
      else None
  end.

Definition of_nat (n : nat) : jsval := VNum (inject_Z (Z.of_nat n)).

(** [obj[key]] for a value that is neither [undefined] nor [null]: an own
    property of an object, the length or an element of a string or an
    array, and [undefined] otherwise.  Inherited properties (methods) are
    not modelled. *)
Definition own_property (obj : jsval) (key : string) : jsval :=
  match obj with
  | VObj m => default VUndef (m !! key)
  | VStr s =>
      if String.eqb key "length" then of_nat (String.length s)
      else match index_of_key key with
           | Some i => match String.get i s with
                       | Some c => VStr (String c EmptyString)
                       | None => VUndef
                       end
           | None => VUndef
           end
  | VArr l =>
      if String.eqb key "length" then of_nat (length l)
      else match index_of_key key with
           | Some i => default VUndef (l !! i)
           | None => VUndef
           end
  | _ => VUndef
  end.

(** [obj[key]]; reading a property of [undefined] or [null] raises a
    [TypeError], which is [None]. *)
Definition read (obj : jsval) (key : string) : option jsval :=
  match obj with
  | VUndef | VNull => None
  | _ => Some (own_property obj key)
  end.

(** [obj[key] = value] outside strict mode: on an object the property is
    set; on a number, a boolean or a string nothing happens; on [undefined]
    and [null] a [TypeError] is raised.  [None] stands for the [TypeError]
    and for an array taking a property, which is not modelled. *)
Definition assign (obj : jsval) (key : string) (value : jsval) : option jsval :=
  match obj with
  | VObj m => Some (VObj (<[key := value]> m))
  | VUndef | VNull | VArr _ => None
  | _ => Some obj
  end.

(** The loop of [Config.get] over the keys. *)
Fixpoint get_keys (obj : jsval) (keys : list string) : jsval :=
  match keys with
  | [] => obj
  | key :: keys' =>
      match obj with
      | VUndef | VNull => VUndef
      | _ => get_keys (own_property obj key) keys'
      end
  end.

(** [Config.get(path)], with [current] for [this.current]. *)
Definition get (current : jsval) (path : string) : jsval :=
  get_keys current (split_dots path).

(** [Config.set]: the walk from [obj] along the keys and the final
    assignment; the result is [obj] after the call.  A value that is an
    object is shared with its parent, so what the walk does to it shows in
    the parent; a scalar is copied. *)
Fixpoint set_keys (obj : jsval) (keys : list string) (value : jsval)
    : option jsval :=
  match keys with
  | [] => Some obj
  | [key] => assign obj key value
  | key :: keys' =>
      child0 ← read obj key;
      obj1 ← (if truthy child0 then Some obj else assign obj key (VObj ∅));
      child ← read obj1 key;
      child' ← set_keys child keys' value;
      match child with
      | VObj _ => assign obj1 key child'
      | _ => Some obj1
      end
  end.

(** [Config.set(path, value)]: [this.current] after the call. *)
Definition set (current : jsval) (path : string) (value : jsval) : option jsval :=
  set_keys current (split_dots path) value.

(** [Config.isValid()]; [None] when [this.current] is [null]. *)
Definition isValid (current : jsval) : option bool :=
  dimension ← read current "dimension";
  bar1Measure ← read current "bar1Measure";
  bar2Measure ← read current "bar2Measure";
  lineMeasure ← read current "lineMeasure";
  Some (truthy dimension && truthy bar1Measure
        && truthy bar2Measure && truthy lineMeasure).

(** [validate()] of the dialog: the messages for the fields not chosen. *)
Definition validate (config : jsval) : option (list string) :=
  dimension ← read config "dimension";
  bar1Measure ← read config "bar1Measure";
  bar2Measure ← read config "bar2Measure";
  lineMeasure ← read config "lineMeasure";
  Some ((if truthy dimension then [] else ["Please select a dimension"])
        ++ (if truthy bar1Measure then [] else ["Please select Bar 1 measure"])
        ++ (if truthy bar2Measure then [] else ["Please select Bar 2 measure"])
        ++ (if truthy lineMeasure then [] else ["Please select Line measure"])).

End Settings.

Module SettingsNotions.

Import ConfigTree.

(** The walk of [Config.set] along [keys] meets objects only: every key but
    the last is absent, holds [undefined] or [null], or holds an object for
    which the same is true of the remaining keys. *)
Fixpoint passable (obj : jsval) (keys : list string) : Prop :=
  match keys with
  | [] => False
  | [_] => match obj with VObj _ => True | _ => False end
  | key :: keys' =>
      match obj with
      | VObj m =>
          match m !! key with
          | None | Some VUndef | Some VNull => True
          | Some child => passable child keys'
          end
      | _ => False
      end
  end.

(** Numbers, booleans and strings. *)
Definition is_scalar (v : jsval) : bool :=
  match v with
  | VNum _ | VNaN | VBool _ | VStr _ => true
  | _ => false
  end.

Definition is_string (v : jsval) : bool :=
  match v with VStr _ => true | _ => false end.

(** Two lists of keys that part ways: after a common prefix each has a key,
    and the two differ. *)
Definition diverge (p q : list string) : Prop :=
  exists pre a b p' q', p = pre ++ a :: p' /\ q = pre ++ b :: q' /\ a <> b.

End SettingsNotions.

(** ** Font objects and loading *)

Module Fonts.

Import ConfigTree Settings.

(** The own enumerable properties that an object spread [{...x}] copies:
    those of an object, the elements of an array and the code units of a
    string under their indices, none of a number or a boolean. *)
Definition indexed (l : list jsval) : gmap string jsval :=
  list_to_map (imap (fun i x => (pretty i, x)) l).

Fixpoint code_units (s : string) : list jsval :=
  match s with
  | EmptyString => []
  | String c s' => VStr (String c EmptyString) :: code_units s'
  end.

Definition spread (x : jsval) : gmap string jsval :=
  match x with
  | VObj m => m
  | VArr l => indexed l
  | VStr s => indexed (code_units s)
  | _ => ∅
  end.

Definition defaultFont : string :=
  "system-ui, -apple-system, BlinkMacSystemFont, 'Segoe UI', Roboto, sans-serif".

Definition font (size weight : Z) (color : string) : gmap string jsval :=
  list_to_map [
    ("family", VStr defaultFont); ("size", VNum (inject_Z size));
    ("weight", VNum (inject_Z weight)); ("color", VStr color);
    ("italic", VBool false)].

(** [fontDefaults] of [ensureFontObjects] *)
Definition fontDefaults : list (string * gmap string jsval) := [
  ("titleFont", font 18 600 "#333333");
  ("xAxisFont", font 12 400 "#666666");
  ("yAxisFont", font 12 400 "#666666");
  ("legendFont", font 12 400 "#333333");
  ("barLabelFont", font 10 400 "#333333");
  ("bar1LabelFont", font 10 400 "#333333");
  ("bar2LabelFont", font 10 400 "#333333");
  ("lineLabelFont", font 10 400 "#333333");
  ("tooltipFont", font 12 400 "#ffffff")].

(** One round of the loop over [fontDefaults]: [{ ...defaults }] when the
    key holds nothing truthy, [{ ...defaults, ...this.current[key] }]
    otherwise, where the properties spread last win. *)
Definition ensure_font (current : gmap string jsval)
    (entry : string * gmap string jsval) : gmap string jsval :=
  let value := default VUndef (current !! entry.1) in
  if truthy value then <[entry.1 := VObj (spread value ∪ entry.2)]> current
  else <[entry.1 := VObj entry.2]> current.

(** [if (labels[key] === undefined) labels[key] = 0] *)
Definition ensure_offset (key : string) (labels : jsval) : option jsval :=
  match own_property labels key with
  | VUndef => assign labels key (VNum 0)
  | _ => Some labels
  end.

(** The statements of [ensureFontObjects] about [barLabels], and about
    [lineLabels]. *)
Definition ensure_offsets (key : string) (current : gmap string jsval)
    : option (gmap string jsval) :=
  let current1 :=
    if truthy (default VUndef (current !! key)) then current
    else <[key := VObj ∅]> current in
  labels1 ← ensure_offset "offsetX" (default VUndef (current1 !! key));
  labels2 ← ensure_offset "offsetY" labels1;
  Some (<[key := labels2]> current1).

(** [ensureFontObjects()]: [this.current] after the call.  [None] when
    [this.current] is not an object, or [barLabels] or [lineLabels] is an
    array (which would take a property). *)
Definition ensureFontObjects (current : jsval) : option jsval :=
  match current with
  | VObj m =>
      m1 ← ensure_offsets "barLabels" (foldl ensure_font m fontDefaults);
      m2 ← ensure_offsets "lineLabels" m1;
      Some (VObj m2)
  | _ => None
  end.

Definition fontKeys : list string := fontDefaults.*1.

Definition fontProperties : list string :=
  ["family"; "size"; "weight"; "color"; "italic"].

Definition labelKeys : list string := ["barLabels"; "lineLabels"].

(** A string that does not start with a decimal digit. *)
Definition no_index (key : string) : Prop :=
  match key with
  | String c _ => DimSort.is_digit c = false
  | EmptyString => True
  end.

Definition head_digit (s : string) : Prop :=
  match s with
  | String c _ => DimSort.is_digit c = true
  | EmptyString => True
  end.

(** An object in which [key] is given the value 0 unless it holds a value
    other than [undefined]. *)
Definition filled (key : string) (old : gmap string jsval) : gmap string jsval :=
  match old !! key with
  | None | Some VUndef => <[key := VNum 0]> old
  | Some _ => old
  end.

(** What [ensureFontObjects] leaves under [barLabels] or [lineLabels],
    given what was there. *)
Definition labelsAfter (before : option jsval) : jsval :=
  match before with
  | Some (VObj old) => VObj (filled "offsetY" (filled "offsetX" old))
  | Some v => if truthy v then v else VObj (filled "offsetY" (filled "offsetX" ∅))
  | None => VObj (filled "offsetY" (filled "offsetX" ∅))
  end.

End Fonts.

(** ** Colours *)

Module Colour.

Import DimSort.

(** The value of a hexadecimal digit. *)
Definition hex_value (c : ascii) : option Z :=
  let n := Z.of_nat (nat_of_ascii c) in
  if (48 <=? n)%Z && (n <=? 57)%Z then Some (n - 48)%Z
  else if (97 <=? n)%Z && (n <=? 102)%Z then Some (n - 87)%Z
  else if (65 <=? n)%Z && (n <=? 70)%Z then Some (n - 55)%Z
  else None.

(** [s.replace('#', '')]: the first ['#'] is removed. *)
Fixpoint remove_hash (s : string) : string :=
  match s with
  | EmptyString => EmptyString
  | String c s' => if Ascii.eqb c "#"%char then s' else String c (remove_hash s')
  end.

(** The value of the longest run of hexadecimal digits at the start of
    [s], continuing from [acc]; [None] when there is no digit at all. *)
Fixpoint hex_run (s : string) (acc : option Z) : option Z :=
  match s with
  | String c s' =>
      match hex_value c with
      | Some d => hex_run s' (Some (16 * default 0%Z acc + d)%Z)
      | None => acc
      end
  | EmptyString => acc
  end.

Fixpoint skip_space (s : string) : string :=
  match s with
  | String c s' => if is_space c then skip_space s' else s
  | EmptyString => EmptyString
  end.

(** An optional sign at the start. *)
Definition split_sign (s : string) : bool * string :=
  match s with
  | String "-"%char r => (true, r)
  | String "+"%char r => (false, r)
  | _ => (false, s)
  end.

(** An optional [0x] or [0X] at the start. *)
Definition strip_0x (s : string) : string :=
  match s with
  | String "0"%char (String "x"%char r) => r
  | String "0"%char (String "X"%char r) => r
  | _ => s
  end.

(** [parseInt(s, 16)]: white space at the start is skipped, then come an
    optional sign, an optional [0x] or [0X] and the digits; what follows
    them is ignored.  [None] is [NaN].  The value is exact (a [double]
    holds it exactly up to 2^53). *)
Definition parseInt16 (s : string) : option Z :=
  let '(negative, s2) := split_sign (skip_space s) in
  match hex_run (strip_0x s2) None with
  | Some n => Some (if negative then (- n)%Z else n)
  | None => None
  end.

(** [ToInt32], which the bitwise operators apply to their operands;
    [NaN] becomes 0. *)
Definition toInt32 (x : option Z) : Z :=
  match x with
  | None => 0%Z
  | Some n =>
      let m := (n mod 2 ^ 32)%Z in
      if (m <? 2 ^ 31)%Z then m else (m - 2 ^ 32)%Z
  end.

(** [Math.round(2.55 * percent)] for a double [percent]: the product
    rounded to a double, and that to the nearest integer, a half going
    up.  Where the product overflows the amount is infinite in the engine
    and only large here; the colour is black in both. *)
Definition darkenAmount (percent : Q) : Z :=
  Qfloor (Ieee.times (Ieee.literal (255 # 100)) percent + (1 # 2))%Q.

Definition hex_char (d : Z) : ascii :=
  if (d <? 10)%Z then ascii_of_nat (Z.to_nat (d + 48))
  else ascii_of_nat (Z.to_nat (d + 87)).

(** The hexadecimal digits of a positive number in front of [acc]; the
    fuel is an upper bound on their number. *)
Fixpoint to_hex_go (fuel : nat) (n : Z) (acc : string) : string :=
  match fuel with
  | O => acc
  | S fuel' =>
      let acc' := String (hex_char (n mod 16)) acc in
      if (n / 16 =? 0)%Z then acc' else to_hex_go fuel' (n / 16) acc'
  end.

(** [n.toString(16)] for an integer [n] *)
Definition toString16 (n : Z) : string :=
  if (n <? 0)%Z
  then String "-"%char (to_hex_go (S (Z.to_nat (Z.log2 (- n)))) (- n) EmptyString)
  else to_hex_go (S (Z.to_nat (Z.log2 n))) n EmptyString.

(** [s.slice(1)] *)
Definition slice1 (s : string) : string :=
  match s with
  | String _ s' => s'
  | EmptyString => EmptyString
  end.

(** [darkenColor(hex, percent)] of the configuration module and of the
    dialog. *)
Definition darkenColor (hex : string) (percent : Q) : string :=
  let num := parseInt16 (remove_hash hex) in
  let amt := darkenAmount percent in
  let R := Z.max 0 (Z.shiftr (toInt32 num) 16 - amt) in
  let G := Z.max 0 (Z.land (Z.shiftr (toInt32 num) 8) 255 - amt) in
  let B := Z.max 0 (Z.land (toInt32 num) 255 - amt) in
  String "#"%char
    (slice1 (toString16 (16777216 + R * 65536 + G * 256 + B)%Z)).

(** The red, green and blue of a colour written as [#rrggbb]. *)
Definition channels (colour : string) : option (Z * Z * Z) :=
  match colour with
  | String "#"%char
      (String r1 (String r2 (String g1 (String g2
         (String b1 (String b2 EmptyString)))))) =>
      match hex_value r1, hex_value r2, hex_value g1, hex_value g2,
            hex_value b1, hex_value b2 with
      | Some r1, Some r2, Some g1, Some g2, Some b1, Some b2 =>
          Some (16 * r1 + r2, 16 * g1 + g2, 16 * b1 + b2)%Z
      | _, _, _, _, _, _ => None
      end
  | _ => None
  end.

End Colour.

(** ** Field detection of the data adapter *)

Module Detect.

Record Column := { fieldName : string; dataType : string }.

(** Lower case of an ASCII letter.  The names are only searched for ASCII
    patterns, which the lower case of the other code units cannot
    produce. *)
Definition lower (c : ascii) : ascii :=
  let n := nat_of_ascii c in
  if (65 <=? n)%nat && (n <=? 90)%nat then ascii_of_nat (n + 32) else c.

Fixpoint toLowerCase (s : string) : string :=
  match s with
  | EmptyString => EmptyString
  | String c s' => String (lower c) (toLowerCase s')
  end.

Fixpoint starts_with (p s : string) : bool :=
  match p, s with
  | EmptyString, _ => true
  | String a p', String c s' => Ascii.eqb a c && starts_with p' s'
  | String _ _, EmptyString => false
  end.

(** [s.includes(p)] *)
Fixpoint includes (s p : string) : bool :=
  starts_with p s ||
  match s with
  | EmptyString => false
  | String _ s' => includes s' p
  end.

Definition isDateOrString (col : Column) : bool :=
  String.eqb (dataType col) "string" || String.eqb (dataType col) "date" ||
  String.eqb (dataType col) "date-time".

Definition isNumeric (col : Column) : bool :=
  String.eqb (dataType col) "int" || String.eqb (dataType col) "float".

(** The test on the name of a numeric column that makes it the line. *)
Definition namedAsRate (col : Column) : bool :=
  let name := toLowerCase (fieldName col) in
  includes name "%" || includes name "margin" || includes name "ratio" ||
  includes name "rate".

(** The variables that the loop over the columns updates. *)
Record Scan := {
  scan_dim : Z;
  scan_line : Z;
  measureIndices : list Z
}.

(** The body of [columns.forEach((col, idx) => ...)] *)
Definition visit (acc : Scan) (col : Column) (idx : Z) : Scan :=
  if isDateOrString col then
    if (scan_dim acc =? -1)%Z
    then {| scan_dim := idx; scan_line := scan_line acc;
            measureIndices := measureIndices acc |}
    else acc
  else if isNumeric col then
    if namedAsRate col then
      if (scan_line acc =? -1)%Z
      then {| scan_dim := scan_dim acc; scan_line := idx;
              measureIndices := measureIndices acc |}
      else acc
    else {| scan_dim := scan_dim acc; scan_line := scan_line acc;
            measureIndices := measureIndices acc ++ [idx] |}
  else acc.

Fixpoint forEach (idx : Z) (columns : list Column) (acc : Scan) : Scan :=
  match columns with
  | [] => acc
  | col :: rest => forEach (idx + 1) rest (visit acc col idx)
  end.

Record Fields := {
  dimIndex : Z;
  bar1Index : Z;
  bar2Index : Z;
  lineIndex : Z
}.

(** [measureIndices[i]], read only under a test of the length *)
Definition at_index (l : list Z) (i : nat) : Z := default (-1)%Z (l !! i).

(** The field mapping of [getData], for a table that has rows. *)
Definition detectFields (columns : list Column) : Fields :=
  let acc := forEach 0 columns {| scan_dim := -1; scan_line := -1; measureIndices := [] |} in
  let m := measureIndices acc in
  let bar1 := if (1 <=? length m)%nat then at_index m 0 else (-1)%Z in
  let bar2 := if (2 <=? length m)%nat then at_index m 1 else (-1)%Z in
  let line := if (scan_line acc =? -1)%Z && (3 <=? length m)%nat
              then at_index m 2 else scan_line acc in
  let '(line, bar2) :=
    if (line =? -1)%Z && (0 <=? bar2)%Z
    then (bar2, if (3 <=? length m)%nat then at_index m 2 else (-1)%Z)
    else (line, bar2) in
  let dim := if (scan_dim acc =? -1)%Z && (0 <? length columns)%nat
             then 0%Z else scan_dim acc in
  {| dimIndex := dim; bar1Index := bar1; bar2Index := bar2; lineIndex := line |}.

Definition hasAllFields (f : Fields) : bool :=
  (0 <=? dimIndex f)%Z && (0 <=? bar1Index f)%Z && (0 <=? bar2Index f)%Z &&
  (0 <=? lineIndex f)%Z.

End Detect.

Module DetectNotions.

Import Detect.

(** A numeric column whose name does not make it the line. *)
Definition plainMeasure (col : Column) : bool :=
  isNumeric col && negb (namedAsRate col).

Definition rateMeasure (col : Column) : bool :=
  isNumeric col && namedAsRate col.

(** The positions, from [idx] on, of the columns that satisfy [p]. *)
Fixpoint positions (p : Column -> bool) (idx : Z) (columns : list Column) : list Z :=
  match columns with
  | [] => []
  | col :: rest =>
      if p col then idx :: positions p (idx + 1) rest
      else positions p (idx + 1) rest
  end.

(** The column at a position that is not -1. *)
Definition column_at (columns : list Column) (i : Z) : option Column :=
  if (0 <=? i)%Z then columns !! Z.to_nat i else None.

End DetectNotions.

(** ** Numbers of the data adapter *)

Module Cells.

Import DimSort ConfigTree.

(** A cell of the summary data. *)
Record DataValue := { value : jsval; formattedValue : string }.

(** The characters that [replace(/[^0-9.-]/g, '')] leaves. *)
Definition kept (c : ascii) : bool :=
  is_digit c || Ascii.eqb c "."%char || Ascii.eqb c "-"%char.

Fixpoint keep (p : ascii -> bool) (s : string) : string :=
  match s with
  | EmptyString => EmptyString
  | String c s' => if p c then String c (keep p s') else keep p s'
  end.

(** The number that a run of decimal digits writes, after [acc]. *)
Fixpoint decimal_from (acc : Z) (s : string) : Z :=
  match s with
  | EmptyString => acc
  | String c s' => decimal_from (10 * acc + (Z.of_nat (nat_of_ascii c) - 48)) s'
  end.

Definition decimal (s : string) : Z := decimal_from 0 s.

(** The longest prefix that is digits, digits with a point and perhaps
    more digits, or a point and digits; [None] when there is none. *)
Definition unsignedDecimal (s : string) : option Q :=
  let '(whole, rest) := span is_digit s in
  match rest with
  | String "."%char rest' =>
      let '(fraction, _) := span is_digit rest' in
      if String.eqb whole "" && String.eqb fraction "" then None
      else Some (inject_Z (decimal whole)
                 + inject_Z (decimal fraction) / inject_Z (10 ^ Z.of_nat (String.length fraction)))%Q
  | _ => if String.eqb whole "" then None else Some (inject_Z (decimal whole))
  end.

(** [parseFloat] on a text of the characters 0-9, point and minus, where
    the exponent, the plus sign, the white space and [Infinity] of the
    full grammar cannot occur.  The value is exact. *)
Definition parseFloat (s : string) : num :=
  match s with
  | String "-"%char rest =>
      match unsignedDecimal rest with
      | Some q => Fin (- q)
      | None => NaN
      end
  | _ =>
      match unsignedDecimal s with
      | Some q => Fin q
      | None => NaN
      end
  end.

Section WithNumber.

(** [Number(v)] *)
Variable toNumber : jsval -> num.

Definition parseNumber (dataValue : DataValue) : num :=
  match value dataValue with
  | VNull | VUndef =>
      match parseFloat (keep kept (formattedValue dataValue)) with
      | NaN => Fin 0
      | Fin q => Fin q
      end
  | v => toNumber v
  end.

End WithNumber.

End Cells.

Module CellNotions.

Import DimSort.

Definition no_digit (c : ascii) : bool := negb (is_digit c).

(** Neither a point nor a minus. *)
Definition no_mark (c : ascii) : bool :=
  negb (Ascii.eqb c "."%char || Ascii.eqb c "-"%char).

End CellNotions.

(** ** The dialog: swapping the bars *)

Module Dialog.

Import ConfigTree Fonts.

(** How [swapBars] leaves the configuration: changed as intended, or as
    far as it came when a [TypeError] was thrown. *)
Inductive swapResult :=
| Swapped (config : gmap string jsval)
| Threw (config : gmap string jsval).

(** [swapBars] on the configuration of the dialog, without the form and
    the button that it updates afterwards.  The dialog runs in strict
    mode: a legend that is [undefined] or [null] cannot be read, and one
    that is a string, a number or a boolean cannot be written.  A legend
    that is an array would take the labels as named properties, which the
    arrays of this development do not have: [None]. *)
Definition swapBars (config : gmap string jsval) : option swapResult :=
  let tempMeasure := default VUndef (config !! "bar1Measure") in
  let config := <["bar1Measure" := default VUndef (config !! "bar2Measure")]> config in
  let config := <["bar2Measure" := tempMeasure]> config in
  let tempBar1 := VObj (spread (default VUndef (config !! "bar1"))) in
  let config := <["bar1" := VObj (spread (default VUndef (config !! "bar2")))]> config in
  let config := <["bar2" := tempBar1]> config in
  match default VUndef (config !! "legend") with
  | VObj legend =>
      let tempLabel := default VUndef (legend !! "bar1Label") in
      let legend := <["bar1Label" := default VUndef (legend !! "bar2Label")]> legend in
      let legend := <["bar2Label" := tempLabel]> legend in
      Some (Swapped (<["legend" := VObj legend]> config))
  | VArr _ => None
  | _ => Some (Threw config)
  end.

End Dialog.

Module DialogNotions.

(** The keys of the configuration that [swapBars] writes. *)
Definition swappedKeys : list string :=
  ["bar1Measure"; "bar2Measure"; "bar1"; "bar2"; "legend"].

End DialogNotions.

(** ** Debounced listeners *)

Module Debounce.

Section WithFunc.

(** The arguments of one call. *)
Context {A : Type}.

Variable wait : Z.

(** A timer of the runtime: its id, the time from which it can fire, and
    the arguments that its callback [later] holds. *)
Record TimerEntry := { timer_id : nat; due : Z; held : A }.

(** The timers that are set, the next id of the runtime, the variable
    [timeout] of the closure ([None] is [undefined]) and the calls of
    [func] so far, each with its time and arguments. *)
Record State := {
  pending : list TimerEntry;
  next_id : nat;
  timeout : option nat;
  calls : list (Z * A)
}.

Definition start : State :=
  {| pending := []; next_id := 0; timeout := None; calls := [] |}.

Definition clearTimeout (id : option nat) (timers : list TimerEntry)
    : list TimerEntry :=
  match id with
  | Some i => List.filter (fun t => negb (timer_id t =? i)%nat) timers
  | None => timers
  end.

(** [executedFunction(...args)] at the time [now]: the timer of
    [timeout] is cleared and a new one set, [wait] milliseconds ahead (a
    negative delay counts as 0). *)
Definition executedFunction (now : Z) (args : A) (st : State) : State :=
  {| pending := clearTimeout (timeout st) (pending st)
                ++ [{| timer_id := next_id st; due := now + Z.max 0 wait;
                       held := args |}];
     next_id := S (next_id st);
     timeout := Some (next_id st);
     calls := calls st |}.

(** The runtime fires the timer [id] at the time [now]; it does so only
    for a timer that is set and whose time has come.  The timer leaves
    the table and [later] runs: [clearTimeout(timeout); func(...args)]. *)
Definition fire (now : Z) (id : nat) (st : State) : State :=
  match List.find (fun t => (timer_id t =? id)%nat) (pending st) with
  | Some t =>
      if (due t <=? now)%Z then
        {| pending := clearTimeout (timeout st)
                        (List.filter (fun t => negb (timer_id t =? id)%nat) (pending st));
           next_id := next_id st;
           timeout := timeout st;
           calls := calls st ++ [(now, held t)] |}
      else st
  | None => st
  end.

Inductive Event :=
| Invoke (now : Z) (args : A)
| Fire (now : Z) (id : nat).

Definition step (st : State) (ev : Event) : State :=
  match ev with
  | Invoke now args => executedFunction now args st
  | Fire now id => fire now id st
  end.

Definition run (events : list Event) : State := fold_left step events start.

Definition is_fire (ev : Event) : bool :=
  match ev with
  | Fire _ _ => true
  | Invoke _ _ => false
  end.

End WithFunc.

Arguments TimerEntry : clear implicits.
Arguments State : clear implicits.
Arguments Event : clear implicits.

End Debounce.

Module DebounceNotions.

Import Debounce.

(** No timer or one timer is set; the one that is set is the timer of
    [timeout], and it holds the arguments and the time of the latest
    call among the events. *)
Definition settled {A : Type} (wait : Z) (events : list (Event A))
    (st : State A) : Prop :=
  pending st = [] \/
  exists tm before after now,
    pending st = [tm] /\ timeout st = Some (timer_id tm) /\
    events = before ++ Invoke now (held tm) :: after /\
    forallb is_fire after = true /\ due tm = (now + Z.max 0 wait)%Z.

End DebounceNotions.

(** * Properties *)

(** ** Sorting *)

Module SortFacts.

Import DimSort Notions.

Section JsSort.

Context {A : Type} (cmp : A -> A -> Z).

Lemma insert_by_perm x l : insert_by cmp x l ≡ₚ x :: l.
  Proof.
    induction l as [|y l IH]; simpl; [done|].
    destruct (cmp x y <=? 0)%Z; [done|].
    rewrite IH. apply perm_swap.
  Qed.

Lemma js_sort_perm l : js_sort cmp l ≡ₚ l.
  Proof.
    induction l as [|x l IH]; simpl; [done|].
    rewrite insert_by_perm. by rewrite IH.
  Qed.

  (** A comparator that never ranks two elements both ways round and whose
      order is transitive sorts. *)
Hypothesis cmp_total : forall a b, (0 < cmp a b)%Z -> (cmp b a <= 0)%Z.
Hypothesis cmp_trans :
    forall a b c, (cmp a b <= 0)%Z -> (cmp b c <= 0)%Z -> (cmp a c <= 0)%Z.

Lemma insert_by_sorted x l :
    StronglySorted (fun a b => (cmp a b <= 0)%Z) l ->
    StronglySorted (fun a b => (cmp a b <= 0)%Z) (insert_by cmp x l).
  Proof.
    induction 1 as [|y l Hs IH Hy]; simpl.
    - repeat constructor.
    - destruct (Z.leb_spec (cmp x y) 0) as [Hle|Hgt].
      + constructor; [by constructor|].
        constructor; [done|].
        eapply Forall_impl; [exact Hy|]. intros z Hz. by eapply cmp_trans.
      + constructor; [done|].
        rewrite insert_by_perm. constructor; [|done].
        by apply cmp_total.
  Qed.

Lemma js_sort_sorted l :
    StronglySorted (fun a b => (cmp a b <= 0)%Z) (js_sort cmp l).
  Proof.
    induction l as [|x l IH]; simpl; [constructor|].
    by apply insert_by_sorted.
  Qed.

End JsSort.

(** In a sorted list an element at an earlier place is related to each one
    at a later place. *)
Lemma sorted_lookup {A} (R : A -> A -> Prop) (l : list A) i j a b :
  StronglySorted R l -> (i < j)%nat ->
  l !! i = Some a -> l !! j = Some b -> R a b.
Proof.
  intros Hs. revert i j. induction Hs as [|x l Hs IH Hx]; intros i j Hij Hi Hj.
  - by rewrite lookup_nil in Hi.
  - destruct j as [|j]; [lia|]. destruct i as [|i]; simpl in *.
    + injection Hi as <-. rewrite Forall_forall in Hx.
      apply Hx. by eapply list_elem_of_lookup_2.
    + eapply IH; [|done..]. lia.
Qed.

Lemma StronglySorted_weaken {A} (R R' : A -> A -> Prop) l :
  (forall a b, R a b -> R' a b) -> StronglySorted R l -> StronglySorted R' l.
Proof.
  intros HR. induction 1 as [|x l Hs IH Hx]; constructor; [done|].
  eapply Forall_impl; eauto.
Qed.

(** *** The regular expression *)

Lemma space_not_word c : is_space c = true -> is_word c = false.
Proof. destruct c as [[] [] [] [] [] [] [] []]; vm_compute; congruence. Qed.

Lemma digit_not_space c : is_digit c = true -> is_space c = false.
Proof. destruct c as [[] [] [] [] [] [] [] []]; vm_compute; congruence. Qed.

Lemma span_spec p s a b :
  span p s = (a, b) -> s = a +:+ b /\ all_chars p a = true /\ stops p b.
Proof.
  revert a b. induction s as [|c s IH]; intros a b; simpl.
  - intros [= <- <-]. done.
  - destruct (p c) eqn:Hc.
    + destruct (span p s) as [a' b'] eqn:Hs. intros [= <- <-].
      destruct (IH _ _ eq_refl) as (-> & Ha & Hb). simpl. by rewrite Hc, Ha.
    + intros [= <- <-]. simpl. done.
Qed.

Lemma span_app p a b :
  all_chars p a = true -> stops p b -> span p (a +:+ b) = (a, b).
Proof.
  intros Ha Hb. induction a as [|c a IH]; simpl in *.
  - destruct b as [|c b]; simpl in *; [done|]. by rewrite Hb.
  - apply andb_prop in Ha as [-> Ha]. by rewrite IH.
Qed.

Lemma monthYear_spec s m y :
  monthYear s = Some (m, y) <-> month_year_shape s m y.
Proof.
  unfold monthYear, month_year_shape. split.
  - destruct (span is_word s) as [w r1] eqn:Hw.
    apply span_spec in Hw as (-> & Hw & _).
    destruct w as [|c w]; [done|].
    destruct (span is_space r1) as [sp r2] eqn:Hsp.
    apply span_spec in Hsp as (-> & Hsp & _).
    destruct sp as [|c' sp]; [done|].
    destruct (String.length r2 =? 4)%nat eqn:Hlen; simpl; [|done].
    destruct (all_chars is_digit r2) eqn:Hd; [|done].
    intros [= <- <-]. exists (String c' sp).
    apply Nat.eqb_eq in Hlen. done.
  - intros (ws & -> & Hm & Hwm & Hws & Hsp & Hlen & Hd).
    assert (stops is_word (ws +:+ y)) as Hstop1.
    { destruct ws as [|c ws]; [done|]. simpl in *.
      apply andb_prop in Hsp as [Hc _]. by apply space_not_word. }
    assert (stops is_space y) as Hstop2.
    { destruct y as [|c y]; [done|]. simpl in *.
      apply andb_prop in Hd as [Hc _]. by apply digit_not_space. }
    rewrite (span_app _ _ _ Hwm Hstop1).
    destruct m as [|c m]; [done|].
    rewrite (span_app _ _ _ Hsp Hstop2).
    destruct ws as [|c' ws]; [done|].
    by rewrite Hlen, Hd.
Qed.

(** *** Date detection and the two comparators *)

Section DateOrText.

Variable dateParse : string -> option Z.
Variable localeCompare : string -> string -> Z.

Local Abbreviation parseDate := (DimSort.parseDate dateParse).
Local Abbreviation dateKey := (DimSort.dateKey dateParse).
Local Abbreviation sortRows := (DimSort.sortRows dateParse localeCompare).

Lemma parseDate_native s t :
    s <> "" -> dateParse s = Some t -> parseDate s = Some t.
  Proof. intros Hs Ht. unfold DimSort.parseDate. destruct s; [done|]. by rewrite Ht. Qed.

Lemma parseDate_fallback s m y :
    dateParse s = None -> month_year_shape s m y ->
    parseDate s = dateParse (m +:+ " 1, " +:+ y).
  Proof.
    intros Hs Hshape. pose proof Hshape as (ws & -> & Hm & _).
    apply monthYear_spec in Hshape. unfold DimSort.parseDate.
    rewrite Hs, Hshape. destruct m; done.
  Qed.

Lemma parseDate_none s :
    dateParse s = None -> (forall m y, ~ month_year_shape s m y) ->
    parseDate s = None.
  Proof.
    intros Hs Hno. unfold DimSort.parseDate. destruct s; [done|]. rewrite Hs.
    destruct (monthYear _) as [[m y]|] eqn:Hmy; [|done].
    apply monthYear_spec in Hmy. by apply Hno in Hmy.
  Qed.

Lemma sortRows_perm sortOrder rows : sortRows sortOrder rows ≡ₚ rows.
  Proof.
    unfold DimSort.sortRows.
    repeat case_match; auto using js_sort_perm.
    symmetry. apply Permutation_rev.
  Qed.

Lemma sortRows_dates_asc rows :
    isDateData dateParse rows = true ->
    StronglySorted (fun a b => (dateKey a <= dateKey b)%Z) (sortRows "asc" rows).
  Proof.
    intros Hd. unfold DimSort.sortRows. rewrite Hd. simpl.
    eapply StronglySorted_weaken; [|apply js_sort_sorted].
    - intros a b. unfold dateCompare. simpl. lia.
    - intros a b. unfold dateCompare. simpl. lia.
    - intros a b c. unfold dateCompare. simpl. lia.
  Qed.

Lemma sortRows_dates_desc rows :
    isDateData dateParse rows = true ->
    StronglySorted (fun a b => (dateKey b <= dateKey a)%Z) (sortRows "desc" rows).
  Proof.
    intros Hd. unfold DimSort.sortRows. rewrite Hd. simpl.
    eapply StronglySorted_weaken; [|apply js_sort_sorted].
    - intros a b. unfold dateCompare. simpl. lia.
    - intros a b. unfold dateCompare. simpl. lia.
    - intros a b c. unfold dateCompare. simpl. lia.
  Qed.

  (** Ascending, a row that failed to parse comes before every row dated
      after 1 January 1970. *)
Lemma unparseable_before_positive rows i j a b :
    isDateData dateParse rows = true ->
    sortRows "asc" rows !! i = Some a -> sortRows "asc" rows !! j = Some b ->
    parseDate (dimension a) = None -> (0 < dateKey b)%Z -> (i < j)%nat.
  Proof.
    intros Hd Hi Hj Ha Hb.
    assert (dateKey a = 0%Z) as Hka by (unfold DimSort.dateKey; by rewrite Ha).
    destruct (Nat.lt_trichotomy i j) as [?|[->|Hji]]; [done|..].
    - rewrite Hi in Hj. injection Hj as <-. lia.
    - pose proof (sorted_lookup _ _ _ _ _ _ (sortRows_dates_asc rows Hd) Hji Hj Hi).
      simpl in *. lia.
  Qed.

Section Collation.

Hypothesis compare_flip :
      forall a b, (0 < localeCompare a b)%Z <-> (localeCompare b a < 0)%Z.
Hypothesis compare_trans :
      forall a b c, (localeCompare a b <= 0)%Z -> (localeCompare b c <= 0)%Z ->
                    (localeCompare a c <= 0)%Z.

Lemma compare_trans_ge a b c :
      (0 <= localeCompare a b)%Z -> (0 <= localeCompare b c)%Z ->
      (0 <= localeCompare a c)%Z.
    Proof.
      intros Hab Hbc.
      destruct (Z.lt_ge_cases (localeCompare a c) 0) as [Hac|]; [|done].
      apply compare_flip in Hac.
      assert (localeCompare c b <= 0)%Z as Hcb.
      { destruct (Z.le_gt_cases (localeCompare c b) 0) as [|H]; [done|].
        apply compare_flip in H. lia. }
      assert (localeCompare b a <= 0)%Z as Hba.
      { destruct (Z.le_gt_cases (localeCompare b a) 0) as [|H]; [done|].
        apply compare_flip in H. lia. }
      pose proof (compare_trans c b a). lia.
    Qed.

Lemma sortRows_text_asc rows :
      isDateData dateParse rows = false ->
      StronglySorted
        (fun a b => (localeCompare (dimension a) (dimension b) <= 0)%Z)
        (sortRows "asc" rows).
    Proof.
      intros Hd. unfold DimSort.sortRows. rewrite Hd. simpl.
      eapply StronglySorted_weaken; [|apply js_sort_sorted].
      - intros a b H. exact H.
      - intros a b. unfold alphaCompare. simpl. intros H.
        apply compare_flip in H. lia.
      - intros a b c. unfold alphaCompare. simpl. apply compare_trans.
    Qed.

Lemma sortRows_text_desc rows :
      isDateData dateParse rows = false ->
      StronglySorted
        (fun a b => (0 <= localeCompare (dimension a) (dimension b))%Z)
        (sortRows "desc" rows).
    Proof.
      intros Hd. unfold DimSort.sortRows. rewrite Hd. simpl.
      eapply StronglySorted_weaken; [|apply js_sort_sorted].
      - intros a b. unfold alphaCompare. simpl. lia.
      - intros a b. unfold alphaCompare. simpl. intros H.
        assert (localeCompare (dimension a) (dimension b) < 0)%Z as H' by lia.
        apply compare_flip in H'. lia.
      - intros a b c. unfold alphaCompare. simpl. intros H1 H2.
        pose proof (compare_trans_ge (dimension a) (dimension b) (dimension c)).
        lia.
    Qed.

End Collation.

(** *** The three months of the specification *)

Lemma parse_month m t :
  month_first dateParse m t ->
  m <> "" -> monthYear (m +:+ " 2024") = Some (m, "2024") ->
  parseDate (m +:+ " 2024") = Some t.
Proof.
  intros [Ht|[Hnone Ht]] Hm Hmy.
  - apply parseDate_native; [|done]. by destruct m.
  - unfold DimSort.parseDate. rewrite Hnone, Hmy.
    destruct m; [done|]. exact Ht.
Qed.

Lemma months_in_order t1 t2 t3 rows :
  month_first dateParse "Jan" t1 ->
  month_first dateParse "Feb" t2 ->
  month_first dateParse "Mar" t3 ->
  (t1 < t2 < t3)%Z ->
  map dimension rows ≡ₚ ["Jan 2024"; "Feb 2024"; "Mar 2024"] ->
  map dimension (sortRows "asc" rows) = ["Jan 2024"; "Feb 2024"; "Mar 2024"].
Proof.
  intros H1 H2 H3 Ht Hperm.
  apply parse_month in H1; [|done..].
  apply parse_month in H2; [|done..].
  apply parse_month in H3; [|done..].
  change ("Jan" +:+ " 2024") with "Jan 2024" in H1.
  change ("Feb" +:+ " 2024") with "Feb 2024" in H2.
  change ("Mar" +:+ " 2024") with "Mar 2024" in H3.
  pose proof (Permutation_length Hperm) as Hlen. rewrite length_map in Hlen.
  symmetry in Hperm. apply permutations_Permutation in Hperm.
  destruct rows as [|r1 [|r2 [|r3 [|]]]]; try discriminate Hlen.
  simpl in Hperm. set_unfold in Hperm.
  destruct Hperm as [E|[E|[E|[E|[E|[E|[]]]]]]];
    injection E as D1 D2 D3;
    unfold DimSort.sortRows, isDateData, sampleDates, js_sort, dateCompare,
      DimSort.dateKey; simpl; rewrite D1, D2, D3, ?H1, ?H2, ?H3; simpl;
    repeat (match goal with
            | |- context [(?a <=? ?b)%Z] => destruct (Z.leb_spec a b); try lia
            end; simpl; rewrite ?D1, ?D2, ?D3, ?H1, ?H2, ?H3; simpl);
    rewrite ?D1, ?D2, ?D3; try reflexivity.
Qed.

End DateOrText.

(** *** Comparison by code units is a collation *)

Lemma codeUnitCompare_flip a b :
  (0 < Samples.codeUnitCompare a b)%Z <-> (Samples.codeUnitCompare b a < 0)%Z.
Proof.
  unfold Samples.codeUnitCompare. rewrite (String_as_OT.cmp_antisym a b).
  destruct (String_as_OT.cmp b a); simpl; lia.
Qed.

Lemma codeUnitCompare_trans a b c :
  (Samples.codeUnitCompare a b <= 0)%Z -> (Samples.codeUnitCompare b c <= 0)%Z ->
  (Samples.codeUnitCompare a c <= 0)%Z.
Proof.
  unfold Samples.codeUnitCompare.
  destruct (String_as_OT.cmp a b) eqn:Hab; [| |lia];
    destruct (String_as_OT.cmp b c) eqn:Hbc; try lia; intros _ _.
  - apply String_as_OT.cmp_eq in Hab as ->. by rewrite Hbc.
  - apply String_as_OT.cmp_eq in Hab as ->. by rewrite Hbc.
  - apply String_as_OT.cmp_eq in Hbc as <-. by rewrite Hab.
  - apply String_as_OT.cmp_lt in Hab, Hbc.
    pose proof (String_as_OT.lt_trans _ _ _ Hab Hbc) as Hac.
    apply String_as_OT.cmp_lt in Hac. by rewrite Hac.
Qed.

(** C6 (as amended).  For sort order asc or desc the output holds the same
    rows; the first three dimension values are parsed as dates, natively and
    else, for a word, white space and four digits, as the first day of that
    month; with at least two of them parsed the rows are ordered by
    timestamp, an unparseable value counting as 0, so that ascending it
    comes before every row dated after 1 January 1970; otherwise the rows
    are ordered by the locale comparison.  Rows for Jan, Feb and Mar 2024
    come out in that order whatever the input order. *)
Theorem sort_by_date_or_text (dateParse : string -> option Z)
    (localeCompare : string -> string -> Z) (rows : list Row) :
  (forall a b, (0 < localeCompare a b)%Z <-> (localeCompare b a < 0)%Z) ->
  (forall a b c, (localeCompare a b <= 0)%Z -> (localeCompare b c <= 0)%Z ->
                 (localeCompare a c <= 0)%Z) ->
  let parse := parseDate dateParse in
  let key := dateKey dateParse in
  let sort := sortRows dateParse localeCompare in
  (isDateData dateParse rows = true <->
   (2 <= length (filter (fun d => is_Some d)
                   (map (fun r => parse (dimension r)) (take 3 rows))))%nat) /\
  (parse "" = None /\
   (forall s t, s <> "" -> dateParse s = Some t -> parse s = Some t) /\
   (forall s m y, dateParse s = None -> month_year_shape s m y ->
                  parse s = dateParse (m +:+ " 1, " +:+ y)) /\
   (forall s, dateParse s = None -> (forall m y, ~ month_year_shape s m y) ->
              parse s = None)) /\
  (sort "asc" rows ≡ₚ rows /\ sort "desc" rows ≡ₚ rows) /\
  (isDateData dateParse rows = true ->
   StronglySorted (fun a b => (key a <= key b)%Z) (sort "asc" rows) /\
   StronglySorted (fun a b => (key b <= key a)%Z) (sort "desc" rows) /\
   (forall i j a b,
      sort "asc" rows !! i = Some a -> sort "asc" rows !! j = Some b ->
      parse (dimension a) = None -> (0 < key b)%Z -> (i < j)%nat)) /\
  (isDateData dateParse rows = false ->
   StronglySorted
     (fun a b => (localeCompare (dimension a) (dimension b) <= 0)%Z)
     (sort "asc" rows) /\
   StronglySorted
     (fun a b => (0 <= localeCompare (dimension a) (dimension b))%Z)
     (sort "desc" rows)) /\
  (forall t1 t2 t3 months,
     month_first dateParse "Jan" t1 -> month_first dateParse "Feb" t2 ->
     month_first dateParse "Mar" t3 -> (t1 < t2 < t3)%Z ->
     map dimension months ≡ₚ ["Jan 2024"; "Feb 2024"; "Mar 2024"] ->
     map dimension (sort "asc" months) = ["Jan 2024"; "Feb 2024"; "Mar 2024"]).
Proof.
  intros Hflip Htrans parse key sort. subst parse key sort.
  split; [|split; [|split; [|split; [|split]]]].
  - unfold isDateData, sampleDates. apply Nat.leb_le.
  - repeat split.
    + apply parseDate_native.
    + apply parseDate_fallback.
    + apply parseDate_none.
  - split; apply sortRows_perm.
  - intros Hd. repeat split.
    + by apply sortRows_dates_asc.
    + by apply sortRows_dates_desc.
    + intros i j a b. by apply unparseable_before_positive.
  - intros Hd. split.
    + by apply sortRows_text_asc.
    + by apply sortRows_text_desc.
  - intros t1 t2 t3 months. apply months_in_order.
Qed.

Lemma sort_by_date_or_text_witness :
  map dimension
    (sortRows Samples.utcDateParse Samples.codeUnitCompare "asc" Samples.rowsMonths)
  = ["Jan 2024"; "Feb 2024"; "Mar 2024"].
Proof.
  destruct (sort_by_date_or_text Samples.utcDateParse Samples.codeUnitCompare
              Samples.rowsMonths codeUnitCompare_flip codeUnitCompare_trans)
    as (_ & _ & _ & _ & _ & Hmonths).
  apply (Hmonths 1704067200000 1706745600000 1709251200000)%Z.
  - right. split; reflexivity.
  - right. split; reflexivity.
  - right. split; reflexivity.
  - lia.
  - simpl. apply (Permutation_cons_append ["Jan 2024"; "Feb 2024"] "Mar 2024").
Defined.

(** C6, counterexample.  With dates before 1970 in the column, the value
    that does not parse sorts last in ascending order, not first. *)
Lemma unparseable_after_old_dates :
  isDateData Samples.utcDateParse Samples.rowsOld = true /\
  map dimension
    (sortRows Samples.utcDateParse Samples.codeUnitCompare "asc" Samples.rowsOld)
  = ["1960-01-01"; "1965-05-05"; "n/a"] /\
  ~ unparseable_first Samples.utcDateParse
      (sortRows Samples.utcDateParse Samples.codeUnitCompare "asc" Samples.rowsOld).
Proof.
  split; [reflexivity|]. split; [reflexivity|].
  intros Hfirst.
  specialize (Hfirst 2%nat 0%nat (Samples.row "n/a" 1 1 1)
                (Samples.row "1960-01-01" 3 1 1)).
  assert (2 < 0)%nat; [|lia].
  apply Hfirst; try reflexivity. by eexists.
Qed.

End SortFacts.

(** ** The configuration merge *)

Module MergeFacts.

Import ConfigTree.

(** *** Induction on trees *)

Lemma size_of_lookup (m : gmap string jsval) k v :
  m !! k = Some v -> (size_of v < size_of (VObj m))%nat.
Proof.
  intros Hk. simpl.
  rewrite <- (insert_delete_id m k v Hk).
  rewrite map_fold_insert_L.
  - lia.
  - intros. lia.
  - apply lookup_delete_eq.
Qed.

Lemma size_of_elem (l : list jsval) v :
  v ∈ l -> (size_of v < size_of (VArr l))%nat.
Proof.
  simpl. induction 1 as [x l|x y l _ IH]; simpl; lia.
Qed.

Lemma jsval_ind' (P : jsval -> Prop) :
  P VUndef -> P VNull -> (forall b, P (VBool b)) -> (forall q, P (VNum q)) ->
  P VNaN -> (forall s, P (VStr s)) ->
  (forall l, Forall P l -> P (VArr l)) ->
  (forall m, map_Forall (fun _ => P) m -> P (VObj m)) ->
  forall v, P v.
Proof.
  intros Hu Hn Hb Hq Hnan Hs Ha Ho v.
  remember (size_of v) as n eqn:Hn'. revert v Hn'.
  induction (lt_wf n) as [n _ IH]. intros v ->.
  assert (forall v', size_of v' < size_of v -> P v')%nat as IH'.
  { intros v' Hlt. by eapply IH. }
  clear IH. destruct v; auto.
  - apply Ha. apply Forall_forall. intros x Hx.
    apply IH'. by apply size_of_elem.
  - apply Ho. intros k x Hx. apply IH'. by eapply size_of_lookup.
Qed.

(** *** The trip through JSON *)

Lemma jsonValue_not_undef v : jsonValue v <> VUndef.
Proof. by destruct v. Qed.

Lemma jsonValue_is_leaf v : is_leaf (jsonValue v) = is_leaf v.
Proof. by destruct v. Qed.

Lemma truthy_jsonValue v : truthy (jsonValue v) = truthy v.
Proof. by destruct v. Qed.

Lemma jsonValue_idem v : jsonValue (jsonValue v) = jsonValue v.
Proof.
  induction v as [| |b|q| |s|l IH|m IH] using jsval_ind'; simpl; try done.
  - f_equal. rewrite <- list_fmap_compose.
    apply Forall_fmap_ext_1. by rewrite Forall_forall in IH |- *.
  - f_equal. apply map_eq. intros k. rewrite !lookup_omap.
    destruct (m !! k) as [x|] eqn:Hk; simpl; [|done].
    destruct x; simpl; try done.
    + f_equal. apply (IH _ _ Hk).
    + f_equal. apply (IH _ _ Hk).
Qed.

Lemma jsonClone_jsonValue v : v <> VUndef -> jsonClone (jsonValue v) = jsonClone v.
Proof.
  intros Hv. unfold jsonClone.
  destruct (jsonValue v) eqn:Hj; [by apply jsonValue_not_undef in Hj|..];
    rewrite <- Hj, jsonValue_idem; by destruct v.
Qed.







(** *** One level of the merge *)

Lemma merge_key_entry key v result :
  merge_key deepMerge key v (Some result) =
  (r ← merged_entry (result !! key) v; Some (<[key := r]> result)).
Proof. by destruct v. Qed.

Lemma merge_fold_lookup (md mo mr : gmap string jsval) :
  map_fold (merge_key deepMerge) (Some md) mo = Some mr ->
  forall k, mr !! k = match mo !! k with
                      | Some v => merged_entry (md !! k) v
                      | None => md !! k
                      end.
Proof.
  revert mr.
  apply (map_fold_weak_ind
           (fun r m => forall mr, r = Some mr ->
              forall k, mr !! k = match m !! k with
                                  | Some v => merged_entry (md !! k) v
                                  | None => md !! k
                                  end)).
  - intros mr [= <-] k. by rewrite lookup_empty.
  - intros i x m r Hi IH mr Hstep k.
    destruct r as [mr0|]; [|done].
    rewrite merge_key_entry in Hstep.
    destruct (merged_entry (mr0 !! i) x) as [e|] eqn:He; [|done].
    injection Hstep as <-.
    specialize (IH mr0 eq_refl).
    destruct (decide (i = k)) as [->|Hne].
    + rewrite !lookup_insert_eq. rewrite IH, Hi in He. done.
    + rewrite !lookup_insert_ne by done. apply IH.
Qed.

Lemma merge_fold_total (md : gmap string jsval) :
  forall mo : gmap string jsval,
  (forall k v, mo !! k = Some v -> is_Some (merged_entry (md !! k) v)) ->
  exists mr, map_fold (merge_key deepMerge) (Some md) mo = Some mr /\
             forall k, mo !! k = None -> mr !! k = md !! k.
Proof.
  apply (map_fold_weak_ind
           (fun r (m : gmap string jsval) =>
              (forall k v, m !! k = Some v -> is_Some (merged_entry (md !! k) v)) ->
              exists mr, r = Some mr /\ forall k, m !! k = None -> mr !! k = md !! k)).
  - intros _. by exists md.
  - intros i x m r Hi IH Hall.
    destruct IH as (mr0 & -> & Hsame).
    { intros k v Hk. apply Hall. rewrite lookup_insert_ne; [done|].
      intros ->. by rewrite Hi in Hk. }
    rewrite merge_key_entry, (Hsame i Hi).
    destruct (Hall i x) as [e ->]; [by rewrite lookup_insert_eq|].
    simpl. eexists. split; [done|].
    intros k Hk. destruct (decide (i = k)) as [->|Hne].
    + by rewrite lookup_insert_eq in Hk.
    + rewrite lookup_insert_ne in Hk by done.
      rewrite lookup_insert_ne by done. by apply Hsame.
Qed.

Lemma deepMerge_jsonValue x c :
  x <> VUndef -> deepMerge (jsonValue x) c = deepMerge x c.
Proof. intros Hx. destruct c; simpl; by rewrite jsonClone_jsonValue. Qed.


(** *** Merging a configuration of the shape of the defaults *)




(** *** Examples *)





End MergeFacts.

(** ** The chart engine *)

Module ChartFacts.

Import Chart Notions.

Ltac cbn_state :=
  cbn [margin width height xScale yScaleLeft yScaleRight data originalData
       fieldNames config isFirstRender _lastLegendPosition arrays scales
       timers drawing bars1 bars2 barLabels1 barLabels2 fst snd
       set_isFirstRender with_legend with_drawing with_scales
       with_dimensions stored new_array scale_at deref mbind option_bind] in *.

Section Scales.

Context {d3 : D3} {engine : Engine}.

(** *** [createScales] *)

Lemma createScales_inv st st' :
  createScales st = Done st' ->
  exists cfg source,
    config st = Some cfg /\
    deref st (dataSource st) = Some source /\
    let sortedData :=
      DimSort.sortRows dateParse localeCompare
        (str_or (x_sort (xAxis cfg)) "default") source in
    st' = with_scales
            {| band_domain := map dimension sortedData;
               band_range := (0%Q, width st);
               band_padding := barPadding cfg |}
            sortedData
            (leftScale cfg sortedData (height st))
            (if String.eqb (axisMode cfg) "dual"
             then Some (rightScale cfg sortedData (height st)) else None)
            st.
Proof.
  unfold createScales.
  destruct (config st) as [cfg|]; [|done].
  destruct (deref st (dataSource st)) as [source|]; [|done].
  intros [= <-]. by exists cfg, source.
Qed.

Lemma with_scales_data xs sd l r st :
  deref (with_scales xs sd l r st) (data (with_scales xs sd l r st)) = Some sd.
Proof. simpl. by apply list_lookup_middle. Qed.

Lemma with_scales_left xs sd l r st :
  scale_at (with_scales xs sd l r st) (yScaleLeft (with_scales xs sd l r st))
  = Some l.
Proof. unfold scale_at. simpl. by apply list_lookup_middle. Qed.

Lemma with_scales_right xs sd l r st :
  scale_at (with_scales xs sd l r st) (yScaleRight (with_scales xs sd l r st))
  = Some (default l r).
Proof.
  unfold scale_at. destruct r as [s|]; simpl.
  - rewrite lookup_app_r by lia.
    replace (S (length (scales st)) - length (scales st))%nat with 1%nat by lia.
    done.
  - by apply list_lookup_middle.
Qed.

(** *** The scales in each axis mode *)

Lemma leftScale_shared cfg rows h :
  axisMode cfg = "shared" ->
  leftScale cfg rows h =
  {| domain := sharedDomain cfg rows; niced := true; range := (h, 0%Q) |}.
Proof. intros Hm. unfold leftScale. by rewrite Hm. Qed.

Lemma leftScale_dual cfg rows h :
  axisMode cfg = "dual" -> syncDualAxis cfg = false ->
  leftScale cfg rows h =
  {| domain := (yLeftMin cfg rows, yLeftMax cfg rows); niced := true;
     range := (h, 0%Q) |}.
Proof. intros Hm Hs. unfold leftScale. by rewrite Hm, Hs. Qed.

Lemma leftScale_sync cfg rows h :
  axisMode cfg = "dual" -> syncDualAxis cfg = true ->
  leftScale cfg rows h =
  {| domain := (syncMin cfg rows, syncMax cfg rows); niced := true;
     range := (h, 0%Q) |}.
Proof. intros Hm Hs. unfold leftScale. by rewrite Hm, Hs. Qed.

Lemma rightScale_domain cfg rows h :
  domain (rightScale cfg rows h) =
  if syncDualAxis cfg then (syncMin cfg rows, syncMax cfg rows)
  else (yRightMin cfg rows, yRightMax cfg rows).
Proof. unfold rightScale. destruct (syncDualAxis cfg); by case_match. Qed.

Lemma rightScale_niced cfg rows h : niced (rightScale cfg rows h) = true.
Proof. unfold rightScale. destruct (syncDualAxis cfg); by case_match. Qed.

(** C4.  In shared mode [createScales] leaves [yScaleRight] pointing to the
    very scale object [yScaleLeft] points to, so both have the same domain
    and range; that scale is computed from the left axis settings alone. *)
Theorem shared_scale_is_alias st st' cfg :
  config st = Some cfg -> axisMode cfg = "shared" ->
  createScales st = Done st' ->
  yScaleRight st' = yScaleLeft st' /\
  exists s rows,
    scale_at st' (yScaleLeft st') = Some s /\
    scale_at st' (yScaleRight st') = Some s /\
    deref st' (data st') = Some rows /\
    domain s = sharedDomain cfg rows /\
    range s = (height st', 0%Q) /\
    forall cfg',
      axisMode cfg' = "shared" -> barStyle cfg' = barStyle cfg ->
      yAxisLeft cfg' = yAxisLeft cfg ->
      leftScale cfg' rows (height st') = s.
Proof.
  intros Hcfg Hmode Hrun.
  apply createScales_inv in Hrun as (cfg0 & source & Hcfg0 & Hsrc & ->).
  rewrite Hcfg in Hcfg0. injection Hcfg0 as <-.
  rewrite Hmode. simpl String.eqb. cbv iota.
  split; [done|].
  eexists _, _. split; [apply with_scales_left|].
  split; [apply with_scales_right|].
  split; [apply with_scales_data|].
  rewrite leftScale_shared by done. simpl.
  split; [done|]. split; [done|].
  intros cfg' Hmode' Hstyle Hleft.
  rewrite leftScale_shared by done.
  unfold sharedDomain, sharedMin, combinedMax, barMax.
  by rewrite Hstyle, Hleft.
Qed.

End Scales.

Lemma shared_scale_is_alias_witness :
  let st' := state_of (createScales (engine := Samples.utcEngine)
                         (Samples.loaded Samples.rowsAB Samples.sharedConfig)) in
  yScaleRight st' = yScaleLeft st'.
Proof.
  exact (proj1 (shared_scale_is_alias (engine := Samples.utcEngine)
                  (Samples.loaded Samples.rowsAB Samples.sharedConfig) _
                  Samples.sharedConfig eq_refl eq_refl eq_refl)).
Defined.

Section Sync.

Context {engine : Engine}.

(** The pair handed to the synchronised scales, in exact arithmetic: in
    dual mode with [syncDualAxis] and no configured bound, for rows whose
    bar maximum is 100 and line maximum 50, [createScales] hands both
    scales the same pair, to be rounded by [nice()], and its upper bound is
    100 * 1.1 = 110. *)
Theorem synced_domains st st' cfg rows bm lm :
  config st = Some cfg ->
  axisMode cfg = "dual" -> syncDualAxis cfg = true ->
  y_min (yAxisLeft cfg) = None -> y_max (yAxisLeft cfg) = None ->
  y_min (yAxisRight cfg) = None -> y_max (yAxisRight cfg) = None ->
  createScales st = Done st' ->
  deref st' (data st') = Some rows ->
  barMax cfg rows = Fin bm -> (bm == 100)%Q ->
  lineMax rows = Fin lm -> (lm == 50)%Q ->
  exists l r lo hi,
    scale_at st' (yScaleLeft st') = Some l /\
    scale_at st' (yScaleRight st') = Some r /\
    domain l = (lo, Fin hi) /\ domain r = (lo, Fin hi) /\
    niced l = true /\ niced r = true /\
    (hi == 100 * (11 # 10))%Q /\ (hi == 110)%Q.
Proof.
  intros Hcfg Hmode Hsync Hlmin Hlmax Hrmin Hrmax Hrun Hrows Hbm Hbm100 Hlm Hlm50.
  apply createScales_inv in Hrun as (cfg0 & source & Hcfg0 & Hsrc & ->).
  rewrite Hcfg in Hcfg0. injection Hcfg0 as <-.
  rewrite with_scales_data in Hrows. injection Hrows as Hrows.
  rewrite Hrows. rewrite Hmode. simpl String.eqb. cbv iota.
  exists (leftScale cfg rows (height st)), (rightScale cfg rows (height st)).
  exists (syncMin cfg rows).
  exists (Qmax (Qmax bm lm * (11 # 10)) (Qmax bm lm * (11 # 10)))%Q.
  split; [apply with_scales_left|]. split; [apply with_scales_right|].
  assert (syncMax cfg rows
          = Fin (Qmax (Qmax bm lm * (11 # 10)) (Qmax bm lm * (11 # 10)))%Q) as Hmax.
  { unfold syncMax, combinedMax. by rewrite Hlmax, Hrmax, Hbm, Hlm. }
  split; [by rewrite leftScale_sync, Hmax|].
  split; [by rewrite rightScale_domain, Hsync, Hmax|].
  split; [by rewrite leftScale_sync|].
  split; [apply rightScale_niced|].
  assert (Qmax bm lm == 100)%Q as H100.
  { rewrite Q.max_l; [done|]. rewrite Hbm100, Hlm50. done. }
  rewrite Q.max_id, H100. split; reflexivity.
Qed.

End Sync.

(** *** Configured bounds *)

Lemma d3_max_cons_fin {A} (f : A -> Q) x l : exists m, d3_max (map f (x :: l)) = Fin m.
Proof. by eexists. Qed.

Lemma d3_min_cons_fin {A} (f : A -> Q) x l : exists m, d3_min (map f (x :: l)) = Fin m.
Proof. by eexists. Qed.

Lemma autoMin_fin axis m : exists a, autoMin axis (Fin m) = Fin a.
Proof. unfold autoMin. case_match; by eexists. Qed.

Lemma or_auto_fin c a : exists b, or_auto c (Fin a) = Fin b.
Proof. destruct c; by eexists. Qed.

Lemma syncMin_covers cfg rows :
  rows <> [] ->
  (forall q, y_min (yAxisLeft cfg) = Some q -> num_le (syncMin cfg rows) (Fin q)) /\
  (forall q, y_min (yAxisRight cfg) = Some q -> num_le (syncMin cfg rows) (Fin q)).
Proof.
  intros Hrows. destruct rows as [|d rows]; [done|].
  unfold syncMin, barMin, lineMin.
  destruct (d3_min_cons_fin (fun d => Qmin (bar1Value d) (bar2Value d)) d rows)
    as [bm ->].
  destruct (d3_min_cons_fin lineValue d rows) as [lm ->].
  destruct (autoMin_fin (yAxisLeft cfg) bm) as [al ->].
  destruct (autoMin_fin (yAxisRight cfg) lm) as [ar ->].
  split; intros q Hq; rewrite Hq; simpl.
  - destruct (or_auto_fin (y_min (yAxisRight cfg)) ar) as [b ->]. simpl.
    apply Q.le_min_l.
  - destruct (or_auto_fin (y_min (yAxisLeft cfg)) al) as [b ->]. simpl.
    apply Q.le_min_r.
Qed.

Lemma syncMax_covers cfg rows :
  rows <> [] ->
  (forall q, y_max (yAxisLeft cfg) = Some q -> num_le (Fin q) (syncMax cfg rows)) /\
  (forall q, y_max (yAxisRight cfg) = Some q -> num_le (Fin q) (syncMax cfg rows)).
Proof.
  intros Hrows. destruct rows as [|d rows]; [done|].
  unfold syncMax, combinedMax, barMax, lineMax.
  destruct (d3_max_cons_fin lineValue d rows) as [lm ->].
  assert (exists bm,
            (if String.eqb (barStyle cfg) "stacked"
             then d3_max (map stackedValue (d :: rows))
             else d3_max (map (fun d => Qmax (bar1Value d) (bar2Value d)) (d :: rows)))
            = Fin bm) as [bm ->] by (case_match; by eexists).
  simpl nmul.
  split; intros q Hq; rewrite Hq; simpl.
  - destruct (or_auto_fin (y_max (yAxisRight cfg)) (Qmax bm lm * (11 # 10))%Q)
      as [b ->]. simpl. apply Q.le_max_l.
  - destruct (or_auto_fin (y_max (yAxisLeft cfg)) (Qmax bm lm * (11 # 10))%Q)
      as [b ->]. simpl. apply Q.le_max_r.
Qed.

Section Bounds.

Context {engine : Engine}.

(** C1 (as amended).  After [createScales]: with independent dual axes every
    configured bound, 0 included, is the bound handed to the scale of its
    side.  With synchronised axes both scales receive the minimum of the two
    sides' lower bounds and the maximum of their upper bounds (each side's
    configured value, else its automatic one), so a configured bound is
    covered by the common domain.  In shared mode the single scale takes the
    configured left minimum, 0 included, and the configured left maximum
    when it is not 0, and does not depend on the right axis settings. *)
Theorem configured_bounds st st' cfg :
  config st = Some cfg ->
  createScales st = Done st' ->
  exists rows l r,
    deref st' (data st') = Some rows /\
    scale_at st' (yScaleLeft st') = Some l /\
    scale_at st' (yScaleRight st') = Some r /\
    (axisMode cfg = "dual" -> syncDualAxis cfg = false ->
     (forall q, y_min (yAxisLeft cfg) = Some q -> fst (domain l) = Fin q) /\
     (forall q, y_max (yAxisLeft cfg) = Some q -> snd (domain l) = Fin q) /\
     (forall q, y_min (yAxisRight cfg) = Some q -> fst (domain r) = Fin q) /\
     (forall q, y_max (yAxisRight cfg) = Some q -> snd (domain r) = Fin q)) /\
    (axisMode cfg = "dual" -> syncDualAxis cfg = true ->
     domain l = (syncMin cfg rows, syncMax cfg rows) /\
     domain r = (syncMin cfg rows, syncMax cfg rows) /\
     (rows <> [] ->
      (forall q, y_min (yAxisLeft cfg) = Some q -> num_le (fst (domain l)) (Fin q)) /\
      (forall q, y_min (yAxisRight cfg) = Some q -> num_le (fst (domain l)) (Fin q)) /\
      (forall q, y_max (yAxisLeft cfg) = Some q -> num_le (Fin q) (snd (domain l))) /\
      (forall q, y_max (yAxisRight cfg) = Some q -> num_le (Fin q) (snd (domain l))))) /\
    (axisMode cfg = "shared" ->
     r = l /\
     (forall q, y_min (yAxisLeft cfg) = Some q -> fst (domain l) = Fin q) /\
     (forall q, y_max (yAxisLeft cfg) = Some q -> ~ (q == 0)%Q ->
                snd (domain l) = Fin q) /\
     (forall cfg',
        axisMode cfg' = "shared" -> barStyle cfg' = barStyle cfg ->
        yAxisLeft cfg' = yAxisLeft cfg ->
        leftScale cfg' rows (height st') = l)).
Proof.
  intros Hcfg Hrun.
  apply createScales_inv in Hrun as (cfg0 & source & Hcfg0 & Hsrc & ->).
  rewrite Hcfg in Hcfg0. injection Hcfg0 as <-.
  eexists _, _, _.
  split; [apply with_scales_data|].
  split; [apply with_scales_left|].
  split; [apply with_scales_right|].
  split; [|split].
  - intros Hmode Hsync. rewrite Hmode. simpl.
    rewrite leftScale_dual, rightScale_domain, Hsync by done. simpl.
    unfold yLeftMin, yLeftMax, yRightMin, yRightMax.
    repeat split; intros q Hq; by rewrite Hq.
  - intros Hmode Hsync. rewrite Hmode. simpl.
    rewrite leftScale_sync, rightScale_domain, Hsync by done. simpl.
    split; [done|]. split; [done|].
    intros Hrows.
    destruct (syncMin_covers cfg _ Hrows) as [? ?].
    destruct (syncMax_covers cfg _ Hrows) as [? ?]. done.
  - intros Hmode. rewrite Hmode. simpl.
    rewrite leftScale_shared by done. simpl.
    split; [done|]. split; [|split].
    + intros q Hq. by rewrite Hq.
    + intros q Hq Hnz. unfold or_auto_truthy. rewrite Hq.
      destruct (Qeq_bool q 0) eqn:Hz; [|done].
      by apply Qeq_bool_iff in Hz.
    + intros cfg' Hmode' Hstyle Hleft.
      rewrite leftScale_shared by done.
      unfold sharedDomain, sharedMin, combinedMax, barMax.
      by rewrite Hstyle, Hleft.
Qed.

End Bounds.

Lemma configured_bounds_witness :
  let st' := state_of (createScales (engine := Samples.utcEngine)
                         (Samples.loaded Samples.rowsAB Samples.boundedConfig)) in
  exists l r,
    scale_at st' (yScaleLeft st') = Some l /\
    scale_at st' (yScaleRight st') = Some r /\
    domain l = (Fin 0, Fin 50) /\ domain r = (Fin 1, Fin 20).
Proof.
  destruct (configured_bounds (engine := Samples.utcEngine)
              (Samples.loaded Samples.rowsAB Samples.boundedConfig) _
              Samples.boundedConfig eq_refl eq_refl)
    as (rows & l & r & _ & Hl & Hr & Hdual & _).
  exists l, r. split; [exact Hl|]. split; [exact Hr|].
  destruct (Hdual eq_refl eq_refl) as (H1 & H2 & H3 & H4).
  specialize (H1 _ eq_refl). specialize (H2 _ eq_refl).
  specialize (H3 _ eq_refl). specialize (H4 _ eq_refl).
  destruct (domain l), (domain r). simpl in *. by subst.
Defined.

(** C1, counterexample.  With synchronised axes and the left maximum set to
    50, rows reaching 100 give the left scale the upper bound 110. *)
Lemma synced_left_max_not_the_bound :
  ~ configured_bounds_win Samples.syncMax50Config Samples.rows100 400.
Proof.
  intros (_ & Hmax & _).
  specialize (Hmax 50%Q eq_refl).
  vm_compute in Hmax. discriminate Hmax.
Qed.

(** In shared mode the maximum is read with [||], unlike the minimum and
    unlike both bounds in dual mode: a configured 0 gives way to the
    automatic value. *)
Lemma shared_zero_max cfg rows :
  y_max (yAxisLeft cfg) = Some 0%Q ->
  snd (sharedDomain cfg rows) = combinedMax cfg rows.
Proof. intros Hmax. unfold sharedDomain, or_auto_truthy. by rewrite Hmax. Qed.

(** *** One render pass *)

Lemma and_then_done (m k : method) st s o :
  m st = Done s -> k s = o -> (m >>> k) st = o.
Proof. intros Hm Hk. unfold and_then. by rewrite Hm. Qed.

Section Pipeline.

Context {d3 : D3} {engine : Engine}.

Lemma createScales_done st cfg source :
  config st = Some cfg -> deref st (dataSource st) = Some source ->
  createScales st =
  Done (with_scales
          {| band_domain := map dimension (sortedData cfg source);
             band_range := (0%Q, width st);
             band_padding := barPadding cfg |}
          (sortedData cfg source)
          (leftScale cfg (sortedData cfg source) (height st))
          (if String.eqb (axisMode cfg) "dual"
           then Some (rightScale cfg (sortedData cfg source) (height st))
           else None)
          st).
Proof. intros Hc Hs. unfold createScales. by rewrite Hc, Hs. Qed.

Lemma renderBars_done st cfg xs ys rows :
  config st = Some cfg -> xScale st = Some xs ->
  scale_at st (yScaleLeft st) = Some ys -> deref st (data st) = Some rows ->
  renderBars st =
  Done (with_drawing
          {| bars1 := fst (drawBars cfg (animation_enabled cfg) xs ys (height st) rows);
             bars2 := snd (drawBars cfg (animation_enabled cfg) xs ys (height st) rows);
             barLabels1 := barLabels1 (drawing st);
             barLabels2 := barLabels2 (drawing st) |} st).
Proof. intros Hc Hx Hy Hd. unfold renderBars. by rewrite Hc, Hx, Hy, Hd. Qed.

Lemma renderLabels_done st cfg xs ys rows :
  config st = Some cfg -> xScale st = Some xs ->
  scale_at st (yScaleLeft st) = Some ys -> deref st (data st) = Some rows ->
  renderLabels st =
  Done (with_drawing
          {| bars1 := bars1 (drawing st); bars2 := bars2 (drawing st);
             barLabels1 := fst (drawLabels cfg xs ys (height st) rows);
             barLabels2 := snd (drawLabels cfg xs ys (height st) rows) |} st).
Proof. intros Hc Hx Hy Hd. unfold renderLabels. by rewrite Hc, Hx, Hy, Hd. Qed.

Lemma renderLegend_done st cfg :
  config st = Some cfg ->
  renderLegend st =
  Done (if negb (legend_show (legend cfg)) then st
        else with_legend (legendPosition cfg)
               (if position_changed (_lastLegendPosition st) (legendPosition cfg)
                then timers st ++
                       [{| timer_delay := 50; timer_position := legendPosition cfg |}]
                else timers st) st).
Proof. intros Hc. unfold renderLegend. rewrite Hc. by case_match. Qed.

Ltac render_steps cfg source Hsrc Hprev :=
  eapply and_then_done; [reflexivity|];
  eapply and_then_done; [unfold check_preview; rewrite Hprev; reflexivity|];
  eapply and_then_done; [reflexivity|];
  eapply and_then_done;
    [apply (createScales_done _ cfg source); [reflexivity|exact Hsrc]|];
  eapply and_then_done;
    [eapply (renderBars_done _ cfg);
       [reflexivity|reflexivity|apply with_scales_left|apply with_scales_data]|];
  eapply and_then_done;
    [eapply (renderLabels_done _ cfg);
       [reflexivity|reflexivity|apply with_scales_left|apply with_scales_data]|];
  eapply and_then_done; [apply (renderLegend_done _ cfg); reflexivity|];
  reflexivity.

Ltac render_facts :=
  split; cbn_state; try done; try congruence;
  try (by apply list_lookup_middle);
  try (intros xs ys [= <-]; rewrite list_lookup_middle by done;
       intros [= <-]; by destruct (drawBars _ _ _ _ _ _));
  try (intros xs ys [= <-]; rewrite list_lookup_middle by done;
       intros [= <-]; by destruct (drawLabels _ _ _ _ _)).

Lemma render_done d fn cfg rect st source :
  deref st (dataSource (stored d fn (Some cfg) st)) = Some source ->
  exists st',
    render d fn (Some cfg) rect st = Done st' /\
    rendered st d fn cfg source st'.
Proof.
  intros Hsrc. unfold render.
  destruct (forceAnimationPreview cfg) eqn:Hprev;
    (eexists; split; [render_steps cfg source Hsrc Hprev|]);
    destruct (legend_show (legend cfg)) eqn:Hshow; cbn [negb]; render_facts.
Qed.

End Pipeline.

(** *** Re-rendering *)

Lemma ref_eqb_refl r : ref_eqb r r = true.
Proof. destruct r; simpl; try done. apply Nat.eqb_refl. Qed.

Section Rerender.

Context {d3 : D3} {engine : Engine}.

Lemma rendered_order st d fn cfg source st' :
  rendered st d fn cfg source st' ->
  dimension_order st' = Some (map dimension (sortedData cfg source)).
Proof.
  intros [Harr Hdata _ _ _ _ _ _ _ _]. unfold dimension_order, deref.
  rewrite Hdata, Harr, list_lookup_middle by done. done.
Qed.

Lemma render_rows_keeps rows fn cfg rect st :
  wf_state st ->
  exists st', render_rows rows fn cfg rect st = Done st' /\ keeps rows cfg st'.
Proof.
  intros [Hdata _]. unfold render_rows.
  assert (ref_eqb (RAddr (length (arrays st))) (data st) = false) as Hne.
  { destruct (data st) as [| |a]; simpl in *; try done.
    apply Nat.eqb_neq. lia. }
  destruct (render_done (RAddr (length (arrays st))) (Some fn) cfg rect
              (new_array rows st) rows) as (st' & Hrun & Hfacts).
  { unfold dataSource. cbn_state. rewrite Hne. simpl.
    by apply list_lookup_middle. }
  exists st'. split; [exact Hrun|].
  pose proof (rendered_order _ _ _ _ _ _ Hfacts) as Horder.
  destruct Hfacts as [Harr Hd Horig Hcfg _ _ _ _ _ _].
  cbn_state. rewrite Hne in Horig. simpl in Horig.
  exists (length (arrays st)), (length (arrays st ++ [rows])).
  repeat split; try done.
  rewrite Harr, <- app_assoc. by apply list_lookup_middle.
Qed.

Lemma render_keeps rows cfg cfg' d fn rect st :
  keeps rows cfg st ->
  d = data st \/ d = originalData st ->
  x_sort (xAxis cfg') = x_sort (xAxis cfg) ->
  exists st', render d fn (Some cfg') rect st = Done st' /\ keeps rows cfg' st' /\
              dimension_order st' = dimension_order st.
Proof.
  intros (a0 & a & Horig & Hrows & Hdata & Hcfg & Horder) Hd Hsort.
  destruct (render_done d fn cfg' rect st rows) as (st' & Hrun & Hfacts).
  { unfold dataSource. cbn_state.
    destruct Hd as [->| ->].
    - rewrite ref_eqb_refl. simpl. by rewrite Horig.
    - rewrite Horig. by destruct (ref_eqb (RAddr a0) (data st)). }
  assert (sortedData cfg' rows = sortedData cfg rows) as Hsame.
  { unfold sortedData. by rewrite Hsort. }
  exists st'. split; [exact Hrun|].
  pose proof (rendered_order _ _ _ _ _ _ Hfacts) as Horder'.
  destruct Hfacts as [Harr Hd' Horig' Hcfg' _ _ _ _ _ _].
  split; [|by rewrite Horder', Horder, Hsame].
  exists a0, (length (arrays st)).
  split.
  { rewrite Horig'. destruct Hd as [->| ->].
    - rewrite ref_eqb_refl. exact Horig.
    - rewrite Horig. by destruct (ref_eqb (RAddr a0) (data st)). }
  split.
  { rewrite Harr. apply lookup_app_l_Some. exact Hrows. }
  done.
Qed.

Lemma on_resizes_keeps rows cfg rects st :
  keeps rows cfg st ->
  exists st', on_resizes rects st = Done st' /\ keeps rows cfg st' /\
              dimension_order st' = dimension_order st.
Proof.
  revert st. induction rects as [|rect rects IH]; intros st Hk.
  - by exists st.
  - pose proof Hk as (a0 & a & _ & _ & Hdata & Hcfg & _).
    destruct (render_keeps rows cfg cfg (data st) (fieldNames st) rect st Hk)
      as (st1 & Hrun & Hk1 & Ho1); [by left|done|].
    destruct (IH st1 Hk1) as (st2 & Hrun2 & Hk2 & Ho2).
    exists st2. split; [|split; [done|congruence]].
    simpl. eapply and_then_done; [|exact Hrun2].
    unfold on_resize. by rewrite Hdata, Hcfg, <- Hdata.
Qed.

(** C2.  A render of fresh rows caches them unsorted and shows them in the
    order of the configured sort; any number of resize re-renders, which
    pass the cached sorted array, and a render that passes the original
    array again with the same sort order, sort the cached original rows
    anew and show the identical dimension order. *)
Theorem rerender_keeps_order rows fn cfg rect st :
  wf_state st ->
  exists st1,
    render_rows rows fn cfg rect st = Done st1 /\
    dimension_order st1 = Some (map dimension (sortedData cfg rows)) /\
    (forall rects, exists st2,
       on_resizes rects st1 = Done st2 /\
       dimension_order st2 = dimension_order st1) /\
    (forall fn' cfg' rect',
       x_sort (xAxis cfg') = x_sort (xAxis cfg) ->
       exists st3,
         render (originalData st1) fn' (Some cfg') rect' st1 = Done st3 /\
         dimension_order st3 = dimension_order st1).
Proof.
  intros Hwf.
  destruct (render_rows_keeps rows fn cfg rect st Hwf) as (st1 & Hrun & Hk).
  exists st1. split; [exact Hrun|].
  split; [by destruct Hk as (? & ? & ? & ? & ? & ? & ?)|].
  split.
  - intros rects.
    destruct (on_resizes_keeps rows cfg rects st1 Hk) as (st2 & ? & _ & ?).
    by exists st2.
  - intros fn' cfg' rect' Hsort.
    destruct (render_keeps rows cfg cfg' (originalData st1) fn' rect' st1 Hk)
      as (st3 & ? & _ & ?); [by right|done|].
    by exists st3.
Qed.

End Rerender.

Lemma rerender_keeps_order_witness :
  exists st1,
    render_rows (d3 := Samples.plainD3) (engine := Samples.utcEngine)
      Samples.rowsAB Samples.sampleFieldNames
      (Samples.with_sort "reverse" Samples.defaultConfig) (800, 600)%Q initial
    = Done st1 /\
    dimension_order st1 = Some ["B"; "A"] /\
    exists st2,
      on_resizes (d3 := Samples.plainD3) (engine := Samples.utcEngine)
        [(700, 500)%Q; (640, 480)%Q; (300, 200)%Q] st1 = Done st2 /\
      dimension_order st2 = Some ["B"; "A"].
Proof.
  destruct (rerender_keeps_order (d3 := Samples.plainD3)
              (engine := Samples.utcEngine)
              Samples.rowsAB Samples.sampleFieldNames
              (Samples.with_sort "reverse" Samples.defaultConfig) (800, 600)%Q
              initial)
    as (st1 & Hrun & Horder & Hresize & _).
  { split; exact I. }
  exists st1. split; [exact Hrun|]. split; [exact Horder|].
  destruct (Hresize [(700, 500)%Q; (640, 480)%Q; (300, 200)%Q])
    as (st2 & Hrun2 & Horder2).
  exists st2. split; [exact Hrun2|]. rewrite Horder2. exact Horder.
Defined.

(** *** Stacked bars *)

#[export] Instance plainD3_laws : D3Laws Samples.plainD3.
Proof.
  split. intros s v a b Hd. simpl. rewrite Hd. by eexists.
Qed.

Lemma or_auto_truthy_fin c a : exists b, or_auto_truthy c (Fin a) = Fin b.
Proof. destruct c as [q|]; simpl; [case_match|]; by eexists. Qed.

Lemma leftScale_domain_fin cfg rows h :
  rows <> [] -> exists a b, domain (leftScale cfg rows h) = (Fin a, Fin b).
Proof.
  intros Hrows. destruct rows as [|d rows]; [done|].
  destruct (d3_min_cons_fin (fun d => Qmin (bar1Value d) (bar2Value d)) d rows)
    as [bmin Hbmin].
  destruct (d3_min_cons_fin lineValue d rows) as [lmin Hlmin].
  destruct (d3_max_cons_fin lineValue d rows) as [lmax Hlmax].
  assert (exists bm, barMax cfg (d :: rows) = Fin bm) as [bmax Hbmax].
  { unfold barMax. case_match; by eexists. }
  unfold leftScale, yLeftMin, yLeftMax, syncMin, syncMax, sharedDomain,
    sharedMin, combinedMax, barMin, lineMin, lineMax.
  rewrite Hbmin, Hlmin, Hlmax, Hbmax.
  destruct (autoMin_fin (yAxisLeft cfg) bmin) as [al ->].
  destruct (autoMin_fin (yAxisRight cfg) lmin) as [ar ->].
  destruct (or_auto_fin (y_min (yAxisLeft cfg)) al) as [x1 ->].
  destruct (or_auto_fin (y_min (yAxisRight cfg)) ar) as [x2 ->].
  simpl nmul. simpl nmax. simpl nmin.
  destruct (or_auto_fin (y_max (yAxisLeft cfg)) (bmax * (11 # 10))%Q) as [x3 ->].
  destruct (or_auto_fin (y_max (yAxisLeft cfg)) (Qmax bmax lmax * (11 # 10))%Q)
    as [x4 ->].
  destruct (or_auto_fin (y_max (yAxisRight cfg)) (Qmax bmax lmax * (11 # 10))%Q)
    as [x5 ->].
  destruct (or_auto_truthy_fin (y_max (yAxisLeft cfg))
              (Qmax bmax lmax * (11 # 10))%Q) as [x6 ->].
  assert (exists x7,
            or_auto (y_min (yAxisLeft cfg))
              (if not_false (y_includeZero (yAxisLeft cfg)) then Fin 0
               else Fin (Qmin bmin lmin * (9 # 10))%Q) = Fin x7) as [x7 ->].
  { case_match; apply or_auto_fin. }
  repeat case_match; simpl; by eexists _, _.
Qed.

Section Stacked.

Context {d3 : D3} {laws : D3Laws d3} {engine : Engine}.

(** C3.  With stacked bars, after a render every row has its two segments,
    the first with its top at [yScaleLeft(bar1Value)], the second with its
    top at [yScaleLeft(bar1Value + bar2Value)], and the bottom of the second
    is the top of the first: [segment2.y + segment2.height] equals
    [segment1.y]. *)
Theorem stacked_segments_meet rows fn cfg rect st :
  wf_state st -> barStyle cfg = "stacked" ->
  exists st' ys,
    render_rows rows fn cfg rect st = Done st' /\
    scale_at st' (yScaleLeft st') = Some ys /\
    forall i d,
      sortedData cfg rows !! i = Some d ->
      exists segment1 segment2,
        bars1 (drawing st') !! i = Some segment1 /\
        bars2 (drawing st') !! i = Some segment2 /\
        rect_y segment1 = linear_call ys (bar1Value d) /\
        rect_y segment2 = linear_call ys (bar1Value d + bar2Value d)%Q /\
        num_eq (nadd (rect_y segment2) (rect_height segment2)) (rect_y segment1).
Proof.
  intros Hwf Hstyle.
  destruct (render_rows_keeps rows fn cfg rect st Hwf) as (st' & Hrun & _).
  unfold render_rows in Hrun.
  destruct (render_done (RAddr (length (arrays st))) (Some fn) cfg rect
              (new_array rows st) rows) as (st'' & Hrun' & Hfacts).
  { destruct Hwf as [Hdata _]. unfold dataSource. cbn_state.
    assert (ref_eqb (RAddr (length (arrays st))) (data st) = false) as ->.
    { destruct (data st) as [| |a]; simpl in *; try done.
      apply Nat.eqb_neq. lia. }
    simpl. by apply list_lookup_middle. }
  rewrite Hrun in Hrun'. injection Hrun' as <-.
  destruct Hfacts as [_ _ _ _ _ Hxs Hys Hbars _ _].
  eexists st', _. split; [exact Hrun|]. split; [exact Hys|].
  intros i d Hi.
  specialize (Hbars _ _ Hxs Hys).
  unfold drawBars in Hbars. rewrite Hstyle in Hbars. simpl in Hbars.
  injection Hbars as Hb1 Hb2.
  rewrite Hb1, Hb2. unfold stackedBars1, stackedBars2.
  rewrite !list_lookup_fmap, Hi. simpl.
  eexists _, _. split; [done|]. split; [done|].
  split; [done|]. split; [done|].
  destruct (leftScale_domain_fin cfg (sortedData cfg rows) (height st'))
    as (a & b & Hdom).
  { intros Hnil. by rewrite Hnil in Hi. }
  destruct (linear_call_finite _ (bar1Value d) _ _ Hdom) as [y1 ->].
  destruct (linear_call_finite _ (bar1Value d + bar2Value d)%Q _ _ Hdom) as [y2 ->].
  simpl. ring.
Qed.

End Stacked.

Lemma stacked_segments_meet_witness :
  exists st' segment1 segment2,
    render_rows (d3 := Samples.plainD3) (engine := Samples.utcEngine)
      Samples.rowsAB Samples.sampleFieldNames Samples.stackedConfig
      (800, 600)%Q initial = Done st' /\
    bars1 (drawing st') !! 0%nat = Some segment1 /\
    bars2 (drawing st') !! 0%nat = Some segment2 /\
    num_eq (nadd (rect_y segment2) (rect_height segment2)) (rect_y segment1).
Proof.
  destruct (stacked_segments_meet (d3 := Samples.plainD3)
              (engine := Samples.utcEngine)
              Samples.rowsAB Samples.sampleFieldNames Samples.stackedConfig
              (800, 600)%Q initial)
    as (st' & ys & Hrun & _ & Hrows).
  { split; exact I. }
  { reflexivity. }
  destruct (Hrows 0%nat (Samples.row "A" 10 20 5) eq_refl)
    as (s1 & s2 & H1 & H2 & _ & _ & Hmeet).
  exists st', s1, s2. done.
Defined.

(** *** Grouped bars *)

Lemma render_rows_done {d3 : D3} {engine : Engine} rows fn cfg rect st :
  wf_state st ->
  exists st',
    render_rows rows fn cfg rect st = Done st' /\
    rendered (new_array rows st) (RAddr (length (arrays st))) (Some fn) cfg rows st'.
Proof.
  intros [Hdata _]. unfold render_rows. apply render_done.
  unfold dataSource. cbn_state.
  assert (ref_eqb (RAddr (length (arrays st))) (data st) = false) as ->.
  { destruct (data st) as [| |a]; simpl in *; try done.
    apply Nat.eqb_neq. lia. }
  simpl. by apply list_lookup_middle.
Qed.

Lemma scaled_width_le (auto pct : Q) :
  (0 <= auto)%Q -> (pct <= 100)%Q -> (auto * (pct / 100) <= auto)%Q.
Proof.
  intros Hauto Hpct.
  assert (pct / 100 <= 1)%Q as Hp.
  { apply Qle_shift_div_r; [done|]. lra. }
  rewrite <- (Qmult_1_r auto) at 2.
  rewrite !(Qmult_comm auto). by apply Qmult_le_compat_r.
Qed.

Section Grouped.

Context {d3 : D3} {engine : Engine}.

(** C8 (as amended).  With grouped bars every rendered bar is
    [(bandWidth - barGap) / 2 * (barWidth / 100)] wide.  That is at most the
    automatic width [(bandWidth - barGap) / 2] when the percentage is at
    most 100 and the gap fits in the band; what the engine caps at the band
    width is the width of the group, used to centre it. *)
Theorem grouped_bar_width rows fn cfg rect st :
  wf_state st -> barStyle cfg = "grouped" ->
  exists st' xs,
    render_rows rows fn cfg rect st = Done st' /\
    xScale st' = Some xs /\
    let bandWidth := bandwidth xs in
    let gap := default 4%Q (barGap cfg) in
    let percent := default 100%Q (barWidth cfg) in
    (forall r,
       r ∈ bars1 (drawing st') \/ r ∈ bars2 (drawing st') ->
       rect_width r = (autoBarWidth bandWidth gap * (percent / 100))%Q /\
       ((percent <= 100)%Q -> (gap <= bandWidth)%Q ->
        (rect_width r <= autoBarWidth bandWidth gap)%Q)) /\
    (groupWidth bandWidth gap percent <= bandWidth)%Q.
Proof.
  intros Hwf Hstyle.
  destruct (render_rows_done rows fn cfg rect st Hwf) as (st' & Hrun & Hfacts).
  destruct Hfacts as [_ _ _ _ _ Hxs Hys Hbars _ _].
  eexists st', _. split; [exact Hrun|]. split; [exact Hxs|].
  specialize (Hbars _ _ Hxs Hys).
  unfold drawBars in Hbars. rewrite Hstyle in Hbars. simpl in Hbars.
  injection Hbars as Hb1 Hb2.
  split; [|apply Q.le_min_r].
  intros r Hr.
  assert (rect_width r =
          groupedBarWidth
            (bandwidth
               {| band_domain := map dimension (sortedData cfg rows);
                  band_range := (0%Q, width st');
                  band_padding := barPadding cfg |})
            (default 4%Q (barGap cfg)) (default 100%Q (barWidth cfg))) as ->.
  { rewrite Hb1, Hb2 in Hr. unfold groupedBars1, groupedBars2 in Hr.
    destruct Hr as [Hr|Hr]; apply list_elem_of_fmap in Hr as (d & -> & _); done. }
  split; [done|].
  intros Hpct Hgap. apply scaled_width_le; [|done].
  unfold autoBarWidth. apply Qle_shift_div_l; [done|]. lra.
Qed.

End Grouped.

Lemma grouped_bar_width_witness :
  exists st' xs,
    render_rows (d3 := Samples.plainD3) (engine := Samples.utcEngine)
      Samples.rowsAB Samples.sampleFieldNames Samples.labelledConfig
      (800, 600)%Q initial = Done st' /\
    xScale st' = Some xs /\
    (forall r, r ∈ bars1 (drawing st') ->
       (rect_width r <= autoBarWidth (@bandwidth Samples.plainD3 xs) 4)%Q) /\
    (groupWidth (@bandwidth Samples.plainD3 xs) 4 50 <= @bandwidth Samples.plainD3 xs)%Q.
Proof.
  destruct (grouped_bar_width (d3 := Samples.plainD3)
              (engine := Samples.utcEngine)
              Samples.rowsAB Samples.sampleFieldNames Samples.labelledConfig
              (800, 600)%Q initial)
    as (st' & xs & Hrun & Hxs & Hwidth & Hgroup).
  { split; exact I. }
  { reflexivity. }
  exists st', xs. split; [exact Hrun|]. split; [exact Hxs|].
  split; [|exact Hgroup].
  intros r Hr. apply (Hwidth r (or_introl Hr)).
  - vm_compute. discriminate.
  - pose proof Hrun as Hrun'. vm_compute in Hrun'. injection Hrun' as <-.
    injection Hxs as <-. vm_compute. discriminate.
Defined.

(** C8, counterexample.  At 150 % a bar is wider than half the band less
    the gap. *)
Lemma wide_bar_exceeds_half_band :
  ~ bars_within_half_band (d3 := Samples.plainD3)
      (state_of (render_rows (d3 := Samples.plainD3) (engine := Samples.utcEngine)
                   Samples.rowsAB Samples.sampleFieldNames Samples.wideBarsConfig
                   (800, 600)%Q initial)).
Proof.
  intros Hclaim.
  eapply Qle_not_lt.
  - eapply Hclaim; [reflexivity|reflexivity|].
    vm_compute bars1. apply list_elem_of_here.
  - vm_compute. reflexivity.
Qed.

(** *** Bar labels *)

(** With [barWidth] left out, as in the defaults, a label of a grouped bar
    sits at the centre of its bar. *)
Lemma default_width_label_centred {d3 : D3} cfg xs d x0 :
  barStyle cfg = "grouped" -> barWidth cfg = None ->
  band_call xs (dimension d) = Fin x0 ->
  let bandWidth := bandwidth xs in
  let gap := default 4%Q (barGap cfg) in
  num_eq (bar1LabelX cfg xs d)
         (nadd (nadd (band_call xs (dimension d))
                     (Fin (groupOffset bandWidth gap 100)))
               (Fin (groupedBarWidth bandWidth gap 100 / 2)%Q)).
Proof.
  intros Hstyle Hwidth Hx0. unfold bar1LabelX. rewrite Hstyle, Hwidth, Hx0.
  simpl. unfold labelGroupOffset, labelBarWidth, groupOffset, groupWidth,
    groupedBarWidth, autoBarWidth. simpl.
  destruct (Q.min_spec
              ((bandwidth xs - default 4%Q (barGap cfg)) / 2 * (100 / 100) * 2
               + default 4%Q (barGap cfg))%Q (bandwidth xs)) as [[_ ->]|[_ ->]];
    field.
Qed.

(** C10.  With [barWidth] 50, which [renderBars] reads as 50 % of the
    automatic width and [renderLabels] as a cap of 50 pixels, the label of
    the first bar is not at the centre of that bar. *)
Theorem bar_label_off_centre :
  let st' :=
    state_of (render_rows (d3 := Samples.plainD3) (engine := Samples.utcEngine)
                Samples.rowsAB Samples.sampleFieldNames Samples.labelledConfig
                (800, 600)%Q initial) in
  exists r l,
    bars1 (drawing st') !! 0%nat = Some r /\
    barLabels1 (drawing st') !! 0%nat = Some l /\
    ~ label_centred r l.
Proof.
  eexists _, _.
  split; [vm_compute; reflexivity|].
  split; [vm_compute; reflexivity|].
  vm_compute. intros H. discriminate H.
Qed.

(** *** The deferred re-render *)

(** C9.  The callback that [renderLegend] registers after a change of
    legend position calls [render] without arguments: when the position is
    still the one it captured, [render] overwrites the cached data, field
    names and configuration with [undefined] and throws on reading
    [config.forceAnimationPreview].  So it happens after a render with the
    legend at the bottom and one with the legend on the right. *)
Theorem deferred_rerender_throws :
  (forall (d3 : D3) (engine : Engine) t rect st,
     legend_callback t rect st =
     if bool_decide (_lastLegendPosition st = Some (timer_position t))
     then Thrown "TypeError" (stored RUndef None None st)
     else Done st) /\
  let st1 :=
    state_of (render_rows (d3 := Samples.plainD3) (engine := Samples.utcEngine)
                Samples.rowsAB Samples.sampleFieldNames Samples.defaultConfig
                (800, 600)%Q initial) in
  let st2 :=
    state_of (render_rows (d3 := Samples.plainD3) (engine := Samples.utcEngine)
                Samples.rowsAB Samples.sampleFieldNames Samples.rightLegendConfig
                (800, 600)%Q st1) in
  exists t st3,
    timers st1 = [] /\ timers st2 = [t] /\ timer_delay t = 50%Z /\
    legend_callback (d3 := Samples.plainD3) (engine := Samples.utcEngine)
      t (800, 600)%Q st2 = Thrown "TypeError" st3 /\
    data st3 = RUndef /\ originalData st3 = RUndef /\
    fieldNames st3 = None /\ config st3 = None.
Proof.
  split.
  - intros d3 engine t rect st. unfold legend_callback.
    by destruct (bool_decide _).
  - eexists _, _.
    split; [vm_compute; reflexivity|].
    split; [vm_compute; reflexivity|].
    split; [vm_compute; reflexivity|].
    split; [vm_compute; reflexivity|].
    split; [vm_compute; reflexivity|].
    split; [vm_compute; reflexivity|].
    split; vm_compute; reflexivity.
Qed.

End ChartFacts.

(** ** Double arithmetic *)

Module IeeeFacts.

Import Ieee.

Lemma round64_comp (q q' : Q) : (q == q')%Q -> round64 q = round64 q'.
Proof. intros H. unfold round64. by rewrite (Qred_complete _ _ H). Qed.

Lemma nearest_even_nonneg (q : Q) : (0 <= q)%Q -> (0 <= nearest_even q)%Z.
Proof.
  intros Hq. unfold nearest_even.
  assert (0 <= Qfloor q)%Z as Hf.
  { change 0%Z with (Qfloor 0). by apply Qfloor_resp_le. }
  destruct (q - inject_Z (Qfloor q) ?= 1 # 2)%Q; [destruct (Z.even _)|..]; lia.
Qed.

Lemma round64_nonneg (q : Q) : (0 <= q)%Q -> (0 <= round64 q)%Q.
Proof.
  intros Hq. unfold round64.
  destruct (Qeq_bool (Qred q) 0); [apply Qle_refl|].
  assert (0 <= Qred q)%Q as Hq' by (by rewrite Qred_correct).
  apply Qle_bool_iff in Hq' as ->. rewrite Qred_correct.
  apply Qmult_le_0_compat.
  - change 0%Q with (inject_Z 0). rewrite <- Zle_Qle.
    apply nearest_even_nonneg. apply Qle_shift_div_l.
    + by apply Qpower_0_lt.
    + rewrite Qmult_0_l. apply Qabs_nonneg.
  - apply Qlt_le_weak. by apply Qpower_0_lt.
Qed.

(** The roundings that the properties below rest on, computed once more
    by the Standard Library's specification of binary64 arithmetic: the
    literals 1.1 and 2.55 as correctly rounded quotients, then the
    products and the quotient. *)
Lemma round64_as_specified :
  let mul := SpecFloat.SFmul 53 1024 in
  let div := SpecFloat.SFdiv 53 1024 in
  let onePointOne := div (binary64 11) (binary64 10) in
  let twoPointFiveFive := div (binary64 255) (binary64 100) in
  rational onePointOne = Some (literal (11 # 10)) /\
  rational twoPointFiveFive = Some (literal (255 # 100)) /\
  rational (mul (binary64 100) onePointOne) = Some (times 100 (literal (11 # 10))) /\
  rational (div (mul (binary64 100) onePointOne) (binary64 10))
  = Some (over (times 100 (literal (11 # 10))) 10) /\
  rational (mul twoPointFiveFive (binary64 20)) = Some (times (literal (255 # 100)) 20) /\
  rational (mul twoPointFiveFive (binary64 50)) = Some (times (literal (255 # 100)) 50) /\
  rational (mul twoPointFiveFive (binary64 90)) = Some (times (literal (255 # 100)) 90).
Proof. cbv zeta. repeat (split; [vm_compute; reflexivity|]). vm_compute; reflexivity. Qed.

(** The constants of [tickIncrement] are the doubles nearest to the square
    roots: the square of the midpoint to the double below is less than the
    number and the square of the midpoint to the double above is more. *)
Lemma square_roots :
  let near (x n : Q) :=
    let half := ((1 # 2) * 2 ^ (exponent x - 52))%Q in
    round64 x = x /\
    ((x - half) * (x - half) < n)%Q /\ (n < (x + half) * (x + half))%Q in
  near D3Nice.e10 50%Q /\ near D3Nice.e5 10%Q /\ near D3Nice.e2 2%Q.
Proof.
  cbv zeta. repeat split; vm_compute; reflexivity.
Qed.

End IeeeFacts.

(** ** The synchronised axes *)

Module SyncFacts.

Import Chart Notions Ieee D3Nice IeeeFacts.

Lemma Qmax_same (x : Q) : Qmax x x = x.
Proof. unfold Qmax, GenericMinMax.gmax. by destruct (x ?= x)%Q. Qed.

Section Rounded.

Context {engine : Engine}.

(** C5 (as amended).  In dual mode with [syncDualAxis] and no configured
    bound, for rows whose bar maximum is 100 and line maximum 50,
    [createScales] hands one pair to [.domain()] of both scales and rounds
    both with [nice()].  The upper bound of the pair is the product
    [Math.max(100, 50) * 1.1]: 110 in exact arithmetic, and in the double
    arithmetic of the engine the double next above 110.  With
    [includeZero] not switched off on either axis, the domain of both
    scales after [nice()] is [[0, 120]]. *)
Theorem synced_domains_rounded st st' cfg rows bm lm bmd :
  config st = Some cfg ->
  axisMode cfg = "dual" -> syncDualAxis cfg = true ->
  y_min (yAxisLeft cfg) = None -> y_max (yAxisLeft cfg) = None ->
  y_min (yAxisRight cfg) = None -> y_max (yAxisRight cfg) = None ->
  createScales st = Done st' ->
  deref st' (data st') = Some rows ->
  barMax cfg rows = Fin bm -> (bm == 100)%Q ->
  lineMax rows = Fin lm -> (lm == 50)%Q ->
  SyncDoubles.barMax64 cfg rows = Fin bmd -> (bmd == 100)%Q ->
  (exists l r lo hi,
     scale_at st' (yScaleLeft st') = Some l /\
     scale_at st' (yScaleRight st') = Some r /\
     domain l = (lo, Fin hi) /\ domain r = (lo, Fin hi) /\
     niced l = true /\ niced r = true /\
     (hi == 100 * (11 # 10))%Q) /\
  snd (SyncDoubles.handed cfg rows) = Fin (times 100 (literal (11 # 10))) /\
  (times 100 (literal (11 # 10)) == 110 + 1 / 2 ^ 46)%Q /\
  (not_false (y_includeZero (yAxisLeft cfg)) = true ->
   not_false (y_includeZero (yAxisRight cfg)) = true ->
   SyncDoubles.syncDomain cfg rows = (Fin 0, Fin 120)).
Proof.
  intros Hcfg Hmode Hsync Hlmin Hlmax Hrmin Hrmax Hrun Hrows Hbm Hbm100 Hlm Hlm50
    Hbmd Hbmd100.
  assert (snd (SyncDoubles.handed cfg rows) = Fin (times 100 (literal (11 # 10))))
    as Hhanded.
  { unfold SyncDoubles.handed, SyncDoubles.syncMax64, SyncDoubles.combinedMax64.
    rewrite Hlmax, Hrmax, Hbmd, Hlm. simpl. rewrite Qmax_same.
    f_equal. unfold times. apply round64_comp.
    assert (Qmax bmd lm == 100)%Q as ->; [|reflexivity].
    rewrite Q.max_l; [done|]. rewrite Hbmd100, Hlm50. done. }
  split; [|split; [exact Hhanded|split; [vm_compute; reflexivity|]]].
  - destruct (ChartFacts.synced_domains st st' cfg rows bm lm)
      as (l & r & lo & hi & Hl & Hr & Hdl & Hdr & Hnl & Hnr & Hhi & _); try done.
    by exists l, r, lo, hi.
  - intros Hzl Hzr. unfold SyncDoubles.syncDomain.
    assert (SyncDoubles.handed cfg rows
            = (Fin 0, Fin (times 100 (literal (11 # 10))))) as ->.
    { rewrite <- Hhanded. unfold SyncDoubles.handed at 1. cbn [snd]. f_equal.
      unfold SyncDoubles.syncMin64, SyncDoubles.autoMin64.
      by rewrite Hlmin, Hrmin, Hzl, Hzr. }
    vm_compute. reflexivity.
Qed.

End Rounded.

Lemma synced_domains_rounded_witness :
  snd (SyncDoubles.handed Samples.syncConfig Samples.rows100)
  = Fin (times 100 (literal (11 # 10))) /\
  SyncDoubles.syncDomain Samples.syncConfig Samples.rows100 = (Fin 0, Fin 120).
Proof.
  destruct (synced_domains_rounded (engine := Samples.utcEngine)
              (Samples.loaded Samples.rows100 Samples.syncConfig)
              (state_of (createScales (engine := Samples.utcEngine)
                           (Samples.loaded Samples.rows100 Samples.syncConfig)))
              Samples.syncConfig Samples.rows100 100 50 100)
    as (_ & Hhanded & _ & Hniced); try (vm_compute; reflexivity).
  split; [exact Hhanded|]. apply Hniced; reflexivity.
Defined.

(** C5, counterexample.  On rows with bar maximum 100 and line maximum 50,
    synchronised axes and no configured bound, the upper bound of the
    domain of both scales is 120 when [createScales] is done, not 110 and
    not the product 100 * 1.1: the product is the double next above 110,
    and [nice()] takes it to the next multiple of the tick increment
    10. *)
Lemma synced_upper_bound_is_120 :
  let cfg := Samples.syncConfig in
  let st' := state_of (createScales (engine := Samples.utcEngine)
                         (Samples.loaded Samples.rows100 cfg)) in
  exists l r rows,
    scale_at st' (yScaleLeft st') = Some l /\
    scale_at st' (yScaleRight st') = Some r /\
    niced l = true /\ niced r = true /\
    deref st' (data st') = Some rows /\
    barMax cfg rows = Fin 100 /\ lineMax rows = Fin 50 /\
    SyncDoubles.handed cfg rows = (Fin 0, Fin (times 100 (literal (11 # 10)))) /\
    SyncDoubles.syncDomain cfg rows = (Fin 0, Fin 120) /\
    ~ (120 == 110)%Q /\ ~ (120 == times 100 (literal (11 # 10)))%Q /\
    ~ (times 100 (literal (11 # 10)) == 110)%Q.
Proof.
  cbv zeta. eexists _, _, _.
  split; [vm_compute; reflexivity|]. split; [vm_compute; reflexivity|].
  split; [vm_compute; reflexivity|]. split; [vm_compute; reflexivity|].
  split; [vm_compute; reflexivity|]. split; [vm_compute; reflexivity|].
  split; [vm_compute; reflexivity|]. split; [vm_compute; reflexivity|].
  split; [vm_compute; reflexivity|].
  split; [|split]; vm_compute; intros H; discriminate H.
Qed.

End SyncFacts.

(** ** More on the chart engine *)

Module EngineFacts.

Import Chart Notions.

(** *** Margins and plot area *)

Lemma clamp_bounds (lo hi x : Q) :
  (lo <= hi)%Q -> (lo <= Qmax lo (Qmin hi x) <= hi)%Q.
Proof.
  intros Hle. split; [apply Q.le_max_l|].
  apply Q.max_lub; [done|apply Q.le_min_l].
Qed.

Ltac q_closed := unfold Qle, Qlt; simpl; lia.

Lemma margins_bounds cfg fn rect :
  let m := margins cfg fn rect in
  (20 <= m_top m <= 45)%Q /\ (45 <= m_bottom m <= 100)%Q /\
  (70 <= m_left m <= 135)%Q /\ (20 <= m_right m <= 100)%Q.
Proof.
  unfold margins. cbn [m_top m_bottom m_left m_right].
  set (base := (Qmin (fst rect) (snd rect) * (8 # 100))%Q).
  repeat split.
  - destruct (title_show (title cfg)); [|q_closed].
    pose proof (clamp_bounds 25 45 (base * (8 # 10))%Q ltac:(q_closed)). lra.
  - destruct (title_show (title cfg)); [|q_closed].
    pose proof (clamp_bounds 25 45 (base * (8 # 10))%Q ltac:(q_closed)). lra.
  - destruct (Qeq_bool _ 0); [|destruct (Qle_bool _ 45)];
      destruct (_ && _); q_closed.
  - destruct (Qeq_bool _ 0); [|destruct (Qle_bool _ 45)];
      destruct (_ && _); q_closed.
  - pose proof (clamp_bounds 70 110 (base * (14 # 10))%Q ltac:(q_closed)).
    destruct (y_showTitle (yAxisLeft cfg)); lra.
  - pose proof (clamp_bounds 70 110 (base * (14 # 10))%Q ltac:(q_closed)).
    destruct (y_showTitle (yAxisLeft cfg)); lra.
  - destruct (String.eqb (axisMode cfg) "dual"); [|q_closed].
    pose proof (clamp_bounds 50 80 (base * (11 # 10))%Q ltac:(q_closed)).
    destruct (y_showTitle (yAxisRight cfg)); lra.
  - destruct (String.eqb (axisMode cfg) "dual"); [|q_closed].
    pose proof (clamp_bounds 50 80 (base * (11 # 10))%Q ltac:(q_closed)).
    destruct (y_showTitle (yAxisRight cfg)); lra.
Qed.

Lemma plot_extent (total before after : Q) :
  let extent := Qmax 0 (total - before - after)%Q in
  (0 <= extent)%Q /\
  ((before + after <= total)%Q -> (before + extent + after == total)%Q) /\
  ((total <= before + after)%Q -> (extent == 0)%Q).
Proof.
  simpl. split; [apply Q.le_max_l|]. split; intros Hle.
  - rewrite Q.max_r by lra. ring.
  - apply Q.max_l. lra.
Qed.

(** X1.  [updateDimensions], for any container rectangle: the margins stay
    within fixed bounds (top 20 to 45, bottom 45 to 100, left 70 to 135,
    right 20 to 100), the plot width and height are never negative, the
    margins and the plot area fill the container exactly when the container
    is at least as large as the margins, and the plot area is empty when it
    is not. *)
Theorem plot_area_in_container cfg rect st :
  config st = Some cfg ->
  exists st',
    updateDimensions rect st = Done st' /\
    let m := margin st' in
    ((20 <= m_top m <= 45)%Q /\ (45 <= m_bottom m <= 100)%Q /\
     (70 <= m_left m <= 135)%Q /\ (20 <= m_right m <= 100)%Q) /\
    ((0 <= width st')%Q /\
     ((m_left m + m_right m <= fst rect)%Q ->
      (m_left m + width st' + m_right m == fst rect)%Q) /\
     ((fst rect <= m_left m + m_right m)%Q -> (width st' == 0)%Q)) /\
    ((0 <= height st')%Q /\
     ((m_top m + m_bottom m <= snd rect)%Q ->
      (m_top m + height st' + m_bottom m == snd rect)%Q) /\
     ((snd rect <= m_top m + m_bottom m)%Q -> (height st' == 0)%Q)).
Proof.
  intros Hcfg. unfold updateDimensions. rewrite Hcfg.
  eexists. split; [reflexivity|].
  cbn [margin width height with_dimensions].
  split; [apply margins_bounds|].
  split; apply plot_extent.
Qed.

Lemma plot_area_in_container_witness :
  exists st',
    updateDimensions (800, 600)%Q
      (Samples.loaded Samples.rowsAB Samples.defaultConfig) = Done st' /\
    (0 <= width st')%Q /\ (0 <= height st')%Q.
Proof.
  destruct (plot_area_in_container Samples.defaultConfig (800, 600)%Q
              (Samples.loaded Samples.rowsAB Samples.defaultConfig) eq_refl)
    as (st' & Hrun & _ & (Hw & _) & (Hh & _)).
  by exists st'.
Defined.

(** *** Automatic domains *)

Lemma foldl_Qmax_ge (l : list Q) (a : Q) :
  (a <= foldl Qmax a l)%Q /\ forall x, x ∈ l -> (x <= foldl Qmax a l)%Q.
Proof.
  revert a. induction l as [|y l IH]; intros a; simpl.
  - split; [lra|]. intros x Hx. by apply elem_of_nil in Hx.
  - destruct (IH (Qmax a y)) as [Ha Hl]. split.
    + pose proof (Q.le_max_l a y). lra.
    + intros x Hx. apply elem_of_cons in Hx as [->|Hx]; [|by apply Hl].
      pose proof (Q.le_max_r a y). lra.
Qed.

Lemma foldl_Qmin_le (l : list Q) (a : Q) :
  (foldl Qmin a l <= a)%Q /\ forall x, x ∈ l -> (foldl Qmin a l <= x)%Q.
Proof.
  revert a. induction l as [|y l IH]; intros a; simpl.
  - split; [lra|]. intros x Hx. by apply elem_of_nil in Hx.
  - destruct (IH (Qmin a y)) as [Ha Hl]. split.
    + pose proof (Q.le_min_l a y). lra.
    + intros x Hx. apply elem_of_cons in Hx as [->|Hx]; [|by apply Hl].
      pose proof (Q.le_min_r a y). lra.
Qed.

Lemma d3_max_ge {A} (f : A -> Q) (rows : list A) :
  rows <> [] ->
  exists m, d3_max (map f rows) = Fin m /\ forall d, d ∈ rows -> (f d <= m)%Q.
Proof.
  destruct rows as [|d0 rows]; [done|]. intros _. simpl.
  eexists. split; [reflexivity|].
  destruct (foldl_Qmax_ge (map f rows) (f d0)) as [H0 Hl].
  intros d Hd. apply elem_of_cons in Hd as [->|Hd]; [done|].
  apply Hl. by apply list_elem_of_fmap_2.
Qed.

Lemma d3_min_le {A} (f : A -> Q) (rows : list A) :
  rows <> [] ->
  exists m, d3_min (map f rows) = Fin m /\ forall d, d ∈ rows -> (m <= f d)%Q.
Proof.
  destruct rows as [|d0 rows]; [done|]. intros _. simpl.
  eexists. split; [reflexivity|].
  destruct (foldl_Qmin_le (map f rows) (f d0)) as [H0 Hl].
  intros d Hd. apply elem_of_cons in Hd as [->|Hd]; [done|].
  apply Hl. by apply list_elem_of_fmap_2.
Qed.

(** The bounds of the left domain when the left axis has no configured
    bound: the lower one is at most [autoMin] of the bar minimum, the upper
    one at least 1.1 times the bar maximum. *)
Lemma auto_left_domain cfg rows h bmin bmax :
  y_min (yAxisLeft cfg) = None -> y_max (yAxisLeft cfg) = None ->
  rows <> [] ->
  barMin rows = Fin bmin -> barMax cfg rows = Fin bmax -> (0 <= bmax)%Q ->
  exists lo hi,
    domain (leftScale cfg rows h) = (Fin lo, Fin hi) /\
    (lo <= (if not_false (y_includeZero (yAxisLeft cfg)) then 0
            else bmin * (9 # 10)))%Q /\
    (bmax * (11 # 10) <= hi)%Q.
Proof.
  intros Hmin Hmax Hrows Hbmin Hbmax Hpos.
  destruct (d3_min_le lineValue rows Hrows) as (lmin & Hlmin & _).
  destruct (d3_max_ge lineValue rows Hrows) as (lmax & Hlmax & _).
  unfold leftScale, yLeftMin, yLeftMax, syncMin, syncMax, sharedDomain,
    sharedMin, combinedMax, autoMin, lineMin, lineMax.
  rewrite Hmin, Hmax, Hbmin, Hbmax, Hlmin, Hlmax.
  cbn [or_auto or_auto_truthy].
  destruct (String.eqb (axisMode cfg) "dual"); [destruct (syncDualAxis cfg)|].
  - destruct (ChartFacts.autoMin_fin (yAxisRight cfg) lmin) as [ar Har].
    unfold autoMin in Har. rewrite Har.
    destruct (ChartFacts.or_auto_fin (y_min (yAxisRight cfg)) ar) as [x1 ->].
    destruct (ChartFacts.or_auto_fin (y_max (yAxisRight cfg))
                (Qmax bmax lmax * (11 # 10))%Q) as [x2 Hx2].
    cbn [nmul nmax num_lift2] in *. rewrite Hx2.
    destruct (not_false (y_includeZero (yAxisLeft cfg)));
      cbn [nmul nmin nmax num_lift2 set_domain nice domain];
      eexists _, _; (split; [reflexivity|]); (split; [apply Q.le_min_l|]).
    all: pose proof (Q.le_max_l (Qmax bmax lmax * (11 # 10)) x2);
      pose proof (Q.le_max_l bmax lmax); lra.
  - destruct (not_false (y_includeZero (yAxisLeft cfg)));
      cbn [nmul nmin nmax num_lift2 set_domain set_range nice domain];
      eexists _, _; (split; [reflexivity|]); split; lra.
  - destruct (not_false (y_includeZero (yAxisLeft cfg)));
      cbn [nmul nmin nmax num_lift2 set_domain set_range nice domain];
      eexists _, _; (split; [reflexivity|]); split; try lra.
    all: try (pose proof (Q.le_max_l bmax lmax); lra).
    pose proof (Q.le_min_l bmin lmin). lra.
Qed.

Section AutoDomains.

Context {engine : Engine}.

(** X2.  When the left axis has no configured minimum or maximum and no bar
    value is negative, every bar value lies within the domain that
    [createScales] hands to the left scale, in each axis mode; with stacked
    bars so does the sum of the two values, the top of the stack. *)
Theorem auto_domain_covers_bars st st' cfg :
  config st = Some cfg ->
  y_min (yAxisLeft cfg) = None -> y_max (yAxisLeft cfg) = None ->
  createScales st = Done st' ->
  exists rows l,
    deref st' (data st') = Some rows /\
    scale_at st' (yScaleLeft st') = Some l /\
    ((forall d, d ∈ rows -> (0 <= bar1Value d)%Q /\ (0 <= bar2Value d)%Q) ->
     rows <> [] ->
     exists lo hi,
       domain l = (Fin lo, Fin hi) /\
       forall d, d ∈ rows ->
         (lo <= bar1Value d <= hi)%Q /\ (lo <= bar2Value d <= hi)%Q /\
         (barStyle cfg = "stacked" -> (bar1Value d + bar2Value d <= hi)%Q)).
Proof.
  intros Hcfg Hmin Hmax Hrun.
  apply ChartFacts.createScales_inv in Hrun as (cfg0 & source & Hcfg0 & Hsrc & ->).
  rewrite Hcfg in Hcfg0. injection Hcfg0 as <-.
  eexists _, _.
  split; [apply ChartFacts.with_scales_data|].
  split; [apply ChartFacts.with_scales_left|].
  set (rows := DimSort.sortRows _ _ _ _).
  intros Hpos Hrows.
  destruct (d3_min_le (fun d => Qmin (bar1Value d) (bar2Value d)) rows Hrows)
    as (bmin & Hbmin & Hlow).
  assert (exists bmax,
            barMax cfg rows = Fin bmax /\
            forall d, d ∈ rows ->
              (bar1Value d <= bmax)%Q /\ (bar2Value d <= bmax)%Q /\
              (barStyle cfg = "stacked" -> (bar1Value d + bar2Value d <= bmax)%Q))
    as (bmax & Hbmax & Hhigh).
  { unfold barMax. destruct (String.eqb_spec (barStyle cfg) "stacked") as [Hst|Hst].
    - destruct (d3_max_ge stackedValue rows Hrows) as (m & Hm & Hle).
      exists m. split; [done|]. intros d Hd.
      specialize (Hle d Hd). unfold stackedValue in Hle.
      destruct (Hpos d Hd). split; [lra|]. split; [lra|]. intros _. lra.
    - destruct (d3_max_ge (fun d => Qmax (bar1Value d) (bar2Value d)) rows Hrows)
        as (m & Hm & Hle).
      exists m. split; [done|]. intros d Hd.
      specialize (Hle d Hd). simpl in Hle.
      pose proof (Q.le_max_l (bar1Value d) (bar2Value d)).
      pose proof (Q.le_max_r (bar1Value d) (bar2Value d)).
      split; [lra|]. split; [lra|]. done. }
  assert (0 <= bmax)%Q as Hbpos.
  { destruct rows as [|d0 rows']; [done|].
    destruct (Hhigh d0) as (H1 & _); [apply list_elem_of_here|].
    destruct (Hpos d0); [apply list_elem_of_here|]. lra. }
  assert (0 <= bmin)%Q as Hmpos.
  { destruct rows as [|d0 rows']; [done|]. simpl in Hbmin.
    injection Hbmin as <-.
    assert (forall l a, (0 <= a)%Q -> (forall x, x ∈ l -> (0 <= x)%Q) ->
                        (0 <= foldl Qmin a l)%Q) as Hfold.
    { induction l as [|y l IH]; intros a Ha Hl; simpl; [done|].
      apply IH.
      - apply Q.min_glb; [done|]. apply Hl, list_elem_of_here.
      - intros x Hx. apply Hl. by apply list_elem_of_further. }
    apply Hfold.
    - destruct (Hpos d0); [apply list_elem_of_here|]. by apply Q.min_glb.
    - intros x Hx. apply list_elem_of_fmap in Hx as (d & -> & Hd).
      destruct (Hpos d); [by apply list_elem_of_further|]. by apply Q.min_glb. }
  destruct (auto_left_domain cfg rows (height st) bmin bmax)
    as (lo & hi & Hdom & Hlo & Hhi); try done.
  exists lo, hi. split; [exact Hdom|].
  intros d Hd. specialize (Hlow d Hd). simpl in Hlow.
  destruct (Hhigh d Hd) as (H1 & H2 & H3).
  pose proof (Q.le_min_l (bar1Value d) (bar2Value d)).
  pose proof (Q.le_min_r (bar1Value d) (bar2Value d)).
  assert (lo <= bmin)%Q.
  { destruct (not_false (y_includeZero (yAxisLeft cfg))); lra. }
  split; [lra|]. split; [lra|].
  intros Hst. specialize (H3 Hst). lra.
Qed.

End AutoDomains.

Lemma auto_domain_covers_bars_witness :
  exists rows l,
    let st' := state_of (createScales (engine := Samples.utcEngine)
                           (Samples.loaded Samples.rowsAB Samples.defaultConfig)) in
    deref st' (data st') = Some rows /\
    scale_at st' (yScaleLeft st') = Some l /\
    exists lo hi,
      domain l = (Fin lo, Fin hi) /\
      forall d, d ∈ rows -> (lo <= bar1Value d <= hi)%Q.
Proof.
  destruct (auto_domain_covers_bars (engine := Samples.utcEngine)
              (Samples.loaded Samples.rowsAB Samples.defaultConfig) _
              Samples.defaultConfig eq_refl eq_refl eq_refl eq_refl)
    as (rows & l & Hrows & Hl & Hcover).
  exists rows, l. split; [exact Hrows|]. split; [exact Hl|].
  vm_compute in Hrows. injection Hrows as <-.
  destruct Hcover as (lo & hi & Hdom & Hin).
  - intros d Hd.
    apply elem_of_cons in Hd as [->|Hd]; [split; q_closed|].
    apply elem_of_cons in Hd as [->|Hd]; [split; q_closed|].
    by apply elem_of_nil in Hd.
  - done.
  - exists lo, hi. split; [exact Hdom|]. intros d Hd. by destruct (Hin d Hd).
Defined.

Lemma barMax_fin cfg rows : rows <> [] -> exists m, barMax cfg rows = Fin m.
Proof.
  intros Hrows. unfold barMax. destruct (String.eqb _ _).
  - destruct (d3_max_ge stackedValue rows Hrows) as (m & -> & _). by eexists.
  - destruct (d3_max_ge (fun d => Qmax (bar1Value d) (bar2Value d)) rows Hrows)
      as (m & -> & _). by eexists.
Qed.

Section LineDomain.

Context {engine : Engine}.

(** X3.  When the axis the line is measured on (the right one in dual mode,
    the left one in shared mode) has no configured minimum or maximum and no
    line value is negative, every line value lies within the domain that
    [createScales] hands to the scale of the line. *)
Theorem auto_domain_covers_line st st' cfg :
  config st = Some cfg ->
  (if String.eqb (axisMode cfg) "dual"
   then y_min (yAxisRight cfg) = None /\ y_max (yAxisRight cfg) = None
   else y_min (yAxisLeft cfg) = None /\ y_max (yAxisLeft cfg) = None) ->
  createScales st = Done st' ->
  exists rows s,
    deref st' (data st') = Some rows /\
    LineMark.lineScale cfg st' = Some s /\
    ((forall d, d ∈ rows -> (0 <= lineValue d)%Q) -> rows <> [] ->
     exists lo hi,
       domain s = (Fin lo, Fin hi) /\
       forall d, d ∈ rows -> (lo <= lineValue d <= hi)%Q).
Proof.
  intros Hcfg Hauto Hrun.
  apply ChartFacts.createScales_inv in Hrun as (cfg0 & source & Hcfg0 & Hsrc & ->).
  rewrite Hcfg in Hcfg0. injection Hcfg0 as <-.
  set (rows := DimSort.sortRows _ _ _ _).
  exists rows.
  assert (forall lmin lmax bmin bmax,
            rows <> [] ->
            lineMin rows = Fin lmin -> lineMax rows = Fin lmax ->
            barMin rows = Fin bmin -> barMax cfg rows = Fin bmax ->
            (0 <= lmin)%Q -> (0 <= lmax)%Q ->
            exists lo hi,
              domain (if String.eqb (axisMode cfg) "dual"
                      then rightScale cfg rows (height st)
                      else leftScale cfg rows (height st)) = (Fin lo, Fin hi) /\
              (lo <= lmin)%Q /\ (lmax <= hi)%Q) as Hdomain.
  { intros lmin lmax bmin bmax Hrows Hlmin Hlmax Hbmin Hbmax Hp1 Hp2.
    destruct (String.eqb (axisMode cfg) "dual") eqn:Hmode.
    - destruct Hauto as [Hmin Hmax].
      rewrite ChartFacts.rightScale_domain.
      unfold syncMin, syncMax, yRightMin, yRightMax, combinedMax, autoMin.
      rewrite Hmin, Hmax, Hlmin, Hlmax, Hbmin, Hbmax. cbn [or_auto].
      destruct (syncDualAxis cfg).
      + assert (exists al,
                  (if not_false (y_includeZero (yAxisLeft cfg)) then Fin 0
                   else nmul (Fin bmin) (Fin (9 # 10))) = Fin al) as [al ->].
        { destruct (not_false _); by eexists. }
        destruct (ChartFacts.or_auto_fin (y_min (yAxisLeft cfg)) al) as [x1 ->].
        destruct (ChartFacts.or_auto_fin (y_max (yAxisLeft cfg))
                    (Qmax bmax lmax * (11 # 10))%Q) as [x2 Hx2].
        cbn [nmul nmax num_lift2] in *. rewrite Hx2.
        destruct (not_false (y_includeZero (yAxisRight cfg)));
          cbn [nmul nmin nmax num_lift2];
          eexists _, _; (split; [reflexivity|]).
        * pose proof (Q.le_min_r x1 0).
          pose proof (Q.le_max_r x2 (Qmax bmax lmax * (11 # 10))).
          pose proof (Q.le_max_r bmax lmax). split; lra.
        * pose proof (Q.le_min_r x1 (lmin * (9 # 10))).
          pose proof (Q.le_max_r x2 (Qmax bmax lmax * (11 # 10))).
          pose proof (Q.le_max_r bmax lmax). split; lra.
      + destruct (not_false (y_includeZero (yAxisRight cfg)));
          cbn [nmul num_lift2]; eexists _, _; (split; [reflexivity|]); split; lra.
    - destruct Hauto as [Hmin Hmax].
      unfold leftScale. rewrite Hmode.
      cbn [nice set_domain domain].
      unfold sharedDomain, sharedMin, combinedMax.
      rewrite Hmin, Hmax, Hlmin, Hlmax, Hbmin, Hbmax.
      cbn [or_auto or_auto_truthy nmul nmin nmax num_lift2].
      pose proof (Q.le_max_r bmax lmax).
      pose proof (Q.le_min_r bmin lmin).
      destruct (not_false (y_includeZero (yAxisLeft cfg)));
        eexists _, _; (split; [reflexivity|]); split; lra. }
  exists (if String.eqb (axisMode cfg) "dual"
          then rightScale cfg rows (height st)
          else leftScale cfg rows (height st)).
  split; [apply ChartFacts.with_scales_data|].
  split.
  { unfold LineMark.lineScale.
    rewrite ChartFacts.with_scales_right, ChartFacts.with_scales_left.
    destruct (String.eqb (axisMode cfg) "dual"); reflexivity. }
  intros Hpos Hrows.
  destruct (d3_min_le lineValue rows Hrows) as (lmin & Hlmin & Hlow).
  destruct (d3_max_ge lineValue rows Hrows) as (lmax & Hlmax & Hhigh).
  destruct (d3_min_le (fun d => Qmin (bar1Value d) (bar2Value d)) rows Hrows)
    as (bmin & Hbmin & _).
  destruct (barMax_fin cfg rows Hrows) as [bmax Hbmax].
  assert (0 <= lmax)%Q as Hp2.
  { destruct rows as [|d0 rows']; [done|].
    specialize (Hhigh d0 (list_elem_of_here _ _)).
    specialize (Hpos d0 (list_elem_of_here _ _)). lra. }
  assert (0 <= lmin)%Q as Hp1.
  { destruct rows as [|d0 rows']; [done|]. simpl in Hlmin.
    injection Hlmin as <-.
    assert (forall l a, (0 <= a)%Q -> (forall x, x ∈ l -> (0 <= x)%Q) ->
                        (0 <= foldl Qmin a l)%Q) as Hfold.
    { induction l as [|y l IH]; intros a Ha Hl; simpl; [done|].
      apply IH.
      - apply Q.min_glb; [done|]. apply Hl, list_elem_of_here.
      - intros x Hx. apply Hl. by apply list_elem_of_further. }
    apply Hfold.
    - apply Hpos, list_elem_of_here.
    - intros x Hx. apply list_elem_of_fmap in Hx as (d & -> & Hd).
      apply Hpos. by apply list_elem_of_further. }
  destruct (Hdomain lmin lmax bmin bmax) as (lo & hi & Hdom & Hlo & Hhi); try done.
  exists lo, hi. split; [exact Hdom|].
  intros d Hd. specialize (Hlow d Hd). specialize (Hhigh d Hd). lra.
Qed.

End LineDomain.

Lemma auto_domain_covers_line_witness :
  exists rows s,
    let st' := state_of (createScales (engine := Samples.utcEngine)
                           (Samples.loaded Samples.rowsAB Samples.sharedConfig)) in
    deref st' (data st') = Some rows /\
    LineMark.lineScale Samples.sharedConfig st' = Some s.
Proof.
  destruct (auto_domain_covers_line (engine := Samples.utcEngine)
              (Samples.loaded Samples.rowsAB Samples.sharedConfig) _
              Samples.sharedConfig eq_refl (conj eq_refl eq_refl) eq_refl)
    as (rows & s & Hrows & Hs & _).
  by exists rows, s.
Defined.

(** *** Bars inside their band *)

Lemma grouped_width_bounds (bandWidth gap pct : Q) :
  (0 <= pct <= 100)%Q -> (0 <= gap <= bandWidth)%Q ->
  let w := groupedBarWidth bandWidth gap pct in
  (0 <= w)%Q /\ (w * 2 + gap <= bandWidth)%Q.
Proof.
  intros [Hp0 Hp1] [Hg0 Hg1]. simpl.
  assert (0 <= autoBarWidth bandWidth gap)%Q as Hauto.
  { unfold autoBarWidth. apply Qle_shift_div_l; [done|]. lra. }
  pose proof (ChartFacts.scaled_width_le _ _ Hauto Hp1) as Hle.
  assert (0 <= pct / 100)%Q as Hfrac.
  { apply Qle_shift_div_l; [done|]. lra. }
  pose proof (Qmult_le_0_compat _ _ Hauto Hfrac) as Hw.
  unfold groupedBarWidth. split; [exact Hw|].
  assert (autoBarWidth bandWidth gap * 2 + gap == bandWidth)%Q as Hsum.
  { unfold autoBarWidth. field. }
  lra.
Qed.

Section Bands.

Context {d3 : D3} {engine : Engine}.

(** X4.  Grouped bars, for every row whose dimension the band scale places
    at [x0]: both bars have the same width, the second starts one [barGap]
    to the right of the end of the first, and when the percentage is between
    0 and 100 and the gap between 0 and the band width, the pair lies inside
    the band [[x0, x0 + bandWidth]] with equal space on both sides. *)
Theorem grouped_bars_inside_band rows fn cfg rect st :
  wf_state st -> barStyle cfg = "grouped" ->
  exists st' xs,
    render_rows rows fn cfg rect st = Done st' /\
    xScale st' = Some xs /\
    let bandWidth := bandwidth xs in
    let gap := default 4%Q (barGap cfg) in
    let percent := default 100%Q (barWidth cfg) in
    forall i d x0,
      sortedData cfg rows !! i = Some d ->
      band_call xs (dimension d) = Fin x0 ->
      exists b1 b2 x1 x2,
        bars1 (drawing st') !! i = Some b1 /\
        bars2 (drawing st') !! i = Some b2 /\
        rect_x b1 = Fin x1 /\ rect_x b2 = Fin x2 /\
        rect_width b2 = rect_width b1 /\
        (x2 == x1 + rect_width b1 + gap)%Q /\
        ((0 <= percent <= 100)%Q -> (0 <= gap <= bandWidth)%Q ->
         (x0 <= x1)%Q /\ (x2 + rect_width b2 <= x0 + bandWidth)%Q /\
         (x1 - x0 == x0 + bandWidth - (x2 + rect_width b2))%Q).
Proof.
  intros Hwf Hstyle.
  destruct (ChartFacts.render_rows_done rows fn cfg rect st Hwf)
    as (st' & Hrun & Hfacts).
  destruct Hfacts as [_ _ _ _ _ Hxs Hys Hbars _ _].
  eexists st', _. split; [exact Hrun|]. split; [exact Hxs|].
  specialize (Hbars _ _ Hxs Hys).
  unfold drawBars in Hbars. rewrite Hstyle in Hbars. simpl in Hbars.
  injection Hbars as Hb1 Hb2.
  cbv zeta. intros i d x0 Hi Hx0.
  rewrite Hb1, Hb2. unfold groupedBars1, groupedBars2.
  rewrite !list_lookup_fmap, Hi. simpl. rewrite Hx0. simpl.
  eexists _, _, _, _.
  split; [reflexivity|]. split; [reflexivity|].
  split; [reflexivity|]. split; [reflexivity|].
  split; [reflexivity|]. simpl.
  set (bw := bandwidth _). set (gap := default 4%Q (barGap cfg)).
  set (pct := default 100%Q (barWidth cfg)).
  split; [ring|].
  intros Hpct Hgap.
  destruct (grouped_width_bounds bw gap pct Hpct Hgap) as [Hw Hfit].
  assert (groupOffset bw gap pct
          == (bw - (groupedBarWidth bw gap pct * 2 + gap)) * (1 # 2))%Q as Hoff.
  { unfold groupOffset, groupWidth. rewrite Q.min_l by exact Hfit. field. }
  rewrite Hoff. set (w := groupedBarWidth bw gap pct) in *.
  split; [lra|]. split; [lra|]. ring.
Qed.

(** X5.  Stacked bars, for every row whose dimension the band scale places
    at [x0]: the two segments have the same left edge and width and their
    centre is the centre of the band, for every [barWidth]; with bar labels
    shown, both labels are at that centre shifted by their configured
    offset; and the bar lies inside the band when the percentage is between
    0 and 100 and the band is at least 4 wide. *)
Theorem stacked_bars_centred rows fn cfg rect st :
  wf_state st -> barStyle cfg = "stacked" ->
  exists st' xs,
    render_rows rows fn cfg rect st = Done st' /\
    xScale st' = Some xs /\
    let bandWidth := bandwidth xs in
    let percent := default 100%Q (barWidth cfg) in
    forall i d x0,
      sortedData cfg rows !! i = Some d ->
      band_call xs (dimension d) = Fin x0 ->
      exists b1 b2 x,
        bars1 (drawing st') !! i = Some b1 /\
        bars2 (drawing st') !! i = Some b2 /\
        rect_x b1 = Fin x /\ rect_x b2 = Fin x /\
        rect_width b2 = rect_width b1 /\
        (x + rect_width b1 / 2 == x0 + bandWidth / 2)%Q /\
        ((0 <= percent <= 100)%Q -> (4 <= bandWidth)%Q ->
         (x0 <= x)%Q /\ (x + rect_width b1 <= x0 + bandWidth)%Q) /\
        (bl_show (barLabels cfg) = true ->
         exists l1 l2 dx1 dx2,
           barLabels1 (drawing st') !! i = Some l1 /\
           barLabels2 (drawing st') !! i = Some l2 /\
           num_eq (label_x l1) (Fin (x + rect_width b1 / 2 + dx1)%Q) /\
           num_eq (label_x l2) (Fin (x + rect_width b2 / 2 + dx2)%Q) /\
           dx1 = q_or (lf_offsetX (labelFont (bar1LabelFont cfg) (barLabelFont cfg)))
                      (bl_offsetX (barLabels cfg)) /\
           dx2 = q_or (lf_offsetX (labelFont (bar2LabelFont cfg) (barLabelFont cfg)))
                      (bl_offsetX (barLabels cfg))).
Proof.
  intros Hwf Hstyle.
  destruct (ChartFacts.render_rows_done rows fn cfg rect st Hwf)
    as (st' & Hrun & Hfacts).
  destruct Hfacts as [_ _ _ _ _ Hxs Hys Hbars Hlabels _].
  eexists st', _. split; [exact Hrun|]. split; [exact Hxs|].
  specialize (Hbars _ _ Hxs Hys). specialize (Hlabels _ _ Hxs Hys).
  unfold drawBars in Hbars. rewrite Hstyle in Hbars. simpl in Hbars.
  injection Hbars as Hb1 Hb2.
  cbv zeta. intros i d x0 Hi Hx0.
  rewrite Hb1, Hb2. unfold stackedBars1, stackedBars2.
  rewrite !list_lookup_fmap, Hi. simpl. rewrite Hx0. simpl.
  eexists _, _, _.
  split; [reflexivity|]. split; [reflexivity|].
  split; [reflexivity|]. split; [reflexivity|].
  split; [reflexivity|]. simpl.
  set (bw := bandwidth _). set (pct := default 100%Q (barWidth cfg)).
  unfold stackOffset. set (w := stackedBarWidth bw pct).
  split; [field|]. split.
  - intros [Hp0 Hp1] Hbw.
    assert (0 <= bw - 4)%Q as Hauto by lra.
    pose proof (ChartFacts.scaled_width_le _ _ Hauto Hp1) as Hle.
    assert (0 <= pct / 100)%Q as Hfrac.
    { apply Qle_shift_div_l; [done|]. lra. }
    pose proof (Qmult_le_0_compat _ _ Hauto Hfrac) as Hw.
    fold (stackedBarWidth bw pct) in Hw, Hle. fold w in Hw, Hle.
    assert ((bw - w) / 2 == bw * (1 # 2) - w * (1 # 2))%Q as Hhalf by field.
    split; lra.
  - intros Hshow. unfold drawLabels in Hlabels. rewrite Hshow in Hlabels.
    injection Hlabels as Hl1 Hl2. rewrite Hl1, Hl2.
    rewrite !list_lookup_fmap, Hi. simpl.
    eexists _, _, _, _.
    split; [reflexivity|]. split; [reflexivity|].
    unfold bar1LabelX, bar2LabelX. rewrite Hstyle. simpl. rewrite Hx0. simpl.
    fold bw. split; [|split; [|split; reflexivity]]; field.
Qed.

End Bands.

Lemma grouped_bars_inside_band_witness :
  exists st' xs,
    render_rows (d3 := Samples.plainD3) (engine := Samples.utcEngine)
      Samples.rowsAB Samples.sampleFieldNames Samples.labelledConfig
      (800, 600)%Q initial = Done st' /\
    xScale st' = Some xs.
Proof.
  destruct (grouped_bars_inside_band (d3 := Samples.plainD3)
              (engine := Samples.utcEngine)
              Samples.rowsAB Samples.sampleFieldNames Samples.labelledConfig
              (800, 600)%Q initial)
    as (st' & xs & Hrun & Hxs & _).
  { split; exact I. }
  { reflexivity. }
  by exists st', xs.
Defined.

Lemma stacked_bars_centred_witness :
  exists st' xs,
    render_rows (d3 := Samples.plainD3) (engine := Samples.utcEngine)
      Samples.rowsAB Samples.sampleFieldNames Samples.stackedConfig
      (800, 600)%Q initial = Done st' /\
    xScale st' = Some xs.
Proof.
  destruct (stacked_bars_centred (d3 := Samples.plainD3)
              (engine := Samples.utcEngine)
              Samples.rowsAB Samples.sampleFieldNames Samples.stackedConfig
              (800, 600)%Q initial)
    as (st' & xs & Hrun & Hxs & _).
  { split; exact I. }
  { reflexivity. }
  by exists st', xs.
Defined.

(** *** Sorting inside [createScales] *)

Section SortedCopy.

Context {engine : Engine}.

(** X6.  [createScales] sorts a copy: every array already in the store, the
    cached original among them, is left as it was; the one array it adds
    holds the rows of its source, each as often as there, whatever the sort
    setting; with ['reverse'] it is the source reversed, and with a setting
    other than ['asc'], ['desc'] and ['reverse'] (or none) the source as it
    is.  The domain of the x scale lists the dimensions of that array. *)
Theorem createScales_sorts_a_copy st st' cfg :
  config st = Some cfg ->
  createScales st = Done st' ->
  exists source sorted xs,
    deref st (dataSource st) = Some source /\
    arrays st' = arrays st ++ [sorted] /\
    (forall a rows, arrays st !! a = Some rows -> arrays st' !! a = Some rows) /\
    deref st' (data st') = Some sorted /\
    originalData st' = originalData st /\
    sorted ≡ₚ source /\
    xScale st' = Some xs /\ band_domain xs = map dimension sorted /\
    let order := str_or (x_sort (xAxis cfg)) "default" in
    (order = "reverse" -> sorted = rev source) /\
    (order <> "asc" -> order <> "desc" -> order <> "reverse" -> sorted = source).
Proof.
  intros Hcfg Hrun.
  apply ChartFacts.createScales_inv in Hrun as (cfg0 & source & Hcfg0 & Hsrc & ->).
  rewrite Hcfg in Hcfg0. injection Hcfg0 as <-.
  eexists source, _, _. split; [exact Hsrc|].
  split; [reflexivity|].
  split. { intros a rows Ha. simpl. by apply lookup_app_l_Some. }
  split; [apply ChartFacts.with_scales_data|].
  split; [reflexivity|].
  split; [apply SortFacts.sortRows_perm|].
  split; [reflexivity|]. split; [reflexivity|].
  cbv zeta. unfold DimSort.sortRows. split.
  - intros ->. reflexivity.
  - intros H1 H2 H3.
    apply String.eqb_neq in H1, H2, H3. by rewrite H1, H2, H3.
Qed.

End SortedCopy.

Lemma createScales_sorts_a_copy_witness :
  exists sorted,
    let st := Samples.loaded Samples.rowsAB
                (Samples.with_sort "reverse" Samples.defaultConfig) in
    let st' := state_of (createScales (engine := Samples.utcEngine) st) in
    arrays st' = arrays st ++ [sorted] /\ sorted = rev Samples.rowsAB.
Proof.
  destruct (createScales_sorts_a_copy (engine := Samples.utcEngine)
              (Samples.loaded Samples.rowsAB
                 (Samples.with_sort "reverse" Samples.defaultConfig)) _
              (Samples.with_sort "reverse" Samples.defaultConfig)
              eq_refl eq_refl)
    as (source & sorted & xs & Hsrc & Harr & _ & _ & _ & _ & _ & _ & Hrev & _).
  exists sorted. split; [exact Harr|].
  injection Hsrc as <-. by apply Hrev.
Defined.

Section Stable.

Context {A : Type} (cmp : A -> A -> Z) (P : A -> Prop) `{!forall x, Decision (P x)}.

Hypothesis peers : forall x y, P x -> P y -> (cmp x y <= 0)%Z.

Lemma insert_by_filter x l :
  filter P (DimSort.insert_by cmp x l) = filter P (x :: l).
Proof.
  induction l as [|y l IH]; simpl; [done|].
  destruct (Z.leb_spec (cmp x y) 0) as [Hle|Hgt]; [done|].
  rewrite !filter_cons in *. rewrite IH.
  destruct (decide (P x)) as [Hx|Hx], (decide (P y)) as [Hy|Hy]; try done.
  specialize (peers x y Hx Hy). lia.
Qed.

Lemma js_sort_filter l : filter P (DimSort.js_sort cmp l) = filter P l.
Proof.
  induction l as [|x l IH]; simpl; [done|].
  rewrite insert_by_filter, !filter_cons. by rewrite IH.
Qed.

End Stable.

(** X7.  The sort by ['asc'] or ['desc'] is stable: among the rows of a
    column read as dates, those with the same timestamp keep the order they
    had in the input, and among the rows of a column read as text, those
    with the same dimension value do, provided the locale comparison finds a
    string equal to itself. *)
Theorem sort_is_stable (dateParse : string -> option Z)
    (localeCompare : string -> string -> Z) (order : string) (rows : list Row) :
  order = "asc" \/ order = "desc" ->
  (forall s, localeCompare s s = 0%Z) ->
  let sorted := DimSort.sortRows dateParse localeCompare order rows in
  (DimSort.isDateData dateParse rows = true ->
   forall t, filter (fun r => DimSort.dateKey dateParse r = t) sorted
             = filter (fun r => DimSort.dateKey dateParse r = t) rows) /\
  (DimSort.isDateData dateParse rows = false ->
   forall s, filter (fun r => dimension r = s) sorted
             = filter (fun r => dimension r = s) rows).
Proof.
  intros Horder Hrefl. cbv zeta. unfold DimSort.sortRows.
  assert (String.eqb order "asc" || String.eqb order "desc" = true) as ->.
  { destruct Horder as [-> | ->]; reflexivity. }
  split; intros -> k.
  - apply js_sort_filter. intros x y Hx Hy.
    unfold DimSort.dateCompare. rewrite Hx, Hy. destruct (String.eqb _ _); lia.
  - apply js_sort_filter. intros x y Hx Hy.
    unfold DimSort.alphaCompare. rewrite Hx, Hy, Hrefl.
    destruct (String.eqb _ _); lia.
Qed.

Lemma codeUnitCompare_refl s : Samples.codeUnitCompare s s = 0%Z.
Proof.
  unfold Samples.codeUnitCompare.
  destruct (String_as_OT.cmp s s) eqn:Hc; [done| |].
  - apply String_as_OT.cmp_lt in Hc. by apply String_as_OT.lt_not_eq in Hc.
  - pose proof (String_as_OT.cmp_antisym s s) as Ha. rewrite Hc in Ha.
    simpl in Ha. congruence.
Qed.

Lemma sort_is_stable_witness :
  filter (fun r => dimension r = "A")
    (DimSort.sortRows Samples.utcDateParse Samples.codeUnitCompare "desc"
       [Samples.row "A" 1 0 0; Samples.row "B" 2 0 0; Samples.row "A" 3 0 0])
  = [Samples.row "A" 1 0 0; Samples.row "A" 3 0 0].
Proof.
  destruct (sort_is_stable Samples.utcDateParse Samples.codeUnitCompare "desc"
              [Samples.row "A" 1 0 0; Samples.row "B" 2 0 0; Samples.row "A" 3 0 0]
              (or_intror eq_refl) codeUnitCompare_refl) as [_ Htext].
  rewrite (Htext eq_refl "A"). reflexivity.
Defined.

(** *** Animation after the first render *)

Section Animation.

Context {d3 : D3} {engine : Engine}.

Lemma render_clears_isFirstRender d fn cfg rect st st' :
  render d fn cfg rect st = Done st' -> isFirstRender st' = false.
Proof.
  unfold render, and_then.
  repeat (match goal with
          | |- context [match ?m ?s with Done _ => _ | Thrown _ _ => _ end] =>
              destruct (m s); [|done]
          end).
  by intros [= <-].
Qed.

(** X8.  Only the first render runs its transitions at the configured
    duration: on the object as created [getAnimation] gives the full
    duration, and after any completed [render] it gives half of it, unless
    [forceAnimationPreview] is set; transitions are enabled unless
    [animation.enabled] is false, and without [animation] in the
    configuration the duration is taken as 500. *)
Theorem later_renders_animate_faster d fn cfg0 rect st st' cfg :
  render d fn cfg0 rect st = Done st' ->
  let anim := default {| anim_enabled := true; anim_duration := 500 |}
                      (animation cfg) in
  getAnimation cfg initial = (anim_enabled anim, anim_duration anim) /\
  getAnimation cfg st' =
    (anim_enabled anim,
     if forceAnimationPreview cfg then anim_duration anim
     else (anim_duration anim * (5 # 10))%Q).
Proof.
  intros Hrun. apply render_clears_isFirstRender in Hrun.
  unfold getAnimation. rewrite Hrun. split; reflexivity.
Qed.

End Animation.

Lemma later_renders_animate_faster_witness :
  getAnimation Samples.defaultConfig
    (state_of (render_rows (d3 := Samples.plainD3) (engine := Samples.utcEngine)
                 Samples.rowsAB Samples.sampleFieldNames Samples.defaultConfig
                 (800, 600)%Q initial))
  = (true, (500 * (5 # 10))%Q).
Proof.
  refine (proj2 (later_renders_animate_faster (d3 := Samples.plainD3)
                   (engine := Samples.utcEngine)
                   (RAddr 0) (Some Samples.sampleFieldNames)
                   (Some Samples.defaultConfig) (800, 600)%Q
                   (new_array Samples.rowsAB initial) _ Samples.defaultConfig _)).
  vm_compute. reflexivity.
Defined.

(** *** The line and its labels *)

Section LineLabels.

Context {d3 : D3} {engine : Engine}.

Lemma render_rows_scales rows fn cfg rect st :
  wf_state st ->
  exists st',
    render_rows rows fn cfg rect st = Done st' /\
    deref st' (data st') = Some (sortedData cfg rows) /\
    config st' = Some cfg /\
    xScale st' =
      Some {| band_domain := map dimension (sortedData cfg rows);
              band_range := (0%Q, width st');
              band_padding := barPadding cfg |} /\
    scale_at st' (yScaleLeft st') =
      Some (leftScale cfg (sortedData cfg rows) (height st')) /\
    scale_at st' (yScaleRight st') =
      Some (if String.eqb (axisMode cfg) "dual"
            then rightScale cfg (sortedData cfg rows) (height st')
            else leftScale cfg (sortedData cfg rows) (height st')).
Proof.
  intros [Hdata _]. unfold render_rows, render.
  assert (deref (new_array rows st)
            (dataSource (stored (RAddr (length (arrays st))) (Some fn) (Some cfg)
                           (new_array rows st))) = Some rows) as Hsrc.
  { unfold dataSource. ChartFacts.cbn_state.
    assert (ref_eqb (RAddr (length (arrays st))) (data st) = false) as ->.
    { destruct (data st) as [| |a]; simpl in *; try done.
      apply Nat.eqb_neq. lia. }
    simpl. by apply list_lookup_middle. }
  destruct (forceAnimationPreview cfg) eqn:Hprev;
    (eexists; split;
     [eapply ChartFacts.and_then_done; [reflexivity|];
      eapply ChartFacts.and_then_done;
        [unfold check_preview; rewrite Hprev; reflexivity|];
      eapply ChartFacts.and_then_done; [reflexivity|];
      eapply ChartFacts.and_then_done;
        [apply (ChartFacts.createScales_done _ cfg rows); [reflexivity|exact Hsrc]|];
      eapply ChartFacts.and_then_done;
        [eapply (ChartFacts.renderBars_done _ cfg);
           [reflexivity|reflexivity
           |apply ChartFacts.with_scales_left|apply ChartFacts.with_scales_data]|];
      eapply ChartFacts.and_then_done;
        [eapply (ChartFacts.renderLabels_done _ cfg);
           [reflexivity|reflexivity
           |apply ChartFacts.with_scales_left|apply ChartFacts.with_scales_data]|];
      eapply ChartFacts.and_then_done;
        [apply (ChartFacts.renderLegend_done _ cfg); reflexivity|];
      reflexivity|]);
    destruct (legend_show (legend cfg));
    cbn [negb]; ChartFacts.cbn_state;
    (split; [by apply list_lookup_middle|]);
    (split; [reflexivity|]); (split; [reflexivity|]);
    (split; [by apply list_lookup_middle|]);
    destruct (String.eqb (axisMode cfg) "dual");
    try (by apply list_lookup_middle);
    rewrite lookup_app_r by lia;
    by replace (S (length (scales st)) - length (scales st))%nat with 1%nat by lia.
Qed.

(** X9.  After a render the line goes through one point per row, in the
    order of the x axis, and each line label is its point shifted: by 10 to
    the left or right for the positions ['left'] and ['right'], by 10 up for
    ['top'] (also when no position is set), 18 down for ['bottom'] and 4
    down otherwise, plus the configured offsets.  Points and labels are
    measured on the same scale, the right one in dual mode and the left one
    in shared mode. *)
Theorem line_labels_follow_points rows fn cfg rect st (ll : LineMark.LineLabelsConfig) :
  wf_state st -> LineMark.ll_show ll = true ->
  exists st' points labels,
    render_rows rows fn cfg rect st = Done st' /\
    LineMark.drawLine st' = Some points /\
    LineMark.drawLineLabels ll st' = Some labels /\
    length points = length rows /\ length labels = length rows /\
    forall i p l x y,
      points !! i = Some p -> labels !! i = Some l ->
      LineMark.point_x p = Fin x -> LineMark.point_y p = Fin y ->
      let shift := LineMark.labelShift (str_or (LineMark.ll_position ll) "top") in
      num_eq (label_x l) (Fin (x + fst shift + q_or (LineMark.ll_offsetX ll) 0)%Q) /\
      num_eq (label_y l) (Fin (y + snd shift + q_or (LineMark.ll_offsetY ll) 0)%Q).
Proof.
  intros Hwf Hshow.
  destruct (render_rows_scales rows fn cfg rect st Hwf)
    as (st' & Hrun & Hdata & Hcfg & Hxs & Hleft & Hright).
  assert (LineMark.lineScale cfg st' =
          Some (if String.eqb (axisMode cfg) "dual"
                then rightScale cfg (sortedData cfg rows) (height st')
                else leftScale cfg (sortedData cfg rows) (height st'))) as Hline.
  { unfold LineMark.lineScale. rewrite Hleft, Hright.
    by destruct (String.eqb (axisMode cfg) "dual"). }
  set (yScale := if String.eqb (axisMode cfg) "dual"
                 then rightScale cfg (sortedData cfg rows) (height st')
                 else leftScale cfg (sortedData cfg rows) (height st')) in *.
  set (xs := {| band_domain := map dimension (sortedData cfg rows);
                band_range := (0%Q, width st');
                band_padding := barPadding cfg |}) in *.
  exists st', (map (LineMark.linePoint xs yScale) (sortedData cfg rows)),
    (map (LineMark.lineLabel ll xs yScale) (sortedData cfg rows)).
  split; [exact Hrun|].
  unfold LineMark.drawLine, LineMark.drawLineLabels.
  rewrite Hcfg. cbn [mbind option_bind]. rewrite Hxs. cbn [mbind option_bind].
  rewrite Hline. cbn [mbind option_bind]. rewrite Hdata, Hshow.
  cbn [mbind option_bind].
  split; [reflexivity|]. split; [reflexivity|].
  assert (length (sortedData cfg rows) = length rows) as Hlen.
  { apply Permutation_length, SortFacts.sortRows_perm. }
  split; [by rewrite length_map|]. split; [by rewrite length_map|].
  intros i p l x y Hp Hl Hx Hy.
  rewrite list_lookup_fmap in Hp. rewrite list_lookup_fmap in Hl.
  destruct (sortedData cfg rows !! i) as [d|]; [|done].
  injection Hp as <-. injection Hl as <-.
  unfold LineMark.linePoint in Hx, Hy. cbn [LineMark.point_x LineMark.point_y] in Hx, Hy.
  unfold LineMark.lineLabel, LineMark.labelShift. cbn [label_x label_y].
  rewrite Hx, Hy. set (pos := str_or (LineMark.ll_position ll) "top").
  destruct (String.eqb pos "left"), (String.eqb pos "right"),
    (String.eqb pos "top"), (String.eqb pos "bottom"); simpl; split; ring.
Qed.

End LineLabels.

Lemma line_labels_follow_points_witness :
  exists st' points labels,
    render_rows (d3 := Samples.plainD3) (engine := Samples.utcEngine)
      Samples.rowsAB Samples.sampleFieldNames Samples.sharedConfig
      (800, 600)%Q initial = Done st' /\
    LineMark.drawLine (d3 := Samples.plainD3) st' = Some points /\
    LineMark.drawLineLabels (d3 := Samples.plainD3)
      {| LineMark.ll_show := true; LineMark.ll_position := "bottom";
         LineMark.ll_offsetX := None; LineMark.ll_offsetY := Some 2%Q |} st'
      = Some labels /\
    length points = 2%nat /\ length labels = 2%nat.
Proof.
  destruct (line_labels_follow_points (d3 := Samples.plainD3)
              (engine := Samples.utcEngine)
              Samples.rowsAB Samples.sampleFieldNames Samples.sharedConfig
              (800, 600)%Q initial
              {| LineMark.ll_show := true; LineMark.ll_position := "bottom";
                 LineMark.ll_offsetX := None; LineMark.ll_offsetY := Some 2%Q |})
    as (st' & points & labels & Hrun & Hp & Hl & Hn1 & Hn2 & _).
  { split; exact I. }
  { reflexivity. }
  by exists st', points, labels.
Defined.

End EngineFacts.

(** ** Display names and the tooltip *)

Module NamingFacts.

Import DimSort Naming.

Lemma upper_idem c : upper (upper c) = upper c.
Proof.
  destruct c as [[] [] [] [] [] [] [] []]; reflexivity.
Qed.

Lemma upper_string_app a b :
  upper_string (a +:+ b) = upper_string a +:+ upper_string b.
Proof. induction a as [|c a IH]; simpl; [done|]. by rewrite IH. Qed.

(** Whether [p] is a prefix depends on the upper case of the string only. *)
Lemma ci_prefix_upper p s :
  is_Some (ci_prefix p s) <-> is_Some (ci_prefix p (upper_string s)).
Proof.
  revert s. induction p as [|a p IH]; intros s; simpl.
  - destruct s; split; intros _; by eexists.
  - destruct s as [|c s]; simpl; [done|].
    rewrite upper_idem. destruct (Ascii.eqb (upper c) a); [apply IH|done].
Qed.

Lemma ci_prefix_app name rest :
  ci_prefix (upper_string name) (name +:+ rest) = Some rest.
Proof.
  induction name as [|c name IH]; simpl; [by destruct rest|].
  by rewrite Ascii.eqb_refl.
Qed.

Lemma unsnoc_app s c : unsnoc (s +:+ String c "") = Some (s, c).
Proof.
  induction s as [|a s IH]; simpl; [done|].
  rewrite IH. by destruct s.
Qed.

Lemma append_cons c (a b : string) : String c a +:+ b = String c (a +:+ b).
Proof. reflexivity. Qed.

Lemma append_nil (b : string) : "" +:+ b = b.
Proof. reflexivity. Qed.

Lemma match_call_hit name inner :
  inner <> "" -> all_chars is_dot inner = true ->
  match_call (upper_string name) (name +:+ "(" +:+ inner +:+ ")") = Some inner.
Proof.
  intros Hne Hdot. unfold match_call.
  rewrite ci_prefix_app, append_cons, append_nil, unsnoc_app.
  apply String.eqb_neq in Hne. by rewrite Hne, Hdot.
Qed.

Lemma match_call_miss p s :
  ci_prefix p (upper_string s) = None -> match_call p s = None.
Proof.
  intros Hp. unfold match_call.
  destruct (ci_prefix p s) eqn:Hs; [|done].
  assert (is_Some (ci_prefix p (upper_string s))) as [? Hx].
  { apply (proj1 (ci_prefix_upper p s)). rewrite Hs. by eexists. }
  congruence.
Qed.

Lemma replace_call_aggregate name inner :
  upper_string name ∈ aggregates ->
  inner <> "" -> all_chars is_dot inner = true ->
  replace_call aggregates (name +:+ "(" +:+ inner +:+ ")") = inner.
Proof.
  intros Hin Hne Hdot.
  pose proof (match_call_hit name inner Hne Hdot) as Hhit.
  assert (forall p, ci_prefix p (upper_string name
                                  +:+ String "(" (upper_string (inner +:+ ")")))
                    = None ->
                    match_call p (name +:+ "(" +:+ inner +:+ ")") = None) as Hmiss.
  { intros p Hp. apply match_call_miss.
    by rewrite upper_string_app. }
  unfold aggregates in *.
  repeat (apply elem_of_cons in Hin as [Hin|Hin];
          [rewrite Hin in Hhit, Hmiss; simpl;
           repeat (first [rewrite Hhit; reflexivity
                         |rewrite Hmiss by reflexivity])|]).
  by apply elem_of_nil in Hin.
Qed.

Lemma trimStart_clean s :
  match trimStart s with String c _ => is_space c = false | EmptyString => True end.
Proof.
  induction s as [|c s IH]; simpl; [done|].
  destruct (is_space c) eqn:Hc; [exact IH|done].
Qed.

Lemma trimEnd_head s c r :
  trimEnd s = String c r -> exists s', s = String c s'.
Proof.
  destruct s as [|a s]; simpl; [done|].
  destruct (trimEnd s); [destruct (is_space a)|]; intros [= <- <-]; by eexists.
Qed.

Lemma unsnoc_cons a b r :
  unsnoc (String a (String b r)) =
  match unsnoc (String b r) with
  | Some (r', z) => Some (String a r', z)
  | None => None
  end.
Proof. reflexivity. Qed.

Lemma trimEnd_clean s :
  match unsnoc (trimEnd s) with Some (_, c) => is_space c = false | None => True end.
Proof.
  induction s as [|a s IH]; [done|].
  cbn [trimEnd]. destruct (trimEnd s) as [|b r].
  - by destruct (is_space a) eqn:Ha.
  - rewrite unsnoc_cons. by destruct (unsnoc (String b r)) as [[r' z]|].
Qed.

(** X10.  [getDisplayName]: a custom legend label, when there is one, is the
    name; else a missing field name gives ['Unknown']; else a field name of
    the form [AGG(inner)], where [AGG] is one of SUM, AVG, MIN, MAX, COUNT,
    AGG, MEDIAN, STDEV and VAR in any letter case and [inner] is not empty
    and holds no line break, gives [inner] without the white space around
    it.  Without a custom label the name neither starts nor ends with
    white space. *)
Theorem display_name_strips_aggregate legend fieldNames type :
  let label :=
    if String.eqb type "bar1" then bar1Label legend
    else if String.eqb type "bar2" then bar2Label legend
    else lineLabel legend in
  let field :=
    if String.eqb type "bar1" then from_option Chart.fn_bar1 "" fieldNames
    else if String.eqb type "bar2" then from_option Chart.fn_bar2 "" fieldNames
    else from_option Chart.fn_line "" fieldNames in
  (label <> "" -> getDisplayName legend fieldNames type = label) /\
  (label = "" -> field = "" -> getDisplayName legend fieldNames type = "Unknown") /\
  (label = "" ->
   forall agg inner,
     upper_string agg ∈ aggregates ->
     inner <> "" -> all_chars is_dot inner = true ->
     field = agg +:+ "(" +:+ inner +:+ ")" ->
     getDisplayName legend fieldNames type = trim inner) /\
  (label = "" ->
   match getDisplayName legend fieldNames type with
   | String c _ => is_space c = false
   | EmptyString => True
   end /\
   match unsnoc (getDisplayName legend fieldNames type) with
   | Some (_, c) => is_space c = false
   | None => True
   end).
Proof.
  cbv zeta. unfold getDisplayName.
  set (label := if String.eqb type "bar1" then _ else _).
  set (field := if String.eqb type "bar1" then _ else _).
  split; [|split; [|split]].
  - intros Hl. apply String.eqb_neq in Hl. by rewrite Hl.
  - intros Hl Hf. by rewrite Hl, Hf.
  - intros Hl agg inner Hagg Hne Hdot Hf. rewrite Hl, Hf.
    change (negb (String.eqb "" "")) with false. cbv iota.
    assert (String.eqb (agg +:+ "(" +:+ inner +:+ ")") "" = false) as ->.
    { apply String.eqb_neq. by destruct agg. }
    by rewrite replace_call_aggregate.
  - intros Hl. rewrite Hl.
    change (negb (String.eqb "" "")) with false. cbv iota.
    destruct (String.eqb field ""); [done|].
    split.
    + unfold trim.
      pose proof (trimStart_clean (replace_call aggregates field)) as Hs.
      destruct (trimEnd _) as [|c r] eqn:Hr; [done|].
      apply trimEnd_head in Hr as [s' Hr]. by rewrite Hr in Hs.
    + apply trimEnd_clean.
Qed.

Lemma display_name_strips_aggregate_witness :
  getDisplayName {| bar1Label := ""; bar2Label := "Cost"; lineLabel := "" |}
    (Some Samples.sampleFieldNames) "bar1" = "Sales" /\
  getDisplayName {| bar1Label := ""; bar2Label := "Cost"; lineLabel := "" |}
    (Some Samples.sampleFieldNames) "bar2" = "Cost".
Proof.
  destruct (display_name_strips_aggregate
              {| bar1Label := ""; bar2Label := "Cost"; lineLabel := "" |}
              (Some Samples.sampleFieldNames) "bar1") as (_ & _ & Hagg & _).
  destruct (display_name_strips_aggregate
              {| bar1Label := ""; bar2Label := "Cost"; lineLabel := "" |}
              (Some Samples.sampleFieldNames) "bar2") as (Hlabel & _).
  split.
  - apply (Hagg eq_refl "SUM" "Sales"); try done.
    unfold aggregates. apply list_elem_of_here.
  - by apply Hlabel.
Defined.

End NamingFacts.

Module TooltipFacts.

Import Tooltip.

(** X11.  [moveTooltip] keeps the tooltip from crossing the right and the
    bottom edge of the window whenever the pointer is inside the window: it
    is placed 15 to the right of and 10 above the pointer when it fits
    there, and flipped to the left of, or above, the pointer when it does
    not. *)
Theorem tooltip_stays_in_window (clientX clientY w h innerWidth innerHeight : Q) :
  (clientX <= innerWidth)%Q -> (clientY <= innerHeight)%Q ->
  let position := moveTooltip clientX clientY w h innerWidth innerHeight in
  (fst position + w <= innerWidth)%Q /\ (snd position + h <= innerHeight)%Q /\
  ((clientX + 15 + w <= innerWidth)%Q -> fst position = (clientX + 15)%Q) /\
  ((innerWidth < clientX + 15 + w)%Q -> fst position = (clientX - w - 15)%Q) /\
  ((clientY - 10 + h <= innerHeight)%Q -> snd position = (clientY - 10)%Q) /\
  ((innerHeight < clientY - 10 + h)%Q -> snd position = (clientY - h - 10)%Q).
Proof.
  intros Hx Hy. unfold moveTooltip, Qgtb. cbn [fst snd].
  destruct (Qle_bool (clientX + 15 + w) innerWidth) eqn:Hfx;
    destruct (Qle_bool (clientY - 10 + h) innerHeight) eqn:Hfy; cbn [negb].
  all: try (apply Qle_bool_iff in Hfx).
  all: try (apply Qle_bool_iff in Hfy).
  all: try (assert (~ (clientX + 15 + w <= innerWidth)%Q) as Hnx
              by (intros Hc; apply Qle_bool_iff in Hc; congruence)).
  all: try (assert (~ (clientY - 10 + h <= innerHeight)%Q) as Hny
              by (intros Hc; apply Qle_bool_iff in Hc; congruence)).
  all: split; [lra|]; split; [lra|].
  all: split; [intros Hc; first [reflexivity|exfalso; lra]|].
  all: split; [intros Hc; first [reflexivity|exfalso; lra]|].
  all: split; intros Hc; first [reflexivity|exfalso; lra].
Qed.

Lemma tooltip_stays_in_window_witness :
  moveTooltip 790 100 120 40 800 600 = ((790 - 120 - 15)%Q, (100 - 10)%Q).
Proof.
  pose proof (tooltip_stays_in_window 790 100 120 40 800 600) as H.
  destruct (moveTooltip 790 100 120 40 800 600) as [tx ty].
  destruct H as (_ & _ & _ & Hl & Ht & _).
  - unfold Qle; simpl; lia.
  - unfold Qle; simpl; lia.
  - simpl in Hl, Ht. rewrite Hl, Ht; [reflexivity| |]; unfold Qle, Qlt; simpl; lia.
Defined.

End TooltipFacts.

(** ** The configuration object *)

Module SettingsFacts.

Import ConfigTree Settings SettingsNotions.

Lemma split_dots_cons path : exists key keys, split_dots path = key :: keys.
Proof.
  induction path as [|c path (key & keys & IH)]; simpl; [by eexists _, _|].
  destruct (Ascii.eqb c "."); [by eexists _, _|].
  rewrite IH. by eexists _, _.
Qed.

Lemma get_keys_undef keys : get_keys VUndef keys = VUndef.
Proof. by destruct keys. Qed.

Lemma get_keys_null keys : keys <> [] -> get_keys VNull keys = VUndef.
Proof. by destruct keys. Qed.

Lemma get_keys_empty keys : keys <> [] -> get_keys (VObj ∅) keys = VUndef.
Proof.
  destruct keys as [|k keys]; [done|]. intros _. simpl.
  rewrite lookup_empty. apply get_keys_undef.
Qed.

Lemma passable_empty keys : keys <> [] -> passable (VObj ∅) keys.
Proof.
  destruct keys as [|k [|k' keys]]; [done|done|]. intros _. simpl.
  by rewrite lookup_empty.
Qed.

Lemma passable_obj obj keys : passable obj keys -> exists m, obj = VObj m.
Proof.
  destruct keys as [|k [|k' keys]]; simpl; [done| |];
    destruct obj; try done; by eexists.
Qed.

(** What [set_keys] returns on a passable walk. *)
Lemma set_keys_passable obj keys value :
  passable obj keys ->
  exists m', set_keys obj keys value = Some (VObj m') /\
             get_keys (VObj m') keys = value /\
             forall q, diverge keys q -> get_keys (VObj m') q = get_keys obj q.
Proof.
  revert obj. induction keys as [|k keys IH]; intros obj Hp; [done|].
  destruct (passable_obj _ _ Hp) as [m ->].
  destruct keys as [|k' keys].
  - eexists. split; [reflexivity|]. split.
    + simpl. by rewrite lookup_insert_eq.
    + intros q (pre & a & b & p' & q' & Hk & -> & Hne).
      destruct pre as [|x pre]; simpl in Hk.
      * injection Hk as <- _. simpl. by rewrite lookup_insert_ne.
      * injection Hk as _ Hk. by destruct pre.
  - assert (exists child,
              passable child (k' :: keys) /\
              (if truthy (default VUndef (m !! k)) then Some (VObj m)
               else assign (VObj m) k (VObj ∅))
              ≫= (fun obj1 => read obj1 k ≫= fun c => Some (obj1, c))
              = Some (VObj (<[k := child]> m), child) /\
              (exists mc, child = VObj mc) /\
              forall q, q <> [] ->
                get_keys child q = get_keys (default VUndef (m !! k)) q)
      as (child & Hchild & Hstep & [mc Hmc] & Hsame).
    { assert (forall c, m !! k = Some c -> c <> VUndef -> c <> VNull ->
                        exists mc0, c = VObj mc0 /\ passable c (k' :: keys)) as Hobj.
      { intros c Hk Hu Hn. cbn [passable] in Hp. rewrite Hk in Hp.
        assert (passable c (k' :: keys)) as Hc by (by destruct c).
        destruct (passable_obj _ _ Hc) as [mc0 ->]. by exists mc0. }
      destruct (m !! k) as [c|] eqn:Hk.
      - assert (c = VUndef \/ c = VNull \/ (c <> VUndef /\ c <> VNull))
          as [->|[->|[Hu Hn]]].
        { destruct c; auto. }
        + exists (VObj ∅). split; [by apply passable_empty|]. simpl.
          rewrite lookup_insert_eq. split; [done|]. split; [by eexists|].
          intros q Hq. rewrite get_keys_empty by done. by destruct q.
        + exists (VObj ∅). split; [by apply passable_empty|]. simpl.
          rewrite lookup_insert_eq. split; [done|]. split; [by eexists|].
          intros q Hq. rewrite get_keys_empty by done. by destruct q.
        + destruct (Hobj c eq_refl Hu Hn) as (mc0 & -> & Hc).
          exists (VObj mc0). split; [done|]. simpl. rewrite Hk. simpl.
          rewrite insert_id by done. split; [done|]. split; [by eexists|done].
      - exists (VObj ∅). split; [by apply passable_empty|]. simpl.
        rewrite lookup_insert_eq. split; [done|]. split; [by eexists|].
        intros q Hq. rewrite get_keys_empty by done. by destruct q. }
    destruct (IH child Hchild) as (mc' & Hset & Hget & Hframe).
    exists (<[k := VObj mc']> m). split; [|split].
    + change (set_keys (VObj m) (k :: k' :: keys) value) with
        (child0 ← read (VObj m) k;
         obj1 ← (if truthy child0 then Some (VObj m)
                  else assign (VObj m) k (VObj ∅));
         child ← read obj1 k;
         child' ← set_keys child (k' :: keys) value;
         match child with
         | VObj _ => assign obj1 k child'
         | _ => Some obj1
         end).
      cbn [read own_property mbind option_bind].
      destruct (if truthy (default VUndef (m !! k)) then Some (VObj m)
                else assign (VObj m) k (VObj ∅)) as [obj1|] eqn:Hobj1;
        [|done].
      cbn [mbind option_bind] in Hstep |- *.
      destruct (read obj1 k) as [c|] eqn:Hread; [|done].
      cbn [mbind option_bind] in Hstep |- *.
      injection Hstep as -> ->. rewrite Hset. cbn [mbind option_bind].
      rewrite Hmc. cbn [assign]. by rewrite insert_insert_eq.
    + cbn [get_keys own_property]. rewrite lookup_insert_eq. exact Hget.
    + intros q (pre & a & b & p' & q' & Hk & -> & Hne).
      destruct pre as [|x pre]; simpl in Hk.
      * injection Hk as <- _. simpl. by rewrite lookup_insert_ne.
      * injection Hk as <- Hk. cbn [app get_keys own_property].
        rewrite lookup_insert_eq. cbn [default].
        rewrite Hframe.
        -- apply Hsame. by destruct pre.
        -- by exists pre, a, b, p', q'.
Qed.

(** X12.  [Config.get] after [Config.set]: when the walk along the keys of
    [path] meets objects only (a key that is absent or holds [undefined] or
    [null] gets a new object), [set] completes, [get] of the same path then
    returns the value set, and [get] of any path that parts ways with
    [path] returns what it returned before. *)
Theorem get_after_set current path value :
  passable current (split_dots path) ->
  exists current',
    set current path value = Some current' /\
    get current' path = value /\
    forall other,
      diverge (split_dots path) (split_dots other) ->
      get current' other = get current other.
Proof.
  intros Hp. unfold set, get.
  destruct (set_keys_passable current (split_dots path) value Hp)
    as (m' & Hset & Hget & Hframe).
  exists (VObj m'). split; [exact Hset|]. split; [exact Hget|].
  intros other Hd. by apply Hframe.
Qed.

Lemma get_after_set_witness :
  exists current',
    set defaults_excerpt "title.text" (VStr "Sales") = Some current' /\
    get current' "title.text" = VStr "Sales" /\
    get current' "line.width" = VNum 2.
Proof.
  destruct (get_after_set defaults_excerpt "title.text" (VStr "Sales"))
    as (current' & Hset & Hget & Hframe).
  { by vm_compute. }
  exists current'. split; [exact Hset|]. split; [exact Hget|].
  rewrite (Hframe "line.width"); [by vm_compute|].
  exists [], "title", "line", ["text"], ["width"]. by vm_compute.
Defined.

(** X13.  [Config.set] on a path that leads through a value that is not an
    object, [current] being an object that holds [c] under the first key.
    A falsy [c] ([undefined], [null], [false], 0, [NaN], the empty string)
    is replaced by a new object that takes the value.  Below a truthy
    number, boolean or string a path of one more key changes nothing, the
    assignment being dropped without an error; below a truthy number or
    boolean a path of two or more further keys raises a [TypeError]. *)
Theorem set_through_scalar m key c value path :
  m !! key = Some c ->
  (forall key2,
     split_dots path = [key; key2] -> truthy c = false ->
     set (VObj m) path value = Some (VObj (<[key := VObj {[key2 := value]}]> m))) /\
  (forall key2,
     split_dots path = [key; key2] -> truthy c = true -> is_scalar c = true ->
     set (VObj m) path value = Some (VObj m)) /\
  (forall key2 key3 keys,
     split_dots path = key :: key2 :: key3 :: keys ->
     truthy c = true -> is_scalar c = true -> is_string c = false ->
     set (VObj m) path value = None).
Proof.
  intros Hc. unfold set. split; [|split].
  - intros key2 -> Hfalsy. simpl. rewrite Hc. simpl. rewrite Hfalsy. simpl.
    rewrite lookup_insert_eq. simpl. rewrite insert_insert_eq.
    by rewrite insert_empty.
  - intros key2 -> Htruthy Hscalar. simpl. rewrite Hc. simpl.
    rewrite Htruthy. simpl. rewrite Hc. simpl.
    by destruct c.
  - intros key2 key3 keys -> Htruthy Hscalar Hstring.
    change (set_keys (VObj m) (key :: key2 :: key3 :: keys) value) with
      (child0 ← read (VObj m) key;
       obj1 ← (if truthy child0 then Some (VObj m)
                else assign (VObj m) key (VObj ∅));
       child ← read obj1 key;
       child' ← set_keys child (key2 :: key3 :: keys) value;
       match child with
       | VObj _ => assign obj1 key child'
       | _ => Some obj1
       end).
    cbn [read own_property mbind option_bind]. rewrite Hc.
    change (default VUndef (Some c)) with c.
    rewrite Htruthy. cbn [mbind option_bind read own_property].
    rewrite Hc. change (default VUndef (Some c)) with c.
    assert (set_keys c (key2 :: key3 :: keys) value = None) as ->; [|done].
    destruct c; try done; destruct keys; reflexivity.
Qed.

Lemma set_through_scalar_witness :
  set (VObj {["barStyle" := VStr "grouped"]}) "barStyle.colour" (VStr "red")
    = Some (VObj {["barStyle" := VStr "grouped"]}) /\
  set (VObj {["barPadding" := VNum (2 # 10)]}) "barPadding.inner.left" (VNum 1)
    = None.
Proof.
  destruct (set_through_scalar {["barStyle" := VStr "grouped"]}
              "barStyle" (VStr "grouped") (VStr "red") "barStyle.colour"
              (lookup_singleton_eq _ _)) as (_ & Hkeep & _).
  destruct (set_through_scalar {["barPadding" := VNum (2 # 10)]}
              "barPadding" (VNum (2 # 10)) (VNum 1) "barPadding.inner.left"
              (lookup_singleton_eq _ _)) as (_ & _ & Hthrow).
  split.
  - apply (Hkeep "colour"); reflexivity.
  - apply (Hthrow "inner" "left" []); reflexivity.
Defined.

Lemma read_object m key : read (VObj m) key = Some (default VUndef (m !! key)).
Proof. reflexivity. Qed.

(** X14.  The dialog and the configuration module agree on what a complete
    field selection is: for a configuration object, [validate] returns no
    message exactly when [Config.isValid] accepts it, that is when
    [dimension], [bar1Measure], [bar2Measure] and [lineMeasure] are all
    truthy; it returns one message per field that is not. *)
Theorem validate_agrees_with_isValid (m : gmap string jsval) :
  exists valid errors,
    isValid (VObj m) = Some valid /\
    validate (VObj m) = Some errors /\
    (valid = true <-> errors = []) /\
    length errors =
      length (filter (fun key => truthy (default VUndef (m !! key)) = false)
                ["dimension"; "bar1Measure"; "bar2Measure"; "lineMeasure"]).
Proof.
  unfold isValid, validate. rewrite !read_object. cbn [mbind option_bind].
  eexists _, _. split; [reflexivity|]. split; [reflexivity|].
  rewrite !filter_cons, filter_nil.
  destruct (truthy (default VUndef (m !! "dimension"))),
    (truthy (default VUndef (m !! "bar1Measure"))),
    (truthy (default VUndef (m !! "bar2Measure"))),
    (truthy (default VUndef (m !! "lineMeasure"))); simpl; split; done.
Qed.

End SettingsFacts.

(** ** More on the configuration merge *)

Module MergeAgain.

Import ConfigTree.

Lemma deepMerge_result d o r :
  deepMerge d o = Some r ->
  r <> VUndef /\ (truthy d = true -> truthy r = true).
Proof.
  destruct o; simpl; destruct (jsonClone d) as [result|] eqn:Hc; try done.
  all: try (intros [= <-]; unfold jsonClone in Hc; destruct d; try done;
            injection Hc as <-; by split).
  unfold jsonClone in Hc.
  destruct result as [| |b|q| |s|l|md].
  all: try (destruct (decide (m = ∅)); [|done]; intros [= <-];
            destruct d; try done; injection Hc as <-; by split).
  destruct (map_fold _ _ m); [|done]. intros [= <-]. by split.
Qed.

Lemma json_property_Some v :
  v <> VUndef -> json_property jsonValue v = Some (jsonValue v).
Proof. by destruct v. Qed.

Lemma json_property_idem (x : option jsval) :
  (x ≫= json_property jsonValue) ≫= json_property jsonValue
  = x ≫= json_property jsonValue.
Proof.
  destruct x as [v|]; [|done]. simpl.
  assert (v = VUndef \/ v <> VUndef) as [->|Hv] by (destruct v; auto); [done|].
  rewrite (json_property_Some v Hv). simpl.
  rewrite json_property_Some by apply MergeFacts.jsonValue_not_undef.
  by rewrite MergeFacts.jsonValue_idem.
Qed.

Lemma merge_fold_defined (md mo mr : gmap string jsval) :
  map_fold (merge_key deepMerge) (Some md) mo = Some mr ->
  forall k v, mo !! k = Some v -> is_Some (merged_entry (md !! k) v).
Proof.
  intros Hfold.
  enough ((forall k, mr !! k = match mo !! k with
                               | Some v => merged_entry (md !! k) v
                               | None => md !! k
                               end) /\
          forall k v, mo !! k = Some v -> is_Some (merged_entry (md !! k) v))
    as [_ H]; [exact H|].
  revert mr Hfold.
  apply (map_fold_weak_ind
           (fun r (m : gmap string jsval) => forall mr, r = Some mr ->
              (forall k, mr !! k = match m !! k with
                                   | Some v => merged_entry (md !! k) v
                                   | None => md !! k
                                   end) /\
              forall k v, m !! k = Some v -> is_Some (merged_entry (md !! k) v))).
  - intros mr [= <-]. split; intros k; [by rewrite lookup_empty|].
    intros v Hk. by rewrite lookup_empty in Hk.
  - intros i x m r Hi IH mr Hstep.
    destruct r as [mr0|]; [|done].
    rewrite MergeFacts.merge_key_entry in Hstep.
    destruct (merged_entry (mr0 !! i) x) as [e|] eqn:He; [|done].
    injection Hstep as <-.
    destruct (IH mr0 eq_refl) as [Hlook Hdef].
    rewrite Hlook, Hi in He.
    split; intros k.
    + destruct (decide (i = k)) as [->|Hne].
      * by rewrite !lookup_insert_eq.
      * rewrite !lookup_insert_ne by done. apply Hlook.
    + intros v Hk. destruct (decide (i = k)) as [->|Hne].
      * rewrite lookup_insert_eq in Hk. injection Hk as <-. by rewrite He.
      * rewrite lookup_insert_ne in Hk by done. by eapply Hdef.
Qed.

Lemma jsonClone_again d r : jsonClone d = Some r -> jsonClone r = Some r.
Proof.
  intros Hc.
  assert (d <> VUndef) as Hd by (by intros ->).
  assert (r = jsonValue d) as ->.
  { unfold jsonClone in Hc. by destruct d; try done; injection Hc as <-. }
  by rewrite MergeFacts.jsonClone_jsonValue.
Qed.

Lemma or_empty_truthy o : truthy (or_empty o) = true.
Proof.
  destruct o as [v|]; [|done]. unfold or_empty.
  by destruct (truthy v) eqn:Hv.
Qed.

Lemma deepMerge_empty x :
  is_leaf x = true -> jsonClone x = Some x -> deepMerge x (VObj ∅) = Some x.
Proof.
  intros Hleaf Hc. simpl. rewrite Hc.
  destruct x; try done; by rewrite decide_True.
Qed.

Lemma deepMerge_again o : forall d r, deepMerge d o = Some r -> deepMerge r o = Some r.
Proof.
  induction o as [| |b|q| |s|l _|mo IH] using MergeFacts.jsval_ind';
    intros d r Hm.
  all: try (simpl in Hm |- *; destruct (jsonClone d) as [result|] eqn:Hc;
            [|done]; try done; injection Hm as <-;
            by rewrite (jsonClone_again _ _ Hc)).
  pose proof (deepMerge_result _ _ _ Hm) as [Hr _].
  simpl in Hm. destruct (jsonClone d) as [result|] eqn:Hc; [|done].
  unfold jsonClone in Hc.
  assert (result = jsonValue d) as -> by (destruct d; congruence).
  assert (jsonClone (jsonValue d) = Some (jsonValue d)) as Hagain.
  { apply (jsonClone_again d). unfold jsonClone. by destruct d. }
  destruct (jsonValue d) as [| |b|q| |s|l|md'] eqn:Hd.
  all: try (destruct (decide (mo = ∅)) as [->|]; [|done]; injection Hm as <-;
            by apply deepMerge_empty).
  destruct (map_fold _ _ mo) as [mr|] eqn:Hfold; [|done].
  injection Hm as <-.
  pose proof (MergeFacts.merge_fold_lookup _ _ _ Hfold) as Hlook.
  pose proof (merge_fold_defined _ _ _ Hfold) as Hdef.
  set (md2 := omap (json_property jsonValue) mr).
  assert (forall k v, mo !! k = Some v ->
            merged_entry (md2 !! k) v = mr !! k) as Hentry.
  { intros k v Hk. rewrite (Hlook k), Hk.
    destruct (Hdef k v Hk) as [rk Hrk].
    unfold md2. rewrite lookup_omap, (Hlook k), Hk, Hrk. simpl.
    destruct v; try done.
    unfold merged_entry in Hrk |- *.
    destruct (deepMerge_result _ _ _ Hrk) as [Hne Ht].
    assert (truthy rk = true) as Htruthy.
    { apply Ht, or_empty_truthy. }
    assert (json_property jsonValue rk = Some (jsonValue rk)) as ->
      by (by destruct rk).
    cbn [mbind option_bind]. unfold or_empty at 1.
    rewrite MergeFacts.truthy_jsonValue, Htruthy.
    rewrite MergeFacts.deepMerge_jsonValue by done.
    by apply (IH k (VObj m) Hk (or_empty (md' !! k)) rk). }
  destruct (MergeFacts.merge_fold_total md2 mo) as (mr2 & Hfold2 & _).
  { intros k v Hk. rewrite (Hentry k v Hk), (Hlook k), Hk. by apply Hdef. }
  simpl. fold md2. rewrite Hfold2. simpl. do 2 f_equal.
  apply map_eq. intros k.
  rewrite (MergeFacts.merge_fold_lookup _ _ _ Hfold2 k).
  destruct (mo !! k) as [v|] eqn:Hk; [by apply Hentry|].
  unfold md2. rewrite lookup_omap, (Hlook k), Hk.
  assert (md' = omap (json_property jsonValue)
                  (match d with VObj m => m | _ => ∅ end)) as ->.
  { destruct d; try done. simpl in Hd. by injection Hd as <-. }
  rewrite lookup_omap. apply json_property_idem.
Qed.

(** X15.  Merging the same overrides into the result of a merge changes
    nothing: if [deepMerge(defaults, overrides)] returns [merged], then
    [deepMerge(merged, overrides)] returns [merged] again. *)
Theorem merge_is_idempotent defaults overrides merged :
  deepMerge defaults overrides = Some merged ->
  deepMerge merged overrides = Some merged.
Proof. apply deepMerge_again. Qed.

Lemma merge_is_idempotent_witness :
  exists merged,
    deepMerge defaults_excerpt config_dashed = Some merged /\
    deepMerge merged config_dashed = Some merged.
Proof.
  assert (exists merged, deepMerge defaults_excerpt config_dashed = Some merged)
    as [merged Hm].
  { eexists. vm_compute. reflexivity. }
  exists merged. split; [exact Hm|]. exact (merge_is_idempotent _ _ _ Hm).
Defined.

End MergeAgain.

(** ** Font objects *)

Module FontFacts.

Import ConfigTree Settings SettingsNotions Fonts.

Lemma pretty_N_char_digit (d : N) :
  DimSort.is_digit (pretty_N_char d) = true.
Proof. unfold pretty_N_char. by repeat case_match. Qed.

Lemma pretty_N_go_head (x : N) :
  forall s, head_digit s -> head_digit (pretty_N_go x s).
Proof.
  induction (N.lt_wf_0 x) as [x _ IH]. intros s Hs.
  destruct (decide (0 < x)%N) as [Hx|Hx].
  - rewrite pretty_N_go_step by done. apply IH.
    + by apply N.div_lt.
    + apply pretty_N_char_digit.
  - assert (x = 0%N) as -> by lia. by rewrite pretty_N_go_0.
Qed.

Lemma pretty_nat_head (i : nat) : head_digit (pretty i).
Proof.
  unfold pretty, pretty_nat, pretty, pretty_N.
  destruct (decide (N.of_nat i = 0%N)); [done|].
  by apply pretty_N_go_head.
Qed.

Lemma pretty_nat_ne_empty (i : nat) : pretty i <> "".
Proof.
  unfold pretty, pretty_nat, pretty, pretty_N.
  destruct (decide (N.of_nat i = 0%N)) as [|Hne]; [done|].
  rewrite pretty_N_go_step by lia.
  intros Heq.
  assert (forall x s, s <> "" -> pretty_N_go x s <> "") as Hgo.
  { intros x. induction (N.lt_wf_0 x) as [x _ IH]. intros s Hs.
    destruct (decide (0 < x)%N) as [Hx|Hx].
    - rewrite pretty_N_go_step by done. apply IH; [by apply N.div_lt|done].
    - assert (x = 0%N) as -> by lia. by rewrite pretty_N_go_0. }
  by eapply Hgo in Heq.
Qed.

Lemma indexed_no_index l key : no_index key -> key <> "" -> indexed l !! key = None.
Proof.
  intros Hkey Hne. unfold indexed. apply not_elem_of_list_to_map_1.
  intros Hin. apply list_elem_of_fmap in Hin as ([k x] & -> & Hin).
  apply elem_of_lookup_imap in Hin as (i & y & [= -> ->] & _).
  pose proof (pretty_nat_head i) as Hd. simpl in *.
  destruct (pretty i) as [|c r]; [done|]. simpl in *. congruence.
Qed.

Lemma spread_no_index v key :
  no_index key -> key <> "" ->
  spread v !! key = match v with VObj m => m !! key | _ => None end.
Proof.
  intros Hkey Hne. destruct v; simpl; try done; by apply indexed_no_index.
Qed.

(** The loop over the font defaults, key by key. *)
Lemma ensure_fonts_lookup entries : forall (m : gmap string jsval),
  NoDup entries.*1 ->
  forall key,
    foldl ensure_font m entries !! key =
    match (list_to_map entries : gmap string (gmap string jsval)) !! key with
    | Some defaults =>
        let value := default VUndef (m !! key) in
        Some (VObj (if truthy value then spread value ∪ defaults else defaults))
    | None => m !! key
    end.
Proof.
  induction entries as [|[k d] entries IH]; intros m Hnd key; simpl.
  - by rewrite lookup_empty.
  - apply NoDup_cons in Hnd as [Hk Hnd]. rewrite (IH _ Hnd).
    destruct (decide (k = key)) as [->|Hne].
    + rewrite lookup_insert_eq.
      rewrite (not_elem_of_list_to_map_1 _ _ Hk).
      unfold ensure_font. simpl. by case_match; rewrite lookup_insert_eq.
    + rewrite lookup_insert_ne by done.
      assert (ensure_font m (k, d) !! key = m !! key) as ->; [|done].
      unfold ensure_font. simpl. by case_match; rewrite lookup_insert_ne.
Qed.

Lemma ensure_offset_spec key labels :
  (forall l, labels <> VArr l) -> labels <> VUndef -> labels <> VNull ->
  exists labels',
    ensure_offset key labels = Some labels' /\
    (forall old, labels = VObj old ->
       labels' = VObj (match old !! key with
                       | None | Some VUndef => <[key := VNum 0]> old
                       | Some _ => old
                       end)) /\
    (is_scalar labels = true -> labels' = labels).
Proof.
  intros Harr Hu Hn. unfold ensure_offset.
  destruct labels as [| |b|q| |s|l|old]; try done.
  - eexists. split; [by simpl|]. split; [done|]. done.
  - eexists. split; [by simpl|]. split; [done|]. done.
  - eexists. split; [by simpl|]. split; [done|]. done.
  - exists (VStr s). split; [|split; done].
    destruct (own_property (VStr s) key); done.
  - by destruct (Harr l).
  - simpl. destruct (old !! key) as [v|] eqn:Hk; simpl.
    + destruct v; eexists; (split; [reflexivity|]); split; try done;
        intros ? [= <-]; by rewrite Hk.
    + eexists. split; [reflexivity|]. split; [|done].
      intros ? [= <-]. by rewrite Hk.
Qed.

Lemma ensure_offset_filled key old :
  ensure_offset key (VObj old) = Some (VObj (filled key old)).
Proof.
  unfold ensure_offset, filled. simpl.
  destruct (old !! key) as [v|]; [by destruct v|done].
Qed.

Lemma ensure_offset_scalar key v :
  is_scalar v = true -> ensure_offset key v = Some v.
Proof.
  intros Hv. unfold ensure_offset.
  destruct (own_property v key); try done; by destruct v.
Qed.

Ltac in_list := repeat first [apply list_elem_of_here|apply list_elem_of_further].

Ltac offsets_done :=
  cbn [default from_option id];
  repeat (first [rewrite ensure_offset_filled
                |rewrite ensure_offset_scalar by done];
          cbn [mbind option_bind]);
  eexists; split; [reflexivity|]; split;
  [by rewrite lookup_insert_eq
  |by intros k Hne; rewrite ?lookup_insert_ne by done].

Lemma ensure_offsets_spec key (c : gmap string jsval) :
  (forall l, c !! key <> Some (VArr l)) ->
  exists c',
    ensure_offsets key c = Some c' /\
    c' !! key = Some (labelsAfter (c !! key)) /\
    forall k, k <> key -> c' !! k = c !! k.
Proof.
  intros Harr. unfold ensure_offsets.
  destruct (c !! key) as [v|] eqn:Hk; cbn [default from_option id].
  - destruct v as [| |b|q| |s|l|old].
    + cbn [truthy]. rewrite lookup_insert_eq. offsets_done.
    + cbn [truthy]. rewrite lookup_insert_eq. offsets_done.
    + destruct b; cbn [truthy labelsAfter].
      * rewrite Hk. offsets_done.
      * rewrite lookup_insert_eq. offsets_done.
    + cbn [truthy labelsAfter]. destruct (negb (Qeq_bool q 0)).
      * rewrite Hk. offsets_done.
      * rewrite lookup_insert_eq. offsets_done.
    + cbn [truthy]. rewrite lookup_insert_eq. offsets_done.
    + cbn [truthy labelsAfter]. destruct (negb (String.eqb s "")).
      * rewrite Hk. offsets_done.
      * rewrite lookup_insert_eq. offsets_done.
    + by destruct (Harr l).
    + cbn [truthy]. rewrite Hk. offsets_done.
  - cbn [truthy]. rewrite lookup_insert_eq. offsets_done.
Qed.

Lemma fontDefaults_NoDup : NoDup fontDefaults.*1.
Proof. apply (bool_decide_unpack _). by vm_compute. Qed.

Lemma fontDefaults_lookup key defaults :
  (key, defaults) ∈ fontDefaults ->
  (list_to_map fontDefaults : gmap string (gmap string jsval)) !! key = Some defaults.
Proof. apply elem_of_list_to_map_1, fontDefaults_NoDup. Qed.

Lemma font_properties size weight color p :
  p ∈ fontProperties -> is_Some (font size weight color !! p) /\ no_index p /\ p <> "".
Proof.
  unfold fontProperties. intros Hp.
  repeat (apply elem_of_cons in Hp as [->|Hp]; [by split; [eexists|]|]).
  by apply elem_of_nil in Hp.
Qed.

(** X16.  [ensureFontObjects], for a configuration object in which
    [barLabels] and [lineLabels] are not arrays: afterwards each of the nine
    font keys holds an object with all of [family], [size], [weight],
    [color] and [italic], each taken from the font object that was there
    when it had the property and from the font defaults otherwise (also
    when the key held something that is not an object); [barLabels] and
    [lineLabels] hold what they held, with [offsetX] and [offsetY] set to 0
    where they were missing or [undefined], and a new object with both
    offsets 0 when they held nothing or a falsy value; every other key is
    untouched. *)
Theorem fonts_are_completed (m : gmap string jsval) :
  (forall key l, key ∈ labelKeys -> m !! key <> Some (VArr l)) ->
  exists m',
    ensureFontObjects (VObj m) = Some (VObj m') /\
    (forall key defaults, (key, defaults) ∈ fontDefaults ->
       exists f,
         m' !! key = Some (VObj f) /\
         forall p, p ∈ fontProperties ->
           is_Some (f !! p) /\
           f !! p = match m !! key with
                    | Some (VObj old) =>
                        match old !! p with
                        | Some v => Some v
                        | None => defaults !! p
                        end
                    | _ => defaults !! p
                    end) /\
    (forall key, key ∈ labelKeys -> m' !! key = Some (labelsAfter (m !! key))) /\
    (forall key, key ∉ fontKeys -> key ∉ labelKeys -> m' !! key = m !! key).
Proof.
  intros Harr. unfold ensureFontObjects.
  pose proof (ensure_fonts_lookup fontDefaults m fontDefaults_NoDup) as Hfonts.
  set (m0 := foldl ensure_font m fontDefaults) in *.
  assert (forall key, key ∈ labelKeys -> m0 !! key = m !! key) as Hlabels0.
  { intros key Hk. rewrite Hfonts. unfold labelKeys in Hk.
    repeat (apply elem_of_cons in Hk as [->|Hk]; [done|]).
    by apply elem_of_nil in Hk. }
  destruct (ensure_offsets_spec "barLabels" m0) as (m1 & -> & Hb1 & Ho1).
  { intros l. rewrite Hlabels0 by (unfold labelKeys; in_list).
    apply Harr. unfold labelKeys. in_list. }
  destruct (ensure_offsets_spec "lineLabels" m1) as (m2 & Hrun2 & Hb2 & Ho2).
  { intros l. rewrite Ho1 by done.
    rewrite Hlabels0 by (unfold labelKeys; in_list).
    apply Harr. unfold labelKeys. in_list. }
  cbn [mbind option_bind]. rewrite Hrun2. cbn [mbind option_bind].
  exists m2. split; [reflexivity|]. split; [|split].
  - intros key defaults Hin.
    assert (key <> "barLabels" /\ key <> "lineLabels") as [Hn1 Hn2].
    { unfold fontDefaults in Hin.
      repeat (apply elem_of_cons in Hin as [[= -> _]|Hin]; [done|]).
      by apply elem_of_nil in Hin. }
    rewrite Ho2, Ho1, Hfonts, (fontDefaults_lookup _ _ Hin) by done.
    eexists. split; [reflexivity|].
    intros p Hp.
    assert (is_Some (defaults !! p) /\ no_index p /\ p <> "") as (Hd & Hidx & Hne).
    { unfold fontDefaults in Hin.
      repeat (apply elem_of_cons in Hin as [[= _ ->]|Hin];
              [by apply font_properties|]).
      by apply elem_of_nil in Hin. }
    assert ((if truthy (default VUndef (m !! key))
             then spread (default VUndef (m !! key)) ∪ defaults
             else defaults) !! p
            = match m !! key with
              | Some (VObj old) =>
                  match old !! p with
                  | Some v => Some v
                  | None => defaults !! p
                  end
              | _ => defaults !! p
              end) as Heq.
    { destruct (m !! key) as [v|]; cbn [default from_option id]; [|done].
      destruct (truthy v) eqn:Hv.
      - rewrite lookup_union, (spread_no_index v p Hidx Hne).
        destruct v as [| |b|q| |s|l|old]; try (by destruct (defaults !! p)).
        all: try (by destruct (old !! p), (defaults !! p)).
      - by destruct v. }
    rewrite Heq. split; [|done].
    destruct (m !! key) as [v|]; [|exact Hd].
    destruct v as [| |b|q| |s|l|old]; try exact Hd.
    destruct (old !! p); [by eexists|exact Hd].
  - intros key Hk. unfold labelKeys in Hk.
    apply elem_of_cons in Hk as [->|Hk].
    + rewrite Ho2, Hb1 by done. by rewrite Hlabels0 by (unfold labelKeys; in_list).
    + apply elem_of_cons in Hk as [->|Hk]; [|by apply elem_of_nil in Hk].
      rewrite Hb2, Ho1 by done.
      by rewrite Hlabels0 by (unfold labelKeys; in_list).
  - intros key Hf Hl.
    assert (key <> "barLabels" /\ key <> "lineLabels") as [Hn1 Hn2].
    { split; intros ->; apply Hl; unfold labelKeys; in_list. }
    rewrite Ho2, Ho1, Hfonts by done.
    rewrite (not_elem_of_list_to_map_1 _ _ Hf). done.
Qed.

Lemma fonts_are_completed_witness :
  exists m' f,
    ensureFontObjects
      (VObj {["titleFont" := VObj {["size" := VNum 24]}]}) = Some (VObj m') /\
    m' !! "titleFont" = Some (VObj f) /\
    f !! "size" = Some (VNum 24) /\
    f !! "weight" = Some (VNum 600).
Proof.
  destruct (fonts_are_completed {["titleFont" := VObj {["size" := VNum 24]}]})
    as (m' & Hrun & Hfonts & _).
  { intros key l Hk. unfold labelKeys in Hk.
    repeat (apply elem_of_cons in Hk as [->|Hk]; [done|]).
    by apply elem_of_nil in Hk. }
  destruct (Hfonts "titleFont" (font 18 600 "#333333")) as (f & Hf & Hprops).
  { unfold fontDefaults. apply list_elem_of_here. }
  exists m', f. split; [exact Hrun|]. split; [exact Hf|].
  split.
  - destruct (Hprops "size") as [_ ->]; [unfold fontProperties; in_list|].
    rewrite lookup_singleton_eq. by rewrite lookup_singleton_eq.
  - destruct (Hprops "weight") as [_ ->]; [unfold fontProperties; in_list|].
    rewrite lookup_singleton_eq. by rewrite lookup_singleton_ne.
Defined.

End FontFacts.

(** ** Colours *)

Module ColourFacts.

Import DimSort Colour.

Lemma hex_value_spec c d :
  hex_value c = Some d ->
  (0 <= d < 16)%Z /\ is_space c = false /\
  c <> "-"%char /\ c <> "+"%char /\ c <> "x"%char /\ c <> "X"%char /\
  c <> "#"%char.
Proof.
  destruct c as [[] [] [] [] [] [] [] []]; vm_compute; intros [= <-];
    repeat split; try done.
Qed.

Lemma hex_char_value d : (0 <= d < 16)%Z -> hex_value (hex_char d) = Some d.
Proof.
  intros Hd. assert (exists n, d = Z.of_nat n /\ (n < 16)%nat) as (n & -> & Hn).
  { exists (Z.to_nat d). lia. }
  do 16 (destruct n as [|n]; [reflexivity|]). lia.
Qed.

Lemma to_hex_go_step fuel q a acc :
  (0 < q)%Z -> (0 <= a < 16)%Z ->
  to_hex_go (S fuel) (16 * q + a) acc = to_hex_go fuel q (String (hex_char a) acc).
Proof.
  intros Hq Ha. simpl.
  assert ((16 * q + a) mod 16 = a)%Z as -> by (rewrite Z.add_comm, Z.mul_comm, Z.mod_add; [by apply Z.mod_small|lia]).
  assert ((16 * q + a) / 16 = q)%Z as ->.
  { rewrite Z.add_comm, Z.mul_comm, Z.div_add by lia. rewrite Z.div_small by lia. lia. }
  destruct (Z.eqb_spec q 0); [lia|done].
Qed.

Lemma to_hex_go_last fuel a acc :
  (0 <= a < 16)%Z -> to_hex_go (S fuel) a acc = String (hex_char a) acc.
Proof.
  intros Ha. simpl. rewrite Z.mod_small, Z.div_small by lia. done.
Qed.

(** The digits of [2^24 + v] for a [v] of six hexadecimal digits. *)
Lemma toString16_channels R G B :
  (0 <= R < 256)%Z -> (0 <= G < 256)%Z -> (0 <= B < 256)%Z ->
  toString16 (16777216 + R * 65536 + G * 256 + B)
  = String "1"
      (String (hex_char (R / 16)) (String (hex_char (R mod 16))
      (String (hex_char (G / 16)) (String (hex_char (G mod 16))
      (String (hex_char (B / 16)) (String (hex_char (B mod 16)) "")))))).
Proof.
  intros HR HG HB. unfold toString16.
  set (v := (16777216 + R * 65536 + G * 256 + B)%Z).
  assert (2 ^ 24 <= v < 2 ^ 25)%Z as Hv by (unfold v; lia).
  assert (Z.log2 v = 24%Z) as Hlog by (apply Z.log2_unique; lia).
  destruct (Z.ltb_spec v 0); [lia|]. rewrite Hlog.
  change (S (Z.to_nat 24)) with 25%nat.
  pose proof (Z.div_mod R 16 ltac:(lia)) as HdR.
  pose proof (Z.div_mod G 16 ltac:(lia)) as HdG.
  pose proof (Z.div_mod B 16 ltac:(lia)) as HdB.
  pose proof (Z.mod_pos_bound R 16 ltac:(lia)).
  pose proof (Z.mod_pos_bound G 16 ltac:(lia)).
  pose proof (Z.mod_pos_bound B 16 ltac:(lia)).
  assert (0 <= R / 16 < 16)%Z by (split; [apply Z.div_pos; lia|apply Z.div_lt_upper_bound; lia]).
  assert (0 <= G / 16 < 16)%Z by (split; [apply Z.div_pos; lia|apply Z.div_lt_upper_bound; lia]).
  assert (0 <= B / 16 < 16)%Z by (split; [apply Z.div_pos; lia|apply Z.div_lt_upper_bound; lia]).
  set (r1 := (R / 16)%Z) in *. set (r2 := (R mod 16)%Z) in *.
  set (g1 := (G / 16)%Z) in *. set (g2 := (G mod 16)%Z) in *.
  set (b1 := (B / 16)%Z) in *. set (b2 := (B mod 16)%Z) in *.
  replace v with
    (16 * (16 * (16 * (16 * (16 * (16 * 1 + r1) + r2) + g1) + g2) + b1) + b2)%Z
    by (unfold v; lia).
  rewrite !to_hex_go_step by lia.
  by rewrite to_hex_go_last.
Qed.

Lemma split_sign_digit c s d :
  hex_value c = Some d -> split_sign (String c s) = (false, String c s).
Proof. destruct c as [[] [] [] [] [] [] [] []]; done. Qed.

Lemma strip_0x_digits c1 c2 s d1 d2 :
  hex_value c1 = Some d1 -> hex_value c2 = Some d2 ->
  strip_0x (String c1 (String c2 s)) = String c1 (String c2 s).
Proof.
  destruct c1 as [[] [] [] [] [] [] [] []]; try done;
    destruct c2 as [[] [] [] [] [] [] [] []]; done.
Qed.

Lemma parse_channels r1 r2 g1 g2 b1 b2 d1 d2 d3 d4 d5 d6 :
  hex_value r1 = Some d1 -> hex_value r2 = Some d2 ->
  hex_value g1 = Some d3 -> hex_value g2 = Some d4 ->
  hex_value b1 = Some d5 -> hex_value b2 = Some d6 ->
  parseInt16 (remove_hash
    (String "#" (String r1 (String r2 (String g1 (String g2
       (String b1 (String b2 ""))))))))
  = Some ((16 * d1 + d2) * 65536 + (16 * d3 + d4) * 256 + (16 * d5 + d6))%Z.
Proof.
  intros H1 H2 H3 H4 H5 H6.
  destruct (hex_value_spec _ _ H1) as (_ & Hs & _).
  cbn [remove_hash Ascii.eqb Bool.eqb]. cbv iota.
  unfold parseInt16. cbn [skip_space]. rewrite Hs.
  rewrite (split_sign_digit _ _ _ H1), (strip_0x_digits _ _ _ _ _ H1 H2).
  cbn [hex_run]. rewrite H1, H2, H3, H4, H5, H6. cbn [hex_run default from_option id].
  f_equal. lia.
Qed.

(** X17.  [darkenColor] on a colour written [#rrggbb] and a percentage that
    is a double and not negative: the result is again of that form, and
    each of its channels is the channel of the input less
    [Math.round(2.55 * percent)], or 0 where that would be negative.  The
    product is the one of double arithmetic, so that the amount is 127 at
    50 per cent, where the exact product 127.5 would give 128. *)
Theorem darkenColor_darkens hex percent r g b :
  channels hex = Some (r, g, b) ->
  Ieee.round64 percent = percent -> (0 <= percent)%Q ->
  let amt := darkenAmount percent in
  (0 <= amt)%Z /\
  channels (darkenColor hex percent)
  = Some (Z.max 0 (r - amt), Z.max 0 (g - amt), Z.max 0 (b - amt)).
Proof.
  intros Hch _ Hp. cbv zeta.
  assert (0 <= darkenAmount percent)%Z as Hamt.
  { unfold darkenAmount.
    change 0%Z with (Qfloor 0). apply Qfloor_resp_le.
    assert (0 <= Ieee.times (Ieee.literal (255 # 100)) percent)%Q.
    { apply IeeeFacts.round64_nonneg. apply Qmult_le_0_compat; [|exact Hp].
      apply IeeeFacts.round64_nonneg. done. }
    lra. }
  split; [exact Hamt|].
  unfold channels in Hch.
  destruct hex as [|c0 [|r1 [|r2 [|g1 [|g2 [|b1 [|b2 [|]]]]]]]]; try done;
    try (by destruct c0 as [[] [] [] [] [] [] [] []]).
  assert (c0 = "#"%char) as ->.
  { destruct c0 as [[] [] [] [] [] [] [] []]; done. }
  destruct (hex_value r1) as [d1|] eqn:H1; [|done].
  destruct (hex_value r2) as [d2|] eqn:H2; [|done].
  destruct (hex_value g1) as [d3|] eqn:H3; [|done].
  destruct (hex_value g2) as [d4|] eqn:H4; [|done].
  destruct (hex_value b1) as [d5|] eqn:H5; [|done].
  destruct (hex_value b2) as [d6|] eqn:H6; [|done].
  injection Hch as <- <- <-.
  destruct (hex_value_spec _ _ H1) as (? & _).
  destruct (hex_value_spec _ _ H2) as (? & _).
  destruct (hex_value_spec _ _ H3) as (? & _).
  destruct (hex_value_spec _ _ H4) as (? & _).
  destruct (hex_value_spec _ _ H5) as (? & _).
  destruct (hex_value_spec _ _ H6) as (? & _).
  unfold darkenColor.
  rewrite (parse_channels _ _ _ _ _ _ _ _ _ _ _ _ H1 H2 H3 H4 H5 H6).
  set (R0 := (16 * d1 + d2)%Z). set (G0 := (16 * d3 + d4)%Z).
  set (B0 := (16 * d5 + d6)%Z). set (amt := darkenAmount percent) in *.
  set (num := (R0 * 65536 + G0 * 256 + B0)%Z).
  assert (0 <= R0 < 256)%Z by (unfold R0; lia).
  assert (0 <= G0 < 256)%Z by (unfold G0; lia).
  assert (0 <= B0 < 256)%Z by (unfold B0; lia).
  assert (toInt32 (Some num) = num) as ->.
  { unfold toInt32. rewrite Z.mod_small by (unfold num; lia).
    destruct (Z.ltb_spec num (2 ^ 31)); [done|unfold num in *; lia]. }
  assert (Z.shiftr num 16 = R0) as ->.
  { rewrite Z.shiftr_div_pow2 by lia. change (2 ^ 16)%Z with 65536%Z.
    symmetry. apply (Z.div_unique num 65536 R0 (G0 * 256 + B0)); unfold num; lia. }
  assert (Z.land (Z.shiftr num 8) 255 = G0) as ->.
  { change 255%Z with (Z.ones 8). rewrite Z.land_ones by lia.
    rewrite Z.shiftr_div_pow2 by lia. change (2 ^ 8)%Z with 256%Z.
    assert (num / 256 = R0 * 256 + G0)%Z as ->.
    { symmetry. apply (Z.div_unique num 256 _ B0); unfold num; lia. }
    symmetry. apply (Z.mod_unique _ 256 R0 G0); lia. }
  assert (Z.land num 255 = B0) as ->.
  { change 255%Z with (Z.ones 8). rewrite Z.land_ones by lia.
    change (2 ^ 8)%Z with 256%Z.
    symmetry. apply (Z.mod_unique _ 256 (R0 * 256 + G0) B0); unfold num; lia. }
  set (R := Z.max 0 (R0 - amt)). set (G := Z.max 0 (G0 - amt)).
  set (B := Z.max 0 (B0 - amt)).
  assert (0 <= R < 256)%Z by (unfold R; lia).
  assert (0 <= G < 256)%Z by (unfold G; lia).
  assert (0 <= B < 256)%Z by (unfold B; lia).
  rewrite toString16_channels by done.
  cbn [slice1 channels].
  rewrite !hex_char_value.
  - f_equal. f_equal; [f_equal|]; symmetry; apply Z.div_mod; lia.
  - apply Z.mod_pos_bound; lia.
  - split; [apply Z.div_pos; lia|apply Z.div_lt_upper_bound; lia].
  - apply Z.mod_pos_bound; lia.
  - split; [apply Z.div_pos; lia|apply Z.div_lt_upper_bound; lia].
  - apply Z.mod_pos_bound; lia.
  - split; [apply Z.div_pos; lia|apply Z.div_lt_upper_bound; lia].
Qed.

Lemma darkenColor_darkens_witness :
  darkenAmount 20 = 51%Z /\ darkenAmount 50 = 127%Z /\ darkenAmount 90 = 229%Z /\
  darkenColor "#4e79a7" 20 = "#1b4674" /\ darkenColor "#0000a7" 50 = "#000028" /\
  channels (darkenColor "#4e79a7" 20) = Some (27, 70, 116)%Z /\
  channels (darkenColor "#0000a7" 50) = Some (0, 0, 40)%Z.
Proof.
  split; [vm_compute; reflexivity|]. split; [vm_compute; reflexivity|].
  split; [vm_compute; reflexivity|]. split; [vm_compute; reflexivity|].
  split; [vm_compute; reflexivity|].
  destruct (darkenColor_darkens "#4e79a7" 20 78 121 167) as (_ & ->);
    [vm_compute; reflexivity | vm_compute; reflexivity | unfold Qle; simpl; lia |].
  destruct (darkenColor_darkens "#0000a7" 50 0 0 167) as (_ & ->);
    [vm_compute; reflexivity | vm_compute; reflexivity | unfold Qle; simpl; lia |].
  split; vm_compute; reflexivity.
Defined.

End ColourFacts.

(** ** Field detection *)

Module DetectFacts.

Import Detect DetectNotions.

Ltac in_positions :=
  repeat first [apply list_elem_of_here | apply list_elem_of_further].

Lemma dimension_not_numeric col : isDateOrString col = true -> isNumeric col = false.
Proof.
  unfold isDateOrString, isNumeric.
  destruct (String.eqb_spec (dataType col) "string") as [->|_]; [done|].
  destruct (String.eqb_spec (dataType col) "date") as [->|_]; [done|].
  destruct (String.eqb_spec (dataType col) "date-time") as [->|_]; done.
Qed.

Lemma positions_ge p idx columns i : i ∈ positions p idx columns -> (idx <= i)%Z.
Proof.
  revert idx. induction columns as [|col rest IH]; intros idx; simpl.
  - by intros ?%elem_of_nil.
  - destruct (p col); [intros [->|Hi]%elem_of_cons|intros Hi];
      try lia; apply IH in Hi; lia.
Qed.

Lemma positions_lookup p idx columns i :
  i ∈ positions p idx columns ->
  exists col, columns !! Z.to_nat (i - idx) = Some col /\ p col = true.
Proof.
  revert idx. induction columns as [|col rest IH]; intros idx; simpl.
  - by intros ?%elem_of_nil.
  - assert (i ∈ positions p (idx + 1) rest ->
            exists col0, (col :: rest) !! Z.to_nat (i - idx) = Some col0 /\ p col0 = true)
      as Hrest.
    { intros Hi. pose proof (positions_ge _ _ _ _ Hi) as Hge.
      destruct (IH _ Hi) as (c & Hc & Hp). exists c. split; [|done].
      replace (Z.to_nat (i - idx)) with (S (Z.to_nat (i - (idx + 1)))) by lia.
      done. }
    destruct (p col) eqn:Hp; [intros [->|Hi]%elem_of_cons|intros Hi]; auto.
    exists col. by rewrite Z.sub_diag.
Qed.

Lemma positions_NoDup p idx columns : NoDup (positions p idx columns).
Proof.
  revert idx. induction columns as [|col rest IH]; intros idx; simpl.
  - constructor.
  - destruct (p col); [|apply IH]. constructor; [|apply IH].
    intros Hi%positions_ge. lia.
Qed.

Lemma positions_length p idx columns :
  (length (positions p idx columns) <= length columns)%nat.
Proof.
  revert idx. induction columns as [|col rest IH]; intros idx; simpl; [lia|].
  destruct (p col); simpl; specialize (IH (idx + 1)%Z); lia.
Qed.

Lemma positions_none p idx columns :
  positions p idx columns = [] -> forall col, col ∈ columns -> p col = false.
Proof.
  revert idx. induction columns as [|c rest IH]; intros idx; simpl.
  - by intros _ col ?%elem_of_nil.
  - destruct (p c) eqn:Hp; [done|]. intros Hrest col [->|Hc]%elem_of_cons; eauto.
Qed.

(** The loop over the columns, in closed form. *)
Lemma forEach_spec idx columns acc :
  (0 <= idx)%Z ->
  forEach idx columns acc
  = {| scan_dim := if (scan_dim acc =? -1)%Z
                   then default (-1)%Z (head (positions isDateOrString idx columns))
                   else scan_dim acc;
       scan_line := if (scan_line acc =? -1)%Z
                    then default (-1)%Z (head (positions rateMeasure idx columns))
                    else scan_line acc;
       measureIndices := measureIndices acc ++ positions plainMeasure idx columns |}.
Proof.
  revert idx acc. induction columns as [|col rest IH]; intros idx acc Hidx.
  - destruct acc as [d l m]. simpl. rewrite app_nil_r.
    by destruct (d =? -1)%Z eqn:Hd, (l =? -1)%Z eqn:Hl;
      try apply Z.eqb_eq in Hd as ->; try apply Z.eqb_eq in Hl as ->.
  - cbn [forEach]. rewrite IH by lia. clear IH.
    destruct acc as [d l m]. unfold visit, rateMeasure, plainMeasure. simpl.
    destruct (isDateOrString col) eqn:Hdim;
      [rewrite (dimension_not_numeric _ Hdim)
      |destruct (isNumeric col) eqn:Hnum; [destruct (namedAsRate col) eqn:Hrate|]];
      simpl;
      repeat match goal with
      | |- context [(?x =? -1)%Z] => destruct (Z.eqb_spec x (-1)); simpl in *; try lia
      end; try done.
    all: by rewrite <- app_assoc.
Qed.

(** The field mapping as a table over the plain measures, the measures
    named as a rate and the columns of dates or text. *)
Lemma detectFields_table columns :
  detectFields columns
  = {| dimIndex :=
         match positions isDateOrString 0 columns, columns with
         | d :: _, _ => d
         | [], _ :: _ => 0
         | [], [] => -1
         end%Z;
       bar1Index := at_index (positions plainMeasure 0 columns) 0;
       bar2Index :=
         match positions rateMeasure 0 columns, positions plainMeasure 0 columns with
         | _ :: _, _ :: b :: _ => b
         | [], _ :: b :: _ :: _ => b
         | _, _ => -1
         end%Z;
       lineIndex :=
         match positions rateMeasure 0 columns, positions plainMeasure 0 columns with
         | r :: _, _ => r
         | [], _ :: _ :: l :: _ => l
         | [], [_; l] => l
         | [], _ => -1
         end%Z |}.
Proof.
  unfold detectFields, at_index. rewrite forEach_spec by lia.
  cbn [scan_dim scan_line measureIndices].
  change (-1 =? -1)%Z with true. cbv iota. rewrite app_nil_l.
  pose proof (positions_ge isDateOrString 0 columns) as Hd.
  pose proof (positions_ge rateMeasure 0 columns) as Hr.
  pose proof (positions_ge plainMeasure 0 columns) as Hp.
  destruct (positions isDateOrString 0 columns) as [|d ds];
    destruct (positions rateMeasure 0 columns) as [|r rs];
    destruct (positions plainMeasure 0 columns) as [|a [|b [|c rest]]];
    destruct columns as [|col cols]; simpl;
    try (specialize (Hd d ltac:(left)));
    try (specialize (Hr r ltac:(left)));
    try (pose proof (Hp a ltac:(left)));
    try (pose proof (Hp b ltac:(right; left)));
    try (pose proof (Hp c ltac:(right; right; left)));
    repeat match goal with
    | |- context [(?x =? -1)%Z] => destruct (Z.eqb_spec x (-1)); simpl in *; try lia
    | |- context [(0 <=? ?x)%Z] => destruct (Z.leb_spec 0 x); try lia; simpl
    end; reflexivity.
Qed.

Lemma measure_column p columns l i :
  positions p 0 columns = l -> (forall col, p col = true -> isNumeric col = true) ->
  i ∈ l -> exists col, column_at columns i = Some col /\ isNumeric col = true.
Proof.
  intros <- Hp Hi. pose proof (positions_ge _ _ _ _ Hi).
  destruct (positions_lookup _ _ _ _ Hi) as (col & Hcol & Hpc).
  exists col. unfold column_at. destruct (Z.leb_spec 0 i); [|lia].
  rewrite Z.sub_0_r in Hcol. auto.
Qed.

(** X18.  The field mapping of [getData]: the indices for bar 1, bar 2 and
    the line are -1 or the position of a numeric column, and no column
    serves two of them; bar 2 is only filled when bar 1 and the line are.
    With at least one column there always is a dimension: the first column
    of dates or text or, without one, column 0, even where that is
    numeric. *)
Theorem detected_fields_distinct columns :
  let f := detectFields columns in
  (forall i, i ∈ [bar1Index f; bar2Index f; lineIndex f] ->
     i = (-1)%Z \/
     exists col, column_at columns i = Some col /\ isNumeric col = true) /\
  (bar1Index f <> (-1)%Z ->
     bar1Index f <> bar2Index f /\ bar1Index f <> lineIndex f) /\
  (bar2Index f <> (-1)%Z ->
     bar2Index f <> lineIndex f /\ bar1Index f <> (-1)%Z /\ lineIndex f <> (-1)%Z) /\
  (columns = [] -> dimIndex f = (-1)%Z) /\
  (columns <> [] ->
     exists col, column_at columns (dimIndex f) = Some col /\
       (isDateOrString col = true \/
        dimIndex f = 0%Z /\ forall c, c ∈ columns -> isDateOrString c = false)).
Proof.
  cbv zeta. rewrite detectFields_table.
  cbn [dimIndex bar1Index bar2Index lineIndex].
  pose proof (positions_NoDup plainMeasure 0 columns) as Hnd.
  pose proof (positions_ge plainMeasure 0 columns) as Hge.
  pose proof (positions_ge rateMeasure 0 columns) as Hrge.
  pose proof (positions_lookup plainMeasure 0 columns) as Hpl.
  pose proof (positions_lookup rateMeasure 0 columns) as Hrl.
  assert (forall i, i ∈ positions plainMeasure 0 columns ->
            exists col, column_at columns i = Some col /\ isNumeric col = true) as Hplain.
  { intros i. apply (measure_column plainMeasure); [done|].
    unfold plainMeasure. by intros col [? _]%andb_prop. }
  assert (forall i, i ∈ positions rateMeasure 0 columns ->
            exists col, column_at columns i = Some col /\ isNumeric col = true) as Hrate.
  { intros i. apply (measure_column rateMeasure); [done|].
    unfold rateMeasure. by intros col [? _]%andb_prop. }
  assert (forall i, i ∈ positions plainMeasure 0 columns ->
            i ∈ positions rateMeasure 0 columns -> False) as Hdisj.
  { intros i Hi1 Hi2.
    destruct (Hpl _ Hi1) as (c1 & Hc1 & Hp1). destruct (Hrl _ Hi2) as (c2 & Hc2 & Hp2).
    rewrite Hc1 in Hc2. injection Hc2 as <-.
    unfold plainMeasure, rateMeasure in *.
    destruct (isNumeric c1), (namedAsRate c1); done. }
  split; [|split; [|split; [|split]]].
  - intros i Hi. unfold at_index in Hi.
    destruct (positions rateMeasure 0 columns) as [|r rs];
      destruct (positions plainMeasure 0 columns) as [|a [|b [|c rest]]];
      simpl in Hi;
      repeat (apply elem_of_cons in Hi as [->|Hi]);
      try (by apply elem_of_nil in Hi); try (by left); right;
      first [apply Hplain; solve [in_positions] | apply Hrate; solve [in_positions]].
  - unfold at_index.
    destruct (positions rateMeasure 0 columns) as [|r rs];
      destruct (positions plainMeasure 0 columns) as [|a [|b [|c rest]]];
      simpl; intros Ha; try done;
      repeat match goal with
      | H : NoDup (_ :: _) |- _ => apply NoDup_cons in H as [? ?]
      end;
      try (pose proof (Hge a ltac:(left)));
      split; try lia; intros ->;
      try (by (exfalso; apply (Hdisj r); in_positions));
      set_solver.
  - unfold at_index.
    destruct (positions rateMeasure 0 columns) as [|r rs];
      destruct (positions plainMeasure 0 columns) as [|a [|b [|c rest]]];
      simpl; intros Hb; try done;
      repeat match goal with
      | H : NoDup (_ :: _) |- _ => apply NoDup_cons in H as [? ?]
      end;
      try (pose proof (Hge a ltac:(left)));
      try (pose proof (Hge c ltac:(right; right; left)));
      try (pose proof (Hrge r ltac:(left)));
      (split; [|split; lia]); intros ->;
      try (by (exfalso; apply (Hdisj r); in_positions));
      set_solver.
  - intros ->. reflexivity.
  - intros Hne.
    pose proof (positions_lookup isDateOrString 0 columns) as Hdl.
    pose proof (positions_ge isDateOrString 0 columns) as Hdge.
    pose proof (positions_none isDateOrString 0 columns) as Hnone.
    destruct (positions isDateOrString 0 columns) as [|d ds].
    + destruct columns as [|col cols]; [done|].
      exists col. split; [reflexivity|]. right. split; [reflexivity|]. by apply Hnone.
    + destruct (Hdl d ltac:(left)) as (col & Hcol & Hp).
      specialize (Hdge d ltac:(left)).
      exists col. split; [|by left].
      unfold column_at. destruct (Z.leb_spec 0 d); [|lia].
      by rewrite Z.sub_0_r in Hcol.
Qed.

Lemma detected_fields_distinct_witness :
  let columns := [ {| fieldName := "Sales"; dataType := "float" |};
                   {| fieldName := "Profit Ratio"; dataType := "float" |} ] in
  detectFields columns
  = {| dimIndex := 0; bar1Index := 0; bar2Index := -1; lineIndex := 1 |} /\
  (bar1Index (detectFields columns) <> bar2Index (detectFields columns) /\
   bar1Index (detectFields columns) <> lineIndex (detectFields columns)).
Proof.
  cbv zeta. split; [reflexivity|].
  apply (detected_fields_distinct
           [ {| fieldName := "Sales"; dataType := "float" |};
             {| fieldName := "Profit Ratio"; dataType := "float" |} ]).
  vm_compute. discriminate.
Defined.

(** X19.  Which measure goes where.  Bar 1 is the first plain measure (a
    numeric column whose name has none of %, margin, ratio, rate).  The
    line is the first numeric column with such a name; without one it is
    the third plain measure, or the second when there are just two, and
    then bar 2 stays empty.  Hence all four fields are found exactly when
    there are two plain measures and either a measure named as a rate or a
    third plain measure. *)
Theorem field_assignment columns :
  let f := detectFields columns in
  let plain := positions plainMeasure 0 columns in
  let rate := positions rateMeasure 0 columns in
  bar1Index f = at_index plain 0 /\
  (rate <> [] -> lineIndex f = at_index rate 0 /\ bar2Index f = at_index plain 1) /\
  (rate = [] -> (3 <= length plain)%nat ->
     bar2Index f = at_index plain 1 /\ lineIndex f = at_index plain 2) /\
  (rate = [] -> length plain = 2%nat ->
     bar2Index f = (-1)%Z /\ lineIndex f = at_index plain 1) /\
  (rate = [] -> (length plain < 2)%nat ->
     bar2Index f = (-1)%Z /\ lineIndex f = (-1)%Z) /\
  (hasAllFields f = true <->
     (2 <= length plain)%nat /\ (rate <> [] \/ (3 <= length plain)%nat)).
Proof.
  cbv zeta. unfold hasAllFields. rewrite detectFields_table.
  cbn [dimIndex bar1Index bar2Index lineIndex]. unfold at_index.
  pose proof (positions_ge plainMeasure 0 columns) as Hge.
  pose proof (positions_ge rateMeasure 0 columns) as Hrge.
  pose proof (positions_ge isDateOrString 0 columns) as Hdge.
  pose proof (positions_length plainMeasure 0 columns) as Hlen.
  destruct (positions rateMeasure 0 columns) as [|r rs];
    destruct (positions plainMeasure 0 columns) as [|a [|b [|c rest]]];
    destruct (positions isDateOrString 0 columns) as [|d ds];
    destruct columns as [|col cols]; simpl in *;
    try (pose proof (Hge a ltac:(left)));
    try (pose proof (Hge b ltac:(right; left)));
    try (pose proof (Hge c ltac:(right; right; left)));
    try (pose proof (Hrge r ltac:(left)));
    try (pose proof (Hdge d ltac:(left)));
    try lia;
    (split; [reflexivity|]);
    (split; [intros ?; try done; split; reflexivity|]);
    (split; [intros ? ?; try done; try lia; split; reflexivity|]);
    (split; [intros ? ?; try done; try lia; split; reflexivity|]);
    (split; [intros ? ?; try done; try lia; split; reflexivity|]);
    rewrite ?andb_true_iff, ?Z.leb_le;
    (split; [intros ?; split; [lia|]; first [by left | right; lia | lia]
            |intros [? [?|?]]; try done; try lia; repeat split; lia]).
Qed.

Lemma field_assignment_witness :
  let columns := [ {| fieldName := "Month"; dataType := "date" |};
                   {| fieldName := "Sales"; dataType := "float" |};
                   {| fieldName := "Profit"; dataType := "float" |} ] in
  detectFields columns
  = {| dimIndex := 0; bar1Index := 1; bar2Index := -1; lineIndex := 2 |} /\
  hasAllFields (detectFields columns) = false /\
  (bar2Index (detectFields columns) = (-1)%Z /\
   lineIndex (detectFields columns)
   = at_index (positions plainMeasure 0 columns) 1).
Proof.
  cbv zeta. split; [reflexivity|]. split; [reflexivity|].
  apply (field_assignment
           [ {| fieldName := "Month"; dataType := "date" |};
             {| fieldName := "Sales"; dataType := "float" |};
             {| fieldName := "Profit"; dataType := "float" |} ]);
    reflexivity.
Defined.

End DetectFacts.

(** ** Numbers of the data adapter *)

Module CellFacts.

Import DimSort ConfigTree Cells CellNotions.

Lemma keep_app p a b : keep p (a +:+ b) = keep p a +:+ keep p b.
Proof.
  induction a as [|c a IH]; [done|].
  change (String c a +:+ b) with (String c (a +:+ b)). simpl.
  rewrite IH. by destruct (p c).
Qed.

Lemma keep_digits s :
  all_chars no_mark s = true -> keep kept s = keep is_digit s.
Proof.
  induction s as [|c s IH]; [done|]. simpl. intros [Hc Hs]%andb_prop.
  rewrite (IH Hs). unfold kept. unfold no_mark in Hc.
  destruct (is_digit c); [done|]. simpl.
  by destruct (Ascii.eqb c "."), (Ascii.eqb c "-").
Qed.

Lemma keep_all_digits s : all_chars is_digit (keep is_digit s) = true.
Proof.
  induction s as [|c s IH]; [done|]. simpl.
  destruct (is_digit c) eqn:Hc; [|done]. simpl. by rewrite Hc.
Qed.

Lemma keep_no_digit s :
  all_chars no_digit s = true -> keep is_digit s = "".
Proof.
  induction s as [|c s IH]; [done|]. simpl. intros [Hc Hs]%andb_prop.
  unfold no_digit in Hc. destruct (is_digit c); [done|]. auto.
Qed.

Lemma keep_some_digit s :
  all_chars no_digit s = false -> keep is_digit s <> "".
Proof.
  induction s as [|c s IH]; [done|]. simpl. unfold no_digit at 1.
  destruct (is_digit c); [done|]. simpl. auto.
Qed.

Lemma span_digits a rest :
  all_chars is_digit a = true ->
  match rest with String c _ => is_digit c = false | EmptyString => True end ->
  span is_digit (a +:+ rest) = (a, rest).
Proof.
  intros Ha Hrest. induction a as [|c a IH].
  - change ("" +:+ rest) with rest. destruct rest as [|c r]; [done|].
    simpl. by rewrite Hrest.
  - change (String c a +:+ rest) with (String c (a +:+ rest)).
    simpl in Ha. apply andb_prop in Ha as [Hc Ha]. simpl. rewrite Hc.
    by rewrite (IH Ha).
Qed.

Lemma append_empty s : s +:+ "" = s.
Proof. induction s as [|c s IH]; [done|]. change (String c s +:+ "") with (String c (s +:+ "")). by rewrite IH. Qed.

Lemma digit_not_minus a c rest :
  all_chars is_digit a = true -> a +:+ rest = String c rest -> c <> "-"%char.
Proof.
  destruct a as [|d a]; simpl.
  - intros _ Heq Hc. subst c. change ("" +:+ rest) with rest in Heq.
    assert (String.length rest = String.length (String "-" rest)) as Hlen by (by rewrite <- Heq).
    simpl in Hlen. lia.
  - intros [Hd _]%andb_prop. change (String d a +:+ rest) with (String d (a +:+ rest)).
    intros [= -> _] ->. done.
Qed.

(** Text of digits only is parsed as the number it writes. *)
Lemma parseFloat_digits a :
  all_chars is_digit a = true -> a <> "" ->
  parseFloat a = Fin (inject_Z (decimal a)).
Proof.
  intros Ha Hne. unfold parseFloat.
  assert (unsignedDecimal a = Some (inject_Z (decimal a))) as Hu.
  { unfold unsignedDecimal. rewrite <- (append_empty a) at 1.
    rewrite (span_digits a "" Ha I).
    destruct (String.eqb_spec a ""); done. }
  destruct a as [|c a]; [done|].
  simpl in Ha. apply andb_prop in Ha as [Hc _].
  rewrite Hu.
  destruct c as [[] [] [] [] [] [] [] []]; done.
Qed.

(** Digits, a point and digits. *)
Lemma parseFloat_point a b :
  all_chars is_digit a = true -> all_chars is_digit b = true ->
  (a <> "" \/ b <> "") ->
  parseFloat (a +:+ String "." b)
  = Fin (inject_Z (decimal a)
         + inject_Z (decimal b) / inject_Z (10 ^ Z.of_nat (String.length b)))%Q.
Proof.
  intros Ha Hb Hne. unfold parseFloat.
  assert (unsignedDecimal (a +:+ String "." b)
          = Some (inject_Z (decimal a)
                  + inject_Z (decimal b) / inject_Z (10 ^ Z.of_nat (String.length b)))%Q)
    as Hu.
  { unfold unsignedDecimal. rewrite (span_digits a (String "." b) Ha eq_refl).
    rewrite <- (append_empty b) at 1. rewrite (span_digits b "" Hb I).
    destruct (String.eqb_spec a "") as [->|?]; [|done].
    destruct (String.eqb_spec b "") as [->|?]; [|done].
    by destruct Hne. }
  rewrite Hu.
  destruct a as [|c a]; [reflexivity|].
  simpl in Ha. apply andb_prop in Ha as [Hc _].
  change (String c a +:+ String "." b) with (String c (a +:+ String "." b)) in *.
  destruct c as [[] [] [] [] [] [] [] []]; done.
Qed.

(** Points and minus signs alone are no number. *)
Lemma unsignedDecimal_marks s :
  all_chars no_digit s = true -> unsignedDecimal s = None.
Proof.
  intros Hs. unfold unsignedDecimal.
  destruct s as [|c s]; [done|].
  simpl in Hs. apply andb_prop in Hs as [Hc Hs]. unfold no_digit in Hc.
  simpl. destruct (is_digit c) eqn:Hd; [done|].
  destruct (Ascii.eqb_spec c ".") as [->|Hne].
  - destruct s as [|c' s]; [done|].
    simpl in Hs. apply andb_prop in Hs as [Hc' _]. unfold no_digit in Hc'.
    simpl. by destruct (is_digit c').
  - destruct c as [[] [] [] [] [] [] [] []]; done.
Qed.

Lemma parseFloat_marks s : all_chars no_digit s = true -> parseFloat s = NaN.
Proof.
  intros Hs. unfold parseFloat.
  assert (unsignedDecimal s = None) as Hu by (by apply unsignedDecimal_marks).
  destruct s as [|c s]; [done|].
  simpl in Hs. apply andb_prop in Hs as [_ Hs'].
  rewrite Hu, (unsignedDecimal_marks _ Hs').
  destruct c as [[] [] [] [] [] [] [] []]; done.
Qed.

Lemma keep_kept_no_digit s :
  all_chars no_digit s = true -> all_chars no_digit (keep kept s) = true.
Proof.
  induction s as [|c s IH]; [done|]. simpl. intros [Hc Hs]%andb_prop.
  destruct (kept c); simpl; [rewrite Hc|]; auto.
Qed.

(** X20.  [parseNumber] on a cell without a value reads the formatted
    text, and never returns NaN.  Text without a digit gives 0.  In text
    without point and minus, whatever stands between the digits (currency
    signs, separators, brackets, per cent signs) is ignored and the
    digits are read as one whole number; with one point between two such
    texts the digits after it are the decimals. *)
Theorem formatted_number_read (toNumber : jsval -> num) (dv : DataValue) :
  value dv = VNull \/ value dv = VUndef ->
  parseNumber toNumber dv <> NaN /\
  (all_chars no_digit (formattedValue dv) = true ->
   parseNumber toNumber dv = Fin 0) /\
  (all_chars no_mark (formattedValue dv) = true ->
   all_chars no_digit (formattedValue dv) = false ->
   parseNumber toNumber dv
   = Fin (inject_Z (decimal (keep is_digit (formattedValue dv))))) /\
  (forall a b,
     formattedValue dv = a +:+ String "." b ->
     all_chars no_mark a = true -> all_chars no_mark b = true ->
     all_chars no_digit (formattedValue dv) = false ->
     parseNumber toNumber dv
     = Fin (inject_Z (decimal (keep is_digit a))
            + inject_Z (decimal (keep is_digit b))
              / inject_Z (10 ^ Z.of_nat (String.length (keep is_digit b))))%Q).
Proof.
  intros Hv.
  assert (parseNumber toNumber dv
          = match parseFloat (keep kept (formattedValue dv)) with
            | NaN => Fin 0
            | Fin q => Fin q
            end) as ->.
  { unfold parseNumber. by destruct Hv as [-> | ->]. }
  split; [by destruct (parseFloat _)|].
  split; [|split].
  - intros Hnone. by rewrite (parseFloat_marks _ (keep_kept_no_digit _ Hnone)).
  - intros Hmark Hdigit. rewrite (keep_digits _ Hmark).
    rewrite parseFloat_digits; [done|apply keep_all_digits|by apply keep_some_digit].
  - intros a b Heq Ha Hb Hdigit. rewrite Heq, keep_app. simpl keep.
    change (kept ".") with true. cbv iota.
    rewrite (keep_digits _ Ha), (keep_digits _ Hb).
    rewrite parseFloat_point; [done|apply keep_all_digits|apply keep_all_digits|].
    destruct (all_chars no_digit a) eqn:Hda.
    + right. apply keep_some_digit.
      destruct (all_chars no_digit b) eqn:Hdb; [|done].
      rewrite Heq in Hdigit.
      assert (forall x y, all_chars no_digit x = true -> all_chars no_digit y = true ->
                all_chars no_digit (x +:+ y) = true) as Happ.
      { intros x y Hx Hy. induction x as [|c x IH]; [done|].
        change (String c x +:+ y) with (String c (x +:+ y)). simpl in *.
        apply andb_prop in Hx as [-> Hx]. simpl. auto. }
      rewrite (Happ a (String "." b) Hda) in Hdigit; [done|].
      simpl. by rewrite Hdb.
    + left. by apply keep_some_digit.
Qed.

Lemma formatted_number_read_witness :
  let read text := parseNumber (fun _ => NaN) {| value := VNull; formattedValue := text |} in
  read "$1,234" = Fin 1234 /\ read "n/a" = Fin 0 /\ read "(45%)" = Fin 45 /\
  read "-" = Fin 0 /\ read "$-1,234.50" = Fin (- (123450 # 100)) /\
  read "1,234 units" <> NaN /\
  read "1,234 units" = Fin (inject_Z (decimal "1234")).
Proof.
  cbv zeta.
  split; [reflexivity|]. split; [reflexivity|]. split; [reflexivity|].
  split; [reflexivity|]. split; [vm_compute; reflexivity|].
  destruct (formatted_number_read (fun _ => NaN)
              {| value := VNull; formattedValue := "1,234 units" |} (or_introl eq_refl))
    as (Hnan & _ & Hwhole & _).
  split; [exact Hnan|]. apply Hwhole; reflexivity.
Defined.

End CellFacts.

(** ** The dialog *)

Module DialogFacts.

Import ConfigTree Fonts Dialog DialogNotions.

Ltac other_key Hk :=
  rewrite ?lookup_insert_ne; [reflexivity|..];
  intros <-; apply Hk; unfold swappedKeys;
  repeat first [apply list_elem_of_here | apply list_elem_of_further].

(** What one swap does to a configuration that has all the parts. *)
Lemma swapBars_spec config a b m1 m2 lg l1 l2 :
  config !! "bar1Measure" = Some a -> config !! "bar2Measure" = Some b ->
  config !! "bar1" = Some (VObj m1) -> config !! "bar2" = Some (VObj m2) ->
  config !! "legend" = Some (VObj lg) ->
  lg !! "bar1Label" = Some l1 -> lg !! "bar2Label" = Some l2 ->
  exists config' lg',
    swapBars config = Some (Swapped config') /\
    config' !! "bar1Measure" = Some b /\ config' !! "bar2Measure" = Some a /\
    config' !! "bar1" = Some (VObj m2) /\ config' !! "bar2" = Some (VObj m1) /\
    config' !! "legend" = Some (VObj lg') /\
    lg' !! "bar1Label" = Some l2 /\ lg' !! "bar2Label" = Some l1 /\
    (forall k, k ∉ swappedKeys -> config' !! k = config !! k) /\
    (forall k, k <> "bar1Label" -> k <> "bar2Label" -> lg' !! k = lg !! k).
Proof.
  intros Ha Hb H1 H2 Hlg Hl1 Hl2. unfold swapBars.
  rewrite Ha, Hb.
  rewrite !(lookup_insert_ne _ _ "bar1") by done. rewrite H1.
  rewrite !(lookup_insert_ne _ _ "bar2") by done. rewrite H2.
  rewrite !(lookup_insert_ne _ _ "legend") by done. rewrite Hlg.
  cbn [from_option id spread]. rewrite Hl1, Hl2. cbn [from_option id].
  eexists _, _. split; [reflexivity|].
  split; [by rewrite !lookup_insert_ne, lookup_insert_eq by done|].
  split; [by rewrite !lookup_insert_ne, lookup_insert_eq by done|].
  split; [by rewrite !lookup_insert_ne, lookup_insert_eq by done|].
  split; [by rewrite !lookup_insert_ne, lookup_insert_eq by done|].
  split; [by rewrite lookup_insert_eq|].
  split; [by rewrite lookup_insert_ne, lookup_insert_eq by done|].
  split; [by rewrite lookup_insert_eq|].
  split.
  - intros k Hk. other_key Hk.
  - intros k Hk1 Hk2. by rewrite !lookup_insert_ne by done.
Qed.

(** X21.  [swapBars] on a configuration that has both measures, both bar
    styles as objects and a legend with both labels: the measures, the
    styles and the labels change places, everything else stays, and a
    second swap gives back exactly the configuration before the first. *)
Theorem swap_twice_restores config a b m1 m2 lg l1 l2 :
  config !! "bar1Measure" = Some a -> config !! "bar2Measure" = Some b ->
  config !! "bar1" = Some (VObj m1) -> config !! "bar2" = Some (VObj m2) ->
  config !! "legend" = Some (VObj lg) ->
  lg !! "bar1Label" = Some l1 -> lg !! "bar2Label" = Some l2 ->
  exists config' lg',
    swapBars config = Some (Swapped config') /\
    config' !! "bar1Measure" = Some b /\ config' !! "bar2Measure" = Some a /\
    config' !! "bar1" = Some (VObj m2) /\ config' !! "bar2" = Some (VObj m1) /\
    config' !! "legend" = Some (VObj lg') /\
    lg' !! "bar1Label" = Some l2 /\ lg' !! "bar2Label" = Some l1 /\
    (forall k, k <> "bar1Label" -> k <> "bar2Label" -> lg' !! k = lg !! k) /\
    (forall k,
       k <> "bar1Measure" -> k <> "bar2Measure" -> k <> "bar1" -> k <> "bar2" ->
       k <> "legend" -> config' !! k = config !! k) /\
    swapBars config' = Some (Swapped config).
Proof.
  intros Ha Hb H1 H2 Hlg Hl1 Hl2.
  destruct (swapBars_spec config a b m1 m2 lg l1 l2)
    as (c' & lg' & Hs & Ha' & Hb' & H1' & H2' & Hlg' & Hl1' & Hl2' & Hk' & Hlk'); try done.
  exists c', lg'. repeat (split; [done|]).
  assert (forall k, k <> "bar1Measure" -> k <> "bar2Measure" -> k <> "bar1" ->
            k <> "bar2" -> k <> "legend" -> k ∉ swappedKeys) as Hnot.
  { intros k ? ? ? ? ? Hin. unfold swappedKeys in Hin.
    repeat (apply elem_of_cons in Hin as [->|Hin]; [done|]).
    by apply elem_of_nil in Hin. }
  split; [intros k ? ? ? ? ?; apply Hk'; by apply Hnot|].
  destruct (swapBars_spec c' b a m2 m1 lg' l2 l1)
    as (c'' & lg'' & Hs2 & Ha'' & Hb'' & H1'' & H2'' & Hlg'' & Hl1'' & Hl2'' & Hk'' & Hlk'');
    try done.
  rewrite Hs2. do 2 f_equal.
  assert (lg'' = lg) as ->.
  { apply map_eq. intros k.
    destruct (decide (k = "bar1Label")) as [->|?]; [by rewrite Hl1''|].
    destruct (decide (k = "bar2Label")) as [->|?]; [by rewrite Hl2''|].
    rewrite Hlk'' by done. by apply Hlk'. }
  apply map_eq. intros k.
  destruct (decide (k = "bar1Measure")) as [->|?]; [by rewrite Ha''|].
  destruct (decide (k = "bar2Measure")) as [->|?]; [by rewrite Hb''|].
  destruct (decide (k = "bar1")) as [->|?]; [by rewrite H1''|].
  destruct (decide (k = "bar2")) as [->|?]; [by rewrite H2''|].
  destruct (decide (k = "legend")) as [->|?]; [by rewrite Hlg''|].
  rewrite Hk'' by (by apply Hnot). apply Hk'. by apply Hnot.
Qed.

Lemma swap_twice_restores_witness :
  let legend : gmap string jsval :=
    <["bar1Label" := VStr "Sales"]> (<["bar2Label" := VStr ""]> ∅) in
  let config : gmap string jsval :=
    <["bar1Measure" := VStr "SUM(Sales)"]>
      (<["bar2Measure" := VStr "SUM(Profit)"]>
         (<["bar1" := VObj (<["color" := VStr "#4e79a7"]> ∅)]>
            (<["bar2" := VObj (<["color" := VStr "#f28e2b"]> ∅)]>
               (<["legend" := VObj legend]> ∅)))) in
  exists config',
    swapBars config = Some (Swapped config') /\
    config' !! "bar1Measure" = Some (VStr "SUM(Profit)") /\
    swapBars config' = Some (Swapped config).
Proof.
  cbv zeta.
  edestruct (swap_twice_restores
    (<["bar1Measure" := VStr "SUM(Sales)"]>
      (<["bar2Measure" := VStr "SUM(Profit)"]>
         (<["bar1" := VObj (<["color" := VStr "#4e79a7"]> ∅)]>
            (<["bar2" := VObj (<["color" := VStr "#f28e2b"]> ∅)]>
               (<["legend" := VObj (<["bar1Label" := VStr "Sales"]>
                                      (<["bar2Label" := VStr ""]> ∅))]> ∅))))))
    as (config' & lg' & Hs & Hm & _ & _ & _ & _ & _ & _ & _ & _ & Hback);
    [vm_compute; reflexivity ..|].
  exists config'. split; [exact Hs|]. split; [exact Hm|exact Hback].
Defined.

(** X22.  [swapBars] on a configuration whose legend is missing,
    [undefined], [null] or not an object throws, and by then the measures
    and the bar styles have changed places already: the configuration is
    left half swapped. *)
Theorem swap_without_legend config a b m1 m2 :
  config !! "bar1Measure" = Some a -> config !! "bar2Measure" = Some b ->
  config !! "bar1" = Some (VObj m1) -> config !! "bar2" = Some (VObj m2) ->
  (forall l, config !! "legend" <> Some (VArr l)) ->
  (forall lg, config !! "legend" <> Some (VObj lg)) ->
  exists config',
    swapBars config = Some (Threw config') /\
    config' !! "bar1Measure" = Some b /\ config' !! "bar2Measure" = Some a /\
    config' !! "bar1" = Some (VObj m2) /\ config' !! "bar2" = Some (VObj m1) /\
    config' !! "legend" = config !! "legend".
Proof.
  intros Ha Hb H1 H2 Harr Hobj. unfold swapBars.
  rewrite Ha, Hb.
  rewrite !(lookup_insert_ne _ _ "bar1") by done. rewrite H1.
  rewrite !(lookup_insert_ne _ _ "bar2") by done. rewrite H2.
  rewrite !(lookup_insert_ne _ _ "legend") by done.
  cbn [from_option id spread].
  assert (forall c' : gmap string jsval,
            match default VUndef (config !! "legend") with
            | VObj legend =>
                Some (Swapped (<["legend" :=
                   VObj (<["bar2Label" := default VUndef (legend !! "bar1Label")]>
                          (<["bar1Label" := default VUndef (legend !! "bar2Label")]> legend))]> c'))
            | VArr _ => None
            | _ => Some (Threw c')
            end = Some (Threw c')) as ->.
  { intros c'. destruct (config !! "legend") as [[]|] eqn:Hlg; try done.
    - by destruct (Harr l).
    - by destruct (Hobj m). }
  eexists. split; [reflexivity|].
  split; [by rewrite !lookup_insert_ne, lookup_insert_eq by done|].
  split; [by rewrite !lookup_insert_ne, lookup_insert_eq by done|].
  split; [by rewrite !lookup_insert_ne, lookup_insert_eq by done|].
  split; [by rewrite lookup_insert_eq|].
  by rewrite !lookup_insert_ne by done.
Qed.

Lemma swap_without_legend_witness :
  let config : gmap string jsval :=
    <["bar1Measure" := VStr "SUM(Sales)"]>
      (<["bar2Measure" := VStr "SUM(Profit)"]>
         (<["bar1" := VObj (<["color" := VStr "#4e79a7"]> ∅)]>
            (<["bar2" := VObj (<["color" := VStr "#f28e2b"]> ∅)]>
               (<["legend" := VNull]> ∅)))) in
  exists config',
    swapBars config = Some (Threw config') /\
    config' !! "bar1Measure" = Some (VStr "SUM(Profit)") /\
    config' !! "bar1" = Some (VObj (<["color" := VStr "#f28e2b"]> ∅)).
Proof.
  cbv zeta.
  edestruct (swap_without_legend
    (<["bar1Measure" := VStr "SUM(Sales)"]>
      (<["bar2Measure" := VStr "SUM(Profit)"]>
         (<["bar1" := VObj (<["color" := VStr "#4e79a7"]> ∅)]>
            (<["bar2" := VObj (<["color" := VStr "#f28e2b"]> ∅)]>
               (<["legend" := VNull]> ∅))))))
    as (config' & Hs & Hm & _ & Hb & _);
    [vm_compute; reflexivity ..| | |].
  - intros l. vm_compute. discriminate.
  - intros lg. vm_compute. discriminate.
  - exists config'. split; [exact Hs|]. split; [exact Hm|exact Hb].
Defined.

End DialogFacts.

(** ** Debounced listeners *)

Module DebounceFacts.

Import Debounce DebounceNotions.

Section Facts.

Context {A : Type}.

Variable wait : Z.

Lemma clear_own (tm : TimerEntry A) :
  clearTimeout (Some (timer_id tm)) [tm] = [].
Proof. simpl. by rewrite Nat.eqb_refl. Qed.

Lemma clear_settled (events : list (Event A)) (st : State A) :
  settled wait events st -> clearTimeout (timeout st) (pending st) = [].
Proof.
  intros [Hp | (tm & ? & ? & ? & Hp & Ht & _)]; rewrite Hp.
  - by destruct (timeout st).
  - rewrite Ht. apply clear_own.
Qed.

Lemma run_snoc (events : list (Event A)) (ev : Event A) :
  run wait (events ++ [ev]) = step wait (run wait events) ev.
Proof. unfold run. by rewrite fold_left_app. Qed.

Lemma run_settled (events : list (Event A)) : settled wait events (run wait events).
Proof.
  induction events as [|ev events IH] using rev_ind; [by left|].
  rewrite run_snoc. destruct ev as [now args | now id]; cbn [step].
  - right. unfold executedFunction. rewrite (clear_settled _ _ IH).
    eexists _, events, [], now. simpl. done.
  - unfold fire.
    destruct IH as [Hp | (tm & before & after & t0 & Hp & Ht & Hev & Hafter & Hdue)].
    + rewrite Hp. simpl. by left.
    + rewrite Hp. simpl. destruct (Nat.eqb_spec (timer_id tm) id) as [Hid|Hid].
      * destruct (due tm <=? now)%Z.
        -- left. simpl. rewrite ?Hp. simpl.
           destruct (Nat.eqb_spec (timer_id tm) id); [|done]. simpl.
           by destruct (timeout (run wait events)).
        -- right. exists tm, before, (after ++ [Fire now id]), t0.
           split; [done|]. split; [done|].
           split; [by rewrite Hev, <- app_assoc|].
           split; [by rewrite forallb_app, Hafter|done].
      * right. exists tm, before, (after ++ [Fire now id]), t0.
        split; [done|]. split; [done|].
        split; [by rewrite Hev, <- app_assoc|].
        split; [by rewrite forallb_app, Hafter|done].
Qed.

End Facts.

(** X23.  A debounced function, after any calls and timers fired.  A call
    does not run [func]; it leaves exactly one timer set, [wait]
    milliseconds ahead, whatever was set before.  When a timer fires and
    runs [func], the arguments are those of the latest call, that call is
    at least [wait] milliseconds old, and no timer is left.  The timer of
    the latest call, fired once its time has come, does run [func]. *)
Theorem debounce_runs_latest {A : Type} (wait : Z) (events : list (Event A)) :
  let st := run wait events in
  (forall now args,
     let st' := executedFunction wait now args st in
     calls st' = calls st /\
     pending st'
     = [{| timer_id := next_id st; due := now + Z.max 0 wait; held := args |}] /\
     timeout st' = Some (next_id st)) /\
  (forall now id,
     let st' := fire now id st in
     st' = st \/
     exists before after called args,
       events = before ++ Invoke called args :: after /\
       forallb is_fire after = true /\
       (called + Z.max 0 wait <= now)%Z /\
       calls st' = calls st ++ [(now, args)] /\ pending st' = []) /\
  (forall called args now,
     (called + Z.max 0 wait <= now)%Z ->
     calls (fire now (next_id st) (executedFunction wait called args st))
     = calls st ++ [(now, args)]).
Proof.
  cbv zeta. pose proof (run_settled wait events) as Hs.
  split; [|split].
  - intros now args. unfold executedFunction. simpl.
    by rewrite (clear_settled wait _ _ Hs).
  - intros now id. unfold fire.
    destruct Hs as [Hp | (tm & before & after & t0 & Hp & Ht & Hev & Hafter & Hdue)].
    + rewrite Hp. simpl. by left.
    + rewrite Hp. simpl. destruct (Nat.eqb_spec (timer_id tm) id) as [Hid|Hid]; [|by left].
      destruct (Z.leb_spec (due tm) now) as [Hle|Hgt]; [|by left].
      right. exists before, after, t0, (held tm).
      split; [done|]. split; [done|]. split; [lia|]. split; [done|].
      simpl. rewrite ?Hp. simpl.
      destruct (Nat.eqb_spec (timer_id tm) id); [|done]. simpl.
      by destruct (timeout (run wait events)).
  - intros called args now Hnow. unfold fire, executedFunction. simpl.
    rewrite (clear_settled wait _ _ Hs). simpl. rewrite Nat.eqb_refl.
    cbn [due held]. destruct (Z.leb_spec (called + Z.max 0 wait) now); [done|lia].
Qed.

Lemma debounce_runs_latest_witness :
  calls (run 300 [Invoke 0 "first"; Invoke 100 "second"; Fire 300 0%nat;
                  Fire 350 1%nat; Fire 400 1%nat])
  = [(400%Z, "second")] /\
  calls (fire 450 2%nat (executedFunction 300 120 "third"
           (run 300 [Invoke 0 "first"; Invoke 100 "second"])))
  = calls (run 300 [Invoke 0 "first"; Invoke 100 "second"]) ++ [(450%Z, "third")].
Proof.
  split; [reflexivity|].
  apply (debounce_runs_latest 300 [Invoke 0 "first"; Invoke 100 "second"]). lia.
Defined.

End DebounceFacts.
